(** * comfy-mobile-ui launcher: supervisor and self-update subsystem

    A shallow embedding of the Python sources
      - [launcher_service.py]  (log buffer, dual-protocol listener, process
        controller, restart orchestrator),
      - [update_service.py]    (download task, status derivation),
      - [launcher.py]          (bootstrap update),
    followed by the properties established about them.

    Conventions.  Python [str] values are modelled as [string] (sequences of
    8-bit characters); the case mapping is the ASCII one.  Wall-clock time is
    a natural number of milliseconds.  Calls that leave the program (sockets,
    processes, HTTP, the clock) are answered by explicit environment records;
    every function threads the state it mutates. *)

From Stdlib Require Import ZArith NArith Lia Ascii String List.
From Stdlib.Strings Require Import Byte.
From stdpp Require Import base tactics option list strings gmap pretty.

Local Open Scope string_scope.
Local Open Scope list_scope.
Local Open Scope nat_scope.

(** ** Python string operations used by the sources *)
Module PyStr.

(** [str.lower()] on one character. *)
Definition lower_char (c : ascii) : ascii :=
  let n := nat_of_ascii c in
  if (65 <=? n)%nat && (n <=? 90)%nat then ascii_of_nat (n + 32) else c.

(** [s.lower()] *)
Fixpoint lower (s : string) : string :=
  match s with
  | EmptyString => EmptyString
  | String c s' => String (lower_char c) (lower s')
  end.

(** [s.startswith(p)] *)
Fixpoint startswith (s p : string) : bool :=
  match p, s with
  | EmptyString, _ => true
  | String _ _, EmptyString => false
  | String a p', String b s' => if Ascii.eqb a b then startswith s' p' else false
  end.

(** [s.endswith(p)] *)
Definition endswith (s p : string) : bool :=
  startswith (String.rev s) (String.rev p).

(** [sub in s] *)
Fixpoint contains (sub s : string) : bool :=
  startswith s sub ||
  match s with
  | EmptyString => false
  | String _ s' => contains sub s'
  end.

(** [s[n:]] for [0 <= n] *)
Fixpoint drop (n : nat) (s : string) : string :=
  match n, s with
  | O, _ => s
  | S _, EmptyString => EmptyString
  | S n', String _ s' => drop n' s'
  end.

(** [s[-n:]] for [0 < n]: the last [n] characters, all of [s] when it is
    shorter. *)
Definition last_chars (n : nat) (s : string) : string :=
  drop (String.length s - n) s.

(** [sep.join(l)] *)
Definition join (sep : string) (l : list string) : string :=
  String.concat sep l.

(** Truthiness of a [str]. *)
Definition truthy (s : string) : bool :=
  match s with EmptyString => false | _ => true end.

(** Truthiness of an [Optional[str]]. *)
Definition truthy_opt (o : option string) : bool :=
  match o with Some s => truthy s | None => false end.

(** The longest common prefix of two strings. *)
Fixpoint common2 (a b : string) : string :=
  match a, b with
  | String x a', String y b' =>
      if Ascii.eqb x y then String x (common2 a' b') else EmptyString
  | _, _ => EmptyString
  end.

(** [os.path.commonprefix(l)]: the longest string that is a prefix,
    character by character, of every element; [''] for the empty list. *)
Definition commonprefix (l : list string) : string :=
  match l with
  | [] => EmptyString
  | x :: xs => foldl common2 x xs
  end.

End PyStr.

(** ** The log buffer: [EnhancedExternalComfyUILauncher.log] and
    [get_recent_logs] *)
Module Logger.

(** The dictionary appended to [self.log_buffer]. *)
Record log_entry := LogEntry {
  timestamp : string;
  iso_timestamp : string;
  level : string;
  message : string;
  full_message : string
}.

(** The logging fields of the launcher object.  [stdout] collects what
    [print] wrote. *)
Record logger := Logger {
  log_buffer : list log_entry;
  max_log_buffer : nat;
  log_stats : gmap string nat;
  stdout : list string
}.

(** The state set up at the top of [__init__]. *)
Definition init : logger :=
  {| log_buffer := [];
     max_log_buffer := 200;
     log_stats := list_to_map
       [("info", 0); ("warning", 0); ("error", 0); ("success", 0); ("debug", 0)];
     stdout := [] |}.

Definition level_prefixes : list (string * string) :=
  [("info", "INFO"); ("warning", "WARN"); ("error", "ERROR");
   ("success", "SUCCESS"); ("debug", "DEBUG"); ("api", "API");
   ("restart", "RESTART")].

(** [level_prefixes.get(level, 'INFO')] *)
Definition level_prefix (lvl : string) : string :=
  default "INFO" ((list_to_map level_prefixes : gmap string string) !! lvl).

Definition mk_entry (ts iso msg lvl : string) : log_entry :=
  {| timestamp := ts;
     iso_timestamp := iso;
     level := lvl;
     message := msg;
     full_message := "[" +:+ ts +:+ "] [" +:+ level_prefix lvl +:+ "] " +:+ msg |}.

(** The counter a call at level [lvl] increments:
    [if level in self.log_stats: ... else: self.log_stats['info'] += 1]. *)
Definition counted_level (stats : gmap string nat) (lvl : string) : string :=
  if decide (is_Some (stats !! lvl)) then lvl else "info".

(** [self.log_stats[k] += 1].  The key ['info'] is present in every
    reachable state (see [LoggerFacts.log_stats_keys]), so the [KeyError]
    of the [else] branch cannot occur. *)
Definition bump (k : string) (stats : gmap string nat) : gmap string nat :=
  alter S k stats.

(** [self.log_buffer.append(e)] followed by
    [if len(self.log_buffer) > self.max_log_buffer: self.log_buffer.pop(0)]. *)
Definition push (cap : nat) (e : log_entry) (buf : list log_entry) : list log_entry :=
  let buf' := buf ++ [e] in
  if (cap <? length buf')%nat then drop 1 buf' else buf'.

(** [log(message, level)]; [ts] and [iso] are the two clock readings
    [time.strftime(...)] and [datetime.now().isoformat()].  The append to
    [watchdog.log] touches neither the buffer nor the counters (a failure
    there is caught and printed) and is left out. *)
Definition log (ts iso msg lvl : string) (st : logger) : logger :=
  let e := mk_entry ts iso msg lvl in
  {| log_buffer := push (max_log_buffer st) e (log_buffer st);
     max_log_buffer := max_log_buffer st;
     log_stats := bump (counted_level (log_stats st) lvl) (log_stats st);
     stdout := stdout st ++ [full_message e] |}.

(** One call of [log] with its clock readings. *)
Record call := Call {
  c_ts : string; c_iso : string; c_msg : string; c_level : string
}.

Definition entry_of (c : call) : log_entry :=
  mk_entry (c_ts c) (c_iso c) (c_msg c) (c_level c).

Definition log_call (st : logger) (c : call) : logger :=
  log (c_ts c) (c_iso c) (c_msg c) (c_level c) st.

(** A sequence of calls, first call first. *)
Definition log_all (cs : list call) (st : logger) : logger :=
  foldl log_call st cs.

(** [buf[-limit:]] for [0 < limit]. *)
Definition last_n {A} (n : nat) (l : list A) : list A :=
  drop (length l - n) l.

(** The dictionary returned by [get_recent_logs] (the fields that depend
    on the buffer and the counters). *)
Record recent_logs := RecentLogs {
  logs : list log_entry;
  total_count : nat;
  limit_used : Z;
  stats : gmap string nat;
  current_size : nat;
  max_size : nat
}.

Definition get_recent_logs (limit : Z) (st : logger) : recent_logs :=
  {| logs := if (0 <? limit)%Z then last_n (Z.to_nat limit) (log_buffer st)
             else log_buffer st;
     total_count := length (log_buffer st);
     limit_used := limit;
     stats := log_stats st;
     current_size := length (log_buffer st);
     max_size := max_log_buffer st |}.

(** Sum of the per-level counters of a [stats] dictionary. *)
Definition stats_total (m : gmap string nat) : nat :=
  map_fold (λ _ v acc, v + acc) 0 m.

End Logger.

(** ** The dual-protocol listener: [DualProtocolServer.get_request] *)
Module Listener.

(** The [ssl.SSLContext] created by [start_api_server]; [certfile] and
    [keyfile] are the paths it passes to [load_cert_chain]. *)
Record ssl_context := SslContext { certfile : string; keyfile : string }.

(** [start_api_server], the part that prepares [ssl_context], as the
    value handed to [DualProtocolServer]: [tls_keyfile] and
    [tls_certfile] are the launcher's fields, [path_exists] answers
    [Path.exists()] and [context_ok] tells whether
    [ssl.SSLContext(ssl.PROTOCOL_TLS_SERVER)] returned (it raises
    otherwise, which is caught with [ssl_context] still [None]).  The
    variable is assigned before [load_cert_chain] is called and the
    [except] clause does not reset it, so a chain that fails to load
    leaves the context in place. *)
Definition prepare_ssl_context (tls_keyfile tls_certfile : option string)
    (path_exists : string → bool) (context_ok : bool) : option ssl_context :=
  match tls_keyfile, tls_certfile with
  | Some key, Some cert =>
      if PyStr.truthy key && PyStr.truthy cert then
        if path_exists key && path_exists cert then
          if context_ok then Some {| certfile := cert; keyfile := key |} else None
        else None
      else None
  | _, _ => None
  end.

(** What the two calls into [ssl] do: both return, the constructor
    raises, or [load_cert_chain] raises. *)
Inductive ssl_calls :=
| ChainLoaded
| ContextRaises (msg : string)
| LoadRaises (msg : string).

Definition context_created (o : ssl_calls) : bool :=
  match o with
  | ContextRaises _ => false
  | _ => true
  end.

(** The call to [log] made by that part of [start_api_server], as
    (message, level); none when the TLS files are not configured. *)
Definition ssl_setup_log (tls_keyfile tls_certfile : option string)
    (path_exists : string → bool) (o : ssl_calls) : option (string * string) :=
  match tls_keyfile, tls_certfile with
  | Some key, Some cert =>
      if PyStr.truthy key && PyStr.truthy cert then
        if path_exists key && path_exists cert then
          match o with
          | ChainLoaded =>
              Some ("[SERVER] SSL logic initialized for Dual-Protocol support", "success")
          | ContextRaises msg | LoadRaises msg =>
              Some ("[ERROR] Failed to initialize SSL context: " +:+ msg
                    +:+ ". Falling back to HTTP only.", "error")
          end
        else
          Some ("[WARN] TLS files not found at specified paths. Falling back to HTTP only.",
                "warning")
      else None
  | _, _ => None
  end.

(** [protocol_desc], logged once the server is bound. *)
Definition protocol_desc (ctx : option ssl_context) : string :=
  match ctx with
  | Some _ => "Dual HTTP/HTTPS"
  | None => "HTTP"
  end.

(** What [newsock.recv(6, socket.MSG_PEEK)] does: it raises, or returns
    the bytes available (at most six, possibly none). *)
Inductive peek_result :=
| PeekRaises
| Peeked (peek_bytes : list Byte.byte).

(** What [ssl_context.wrap_socket(newsock, server_side=True)] does. *)
Inductive handshake_result := HandshakeOk | HandshakeRaises.

(** One accepted connection, as far as [get_request] can observe it. *)
Record connection := Connection {
  peek : peek_result;
  handshake : handshake_result
}.

(** The socket handed back to the server: [newsock] itself or the
    TLS-wrapped [ssl_sock]. *)
Inductive served := Plaintext | TlsWrapped.

(** The socket operations performed, in order. *)
Inductive action := Accept | Peek | WrapSocket.

(** [len(peek_bytes) > 0 and peek_bytes[0] == 0x16] *)
Definition is_tls_hello (peek_bytes : list Byte.byte) : bool :=
  match peek_bytes with
  | b :: _ => Byte.eqb b Byte.x16
  | [] => false
  end.

Definition get_request (ctx : option ssl_context) (c : connection)
    : served * list action :=
  match ctx with
  | None => (Plaintext, [Accept])
  | Some _ =>
      match peek c with
      | PeekRaises => (Plaintext, [Accept; Peek])
      | Peeked peek_bytes =>
          if is_tls_hello peek_bytes then
            match handshake c with
            | HandshakeOk => (TlsWrapped, [Accept; Peek; WrapSocket])
            | HandshakeRaises => (Plaintext, [Accept; Peek; WrapSocket])
            end
          else (Plaintext, [Accept; Peek])
      end
  end.

End Listener.

(** ** Process controller and restart orchestrator:
    [start_comfyui], [stop_comfyui], [restart_comfyui], [manual_restart] *)
Module Launcher.

(** What [wait(timeout=10)] on the worker does after [terminate()]. *)
Inductive wait_outcome :=
| Exits (after : N)
| TimeoutExpired.

(** A [subprocess.Popen] object, by what its methods answer:
    [exit_codes k] is the result of the [k]-th call of [poll()] on it
    ([None] while the process runs). *)
Record popen := Popen {
  pid : Z;
  exit_codes : nat → option Z;
  terminate_raises : option string;
  wait_10 : wait_outcome;
  kill_wait : N
}.

(** The value of [self.comfyui_process] when it is not [None]: the object
    and the number of [poll()] calls made on it. *)
Record handle := Handle { h_proc : popen; h_polls : nat }.

Inductive spawn_result :=
| Spawned (p : popen)
| SpawnRaises (msg : string).

(** Reading [comfyui_output.log] back after an immediate exit. *)
Inductive read_result :=
| LogMissing
| LogUnreadable (msg : string)
| LogText (output : string).

(** The operating system, the clock and the text formatting the launcher
    relies on.  [probe k] answers the [k]-th call of
    [is_comfyui_responsive]: its result and how long it took. *)
Record env := Env {
  os_name : string;
  strftime : N → string;
  isoformat : N → string;
  fmt_secs : nat → N → string;
  repr_list : list string → string;
  output_log_path : string;
  probe : nat → bool * N;
  open_output_log : option string;
  spawn : list string → string → spawn_result;
  read_output_log : read_result;
  process_table : list (Z * list string);
  orphan_stops : Z → bool * N
}.

(** Operating-system actions, in the order they are performed. *)
Inductive effect :=
| PopenCall (cmd : list string) (cwd : string)
| Terminate (p : Z)
| Kill (p : Z)
| TerminateOrphan (p : Z).

Record launcher := LauncherState {
  logger : Logger.logger;
  python_executable : string;
  comfyui_args : list string;
  comfyui_dir : string;
  working_directory : string;
  comfyui_port : Z;
  comfyui_process : option handle;
  clock : N;
  probes : nat;
  effects : list effect
}.

(** Methods of the launcher: state transformers with a result. *)
Definition M (A : Type) : Type := launcher → A * launcher.

#[global] Instance M_ret : MRet M := λ A x s, (x, s).
#[global] Instance M_bind : MBind M :=
  λ A B f m s, let '(x, s') := m s in f x s'.

Definition get : M launcher := λ s, (s, s).

Definition set_logger (l : Logger.logger) (s : launcher) : launcher :=
  {| logger := l;
     python_executable := python_executable s;
     comfyui_args := comfyui_args s;
     comfyui_dir := comfyui_dir s;
     working_directory := working_directory s;
     comfyui_port := comfyui_port s;
     comfyui_process := comfyui_process s;
     clock := clock s;
     probes := probes s;
     effects := effects s |}.

Definition set_process (h : option handle) (s : launcher) : launcher :=
  {| logger := logger s;
     python_executable := python_executable s;
     comfyui_args := comfyui_args s;
     comfyui_dir := comfyui_dir s;
     working_directory := working_directory s;
     comfyui_port := comfyui_port s;
     comfyui_process := h;
     clock := clock s;
     probes := probes s;
     effects := effects s |}.

Definition set_clock (t : N) (s : launcher) : launcher :=
  {| logger := logger s;
     python_executable := python_executable s;
     comfyui_args := comfyui_args s;
     comfyui_dir := comfyui_dir s;
     working_directory := working_directory s;
     comfyui_port := comfyui_port s;
     comfyui_process := comfyui_process s;
     clock := t;
     probes := probes s;
     effects := effects s |}.

Definition set_probes (k : nat) (s : launcher) : launcher :=
  {| logger := logger s;
     python_executable := python_executable s;
     comfyui_args := comfyui_args s;
     comfyui_dir := comfyui_dir s;
     working_directory := working_directory s;
     comfyui_port := comfyui_port s;
     comfyui_process := comfyui_process s;
     clock := clock s;
     probes := k;
     effects := effects s |}.

Definition add_effect (e : effect) (s : launcher) : launcher :=
  {| logger := logger s;
     python_executable := python_executable s;
     comfyui_args := comfyui_args s;
     comfyui_dir := comfyui_dir s;
     working_directory := working_directory s;
     comfyui_port := comfyui_port s;
     comfyui_process := comfyui_process s;
     clock := clock s;
     probes := probes s;
     effects := effects s ++ [e] |}.

(** [str(b)] for a [bool]. *)
Definition py_bool (b : bool) : string := if b then "True" else "False".

Section WithEnv.
Variable E : env.

(** [self.log(message, level)] at the current clock reading. *)
Definition llog (msg lvl : string) (s : launcher) : launcher :=
  set_logger
    (Logger.log (strftime E (clock s)) (isoformat E (clock s)) msg lvl (logger s)) s.

Definition log (msg lvl : string) : M unit := λ s, (tt, llog msg lvl s).

(** [time.time()] *)
Definition now : M N := λ s, (clock s, s).

(** [time.sleep(d)] *)
Definition sleep (d : N) : M unit := λ s, (tt, set_clock (clock s + d)%N s).

Definition emit (e : effect) : M unit := λ s, (tt, add_effect e s).

Definition assign_process (h : option handle) : M unit :=
  λ s, (tt, set_process h s).

(** [is_comfyui_responsive()]: every exception is caught and counts as
    not responsive, so the call is total. *)
Definition is_comfyui_responsive : M bool := λ s,
  let '(r, d) := probe E (probes s) in
  (r, set_probes (S (probes s)) (set_clock (clock s + d)%N s)).

(** [self.comfyui_process.poll()] on a handle that is set. *)
Definition poll (h : handle) : M (option Z) := λ s,
  (exit_codes (h_proc h) (h_polls h),
   set_process (Some {| h_proc := h_proc h; h_polls := S (h_polls h) |}) s).

(** [self.comfyui_process and self.comfyui_process.poll() is not None]:
    the exit code found, if any. *)
Definition poll_exited : M (option Z) :=
  s ← get;
  match comfyui_process s with
  | Some h => poll h
  | None => mret None
  end.

(** [self.comfyui_process and self.comfyui_process.poll() is None] *)
Definition poll_running : M bool :=
  s ← get;
  match comfyui_process s with
  | Some h => c ← poll h; mret (bool_decide (c = None))
  | None => mret false
  end.

(** [any('watchdog' in str(arg).lower() for arg in self.comfyui_args)] *)
Definition mentions_watchdog (args : list string) : bool :=
  existsb (λ arg, PyStr.contains "watchdog" (PyStr.lower arg)) args.

(** [cmd = [self.python_executable] + self.comfyui_args] *)
Definition start_cmd (s : launcher) : list string :=
  python_executable s :: comfyui_args s.

(** The [cwd] given to [Popen]: [working_directory] on Windows,
    [comfyui_dir] elsewhere. *)
Definition start_cwd (s : launcher) : string :=
  if String.eqb (os_name E) "nt" then working_directory s else comfyui_dir s.

Definition start_comfyui : M bool :=
  log "[START] Starting ComfyUI process..." "info";;
  s ← get;
  let cmd := start_cmd s in
  if mentions_watchdog (comfyui_args s) then
    log "[ERROR] WARNING: Detected watchdog script in args - preventing recursive spawn" "info";;
    log ("   Problematic args: " +:+ repr_list E (comfyui_args s)) "info";;
    mret false
  else
    log ("   Command: " +:+ PyStr.join " " cmd) "info";;
    log ("   Working Directory: " +:+ working_directory s) "info";;
    let cwd := start_cwd s in
    match open_output_log E with
    | Some msg =>
        log ("[ERROR] Failed to start ComfyUI: " +:+ msg) "info";;
        mret false
    | None =>
        emit (PopenCall cmd cwd);;
        match spawn E cmd cwd with
        | SpawnRaises msg =>
            log ("[ERROR] Failed to start ComfyUI: " +:+ msg) "info";;
            mret false
        | Spawned p =>
            assign_process (Some {| h_proc := p; h_polls := 0 |});;
            log ("ComfyUI output will be logged to: " +:+ output_log_path E) "debug";;
            log ("[SUCCESS] ComfyUI process started (PID: " +:+ pretty (pid p) +:+ ")") "info";;
            mret true
        end
    end.

(** [find_comfyui_process()]: the first process whose command line
    mentions [main.py] and the worker's port. *)
Definition find_comfyui_process (port : Z) : option Z :=
  fst <$> List.find
    (λ pr : Z * list string,
       existsb (PyStr.contains "main.py") pr.2 &&
       existsb (PyStr.contains (pretty port)) pr.2)
    (process_table E).

(** The [try] body of [stop_comfyui], up to the point where
    [terminate()] may raise: [Some msg] is the exception raised. *)
Definition stop_tracked : M (option string) :=
  s ← get;
  match comfyui_process s with
  | Some h =>
      c ← poll h;
      match c with
      | None =>
          log ("[STOP] Stopping active ComfyUI process (PID: "
               +:+ pretty (pid (h_proc h)) +:+ ")...") "info";;
          emit (Terminate (pid (h_proc h)));;
          match terminate_raises (h_proc h) with
          | Some msg => mret (Some msg)
          | None =>
              match wait_10 (h_proc h) with
              | Exits d =>
                  sleep d;;
                  log "[SUCCESS] ComfyUI process stopped gracefully" "info"
              | TimeoutExpired =>
                  sleep 10000;;
                  log "[WARN] Force killing ComfyUI process..." "info";;
                  emit (Kill (pid (h_proc h)));;
                  sleep (kill_wait (h_proc h));;
                  log "[KILL] ComfyUI process force killed" "info"
              end;;
              assign_process None;;
              mret None
          end
      | Some _ =>
          log ("[STOP] ComfyUI process was already stopped (PID: "
               +:+ pretty (pid (h_proc h)) +:+ ")") "info";;
          assign_process None;;
          mret None
      end
  | None =>
      log "[STOP] No ComfyUI process to stop (already stopped or never started)" "info";;
      mret None
  end.

Definition stop_comfyui : M bool :=
  raised ← stop_tracked;
  match raised with
  | Some msg =>
      log ("[ERROR] Error stopping ComfyUI: " +:+ msg) "info";;
      assign_process None;;
      mret false
  | None =>
      s ← get;
      match find_comfyui_process (comfyui_port s) with
      | Some orphan =>
          log ("[STOP] Found orphaned ComfyUI process (PID: "
               +:+ pretty orphan +:+ "), terminating...") "info";;
          emit (TerminateOrphan orphan);;
          let '(ok, d) := orphan_stops E orphan in
          sleep d;;
          (if ok : bool then log "[SUCCESS] Orphaned ComfyUI process terminated" "info"
           else log "[WARN] Could not terminate orphaned process" "info");;
          mret true
      | None => mret true
      end
  end.

(** How the wait-for-responsive loop of [restart_comfyui] is left. *)
Inductive loop_exit :=
| Returned (result : bool)
| Exhausted
| OutOfFuel.

Definition max_wait : N := 45000.

(** [while time.time() - wait_start < max_wait: ...]; every turn sleeps
    two seconds, so [max_polls] turns always suffice
    (see [RestartFacts.wait_loop_total]). *)
Fixpoint wait_loop (fuel : nat) (wait_start restart_start_time : N) : M loop_exit :=
  t ← now;
  if (t - wait_start <? max_wait)%N then
    match fuel with
    | O => mret OutOfFuel
    | S fuel' =>
        sleep 2000;;
        died ← poll_exited;
        match died with
        | Some code =>
            log ("ComfyUI process died during startup (exit code: "
                 +:+ pretty code +:+ ")") "error";;
            mret (Returned false)
        | None =>
            responsive ← is_comfyui_responsive;
            if responsive : bool then
              t1 ← now;
              log ("ComfyUI is now responsive! (response in "
                   +:+ fmt_secs E 2 (t1 - wait_start) +:+ "s, total restart "
                   +:+ fmt_secs E 2 (t1 - restart_start_time) +:+ "s)") "success";;
              mret (Returned true)
            else
              t1 ← now;
              log ("Still waiting for response... ("
                   +:+ fmt_secs E 1 (t1 - wait_start) +:+ "s/45s)") "debug";;
              wait_loop fuel' wait_start restart_start_time
        end
    end
  else mret Exhausted.

Definition max_polls : nat := 23.

(** The [except]-free tail of [restart_comfyui] after the immediate
    exit was found: look at the worker's output log. *)
Definition report_output_log : M unit :=
  match read_output_log E with
  | LogText output =>
      if PyStr.truthy output then
        log ("ComfyUI output (last 500 chars): " +:+ PyStr.last_chars 500 output) "error"
      else log "ComfyUI output log is empty" "error"
  | LogMissing => log "ComfyUI output log file not found" "error"
  | LogUnreadable msg => log ("Failed to read ComfyUI output log: " +:+ msg) "error"
  end.

(** [restart_comfyui], the branch [if success:] after [start_comfyui]. *)
Definition confirm_started (restart_start_time start_duration : N) : M (option bool) :=
  log ("Process start completed in " +:+ fmt_secs E 2 start_duration +:+ "s") "success";;
  sleep 2000;;
  exited ← poll_exited;
  match exited with
  | Some code =>
      log ("ComfyUI process exited immediately with code: " +:+ pretty code) "error";;
      report_output_log;;
      mret (Some false)
  | None =>
      log "Waiting for ComfyUI to become responsive..." "restart";;
      wait_start ← now;
      out ← wait_loop max_polls wait_start restart_start_time;
      match out with
      | Returned result => mret (Some result)
      | OutOfFuel => mret None
      | Exhausted =>
          t ← now;
          log ("Process started but not responsive after 45s (total restart time: "
               +:+ fmt_secs E 2 (t - restart_start_time) +:+ "s)") "warning";;
          running ← poll_running;
          if running : bool then
            log "ComfyUI process is still running - may need more time to load" "info";;
            mret (Some true)
          else
            log "ComfyUI process has stopped - restart failed" "error";;
            mret (Some false)
      end
  end.

(** [restart_comfyui] up to and including the call of [start_comfyui];
    returns [restart_start_time], [success] and [start_duration]. *)
Definition stop_and_start : M (N * bool * N) :=
  restart_start_time ← now;
  log "Manual restart sequence initiated" "restart";;
  current_responsive ← is_comfyui_responsive;
  log ("Current ComfyUI status - Responsive: " +:+ py_bool current_responsive) "restart";;
  s ← get;
  match comfyui_process s with
  | Some h =>
      c ← poll h;
      let process_running := bool_decide (c = None) in
      let pid_text := if process_running then pretty (pid (h_proc h)) else "None" in
      log ("Current process status - Running: " +:+ py_bool process_running
           +:+ ", PID: " +:+ pid_text) "restart"
  | None => log "No tracked ComfyUI process found" "restart"
  end;;
  log "Step 1/3: Stopping existing ComfyUI process" "restart";;
  stop_start_time ← now;
  stop_success ← stop_comfyui;
  t ← now;
  let stop_duration := (t - stop_start_time)%N in
  (if stop_success : bool then
     log ("Process stop completed successfully in "
          +:+ fmt_secs E 2 stop_duration +:+ "s") "success"
   else
     log ("Process stop had issues but continuing (took "
          +:+ fmt_secs E 2 stop_duration +:+ "s)") "warning");;
  log "Step 2/3: Waiting for clean shutdown..." "restart";;
  sleep 3000;;
  log "Step 3/3: Starting new ComfyUI process" "restart";;
  log "Configuration check:" "debug";;
  s ← get;
  log ("  Python: " +:+ python_executable s) "debug";;
  log ("  ComfyUI Dir: " +:+ comfyui_dir s) "debug";;
  log ("  Working Dir: " +:+ working_directory s) "debug";;
  log ("  Args: " +:+ PyStr.join " " (comfyui_args s)) "debug";;
  log ("  Port: " +:+ pretty (comfyui_port s)) "debug";;
  start_time ← now;
  success ← start_comfyui;
  t ← now;
  mret (restart_start_time, success, (t - start_time)%N).

(** [restart_comfyui()]; [None] only if the wait loop ran out of fuel,
    which does not happen. *)
Definition restart_comfyui : M (option bool) :=
  '(restart_start_time, success, start_duration) ← stop_and_start;
  if success : bool then
    confirm_started restart_start_time start_duration
  else
    t ← now;
    log ("Failed to start new process (total attempt time: "
         +:+ fmt_secs E 2 (t - restart_start_time) +:+ "s)") "error";;
    mret (Some false).


End WithEnv.

End Launcher.

(** ** The extension directory as a tree: files, directories and the
    [pathlib] / [shutil] / [os] / [zipfile] operations the sources use *)
Module FS.

(** A plain file with its bytes and modification time, or a directory
    with its entries in the order [iterdir] lists them. *)
#[local] Unset Elimination Schemes.
Inductive node :=
| File (data : string) (mtime : nat)
| Dir (entries : list (string * node)).
#[local] Set Elimination Schemes.

(** A path below the extension directory, one component per element. *)
Definition path := list string.

(** What the operations raise. *)
Inductive exn :=
| FileNotFoundError (p : path)
| NotADirectoryError (p : path)
| IsADirectoryError (p : path)
| FileExistsError (p : path)
| SameFileError (p : path)
| ShutilError (msg : string)
| ValueError (msg : string)
| RequestException (msg : string)
| BadZipFile (msg : string).

Inductive res (A : Type) :=
| Ok (a : A)
| Raise (e : exn).
Arguments Ok {A} a.
Arguments Raise {A} e.

(** [str(e)]; for operating-system errors the text is the error name and
    the path. *)
Definition str_exn (e : exn) : string :=
  match e with
  | FileNotFoundError p => "No such file or directory: " +:+ String.concat "/" p
  | NotADirectoryError p => "Not a directory: " +:+ String.concat "/" p
  | IsADirectoryError p => "Is a directory: " +:+ String.concat "/" p
  | FileExistsError p => "File exists: " +:+ String.concat "/" p
  | SameFileError p => String.concat "/" p +:+ " and itself are the same file"
  | ShutilError msg => msg
  | ValueError msg => msg
  | RequestException msg => msg
  | BadZipFile msg => msg
  end.

Fixpoint assoc (name : string) (es : list (string * node)) : option node :=
  match es with
  | [] => None
  | (n, x) :: es' => if String.eqb n name then Some x else assoc name es'
  end.

(** Replace the entry [name], or add it at the end. *)
Fixpoint assoc_set (name : string) (v : node) (es : list (string * node))
    : list (string * node) :=
  match es with
  | [] => [(name, v)]
  | (n, x) :: es' =>
      if String.eqb n name then (n, v) :: es' else (n, x) :: assoc_set name v es'
  end.

Fixpoint assoc_del (name : string) (es : list (string * node))
    : list (string * node) :=
  match es with
  | [] => []
  | (n, x) :: es' =>
      if String.eqb n name then assoc_del name es' else (n, x) :: assoc_del name es'
  end.

(** The node at [p], if there is one. *)
Fixpoint get (p : path) (n : node) : option node :=
  match p with
  | [] => Some n
  | name :: p' =>
      match n with
      | Dir es =>
          match assoc name es with
          | Some c => get p' c
          | None => None
          end
      | File _ _ => None
      end
  end.

(** Put [v] at [p]; the parent of [p] has to be a directory. *)
Fixpoint put (p : path) (v : node) (n : node) : option node :=
  match p with
  | [] => Some v
  | name :: p' =>
      match n with
      | Dir es =>
          match p' with
          | [] => Some (Dir (assoc_set name v es))
          | _ =>
              match assoc name es with
              | Some c =>
                  match put p' v c with
                  | Some c' => Some (Dir (assoc_set name c' es))
                  | None => None
                  end
              | None => None
              end
          end
      | File _ _ => None
      end
  end.

(** Take the node at [p] away. *)
Fixpoint remove (p : path) (n : node) : option node :=
  match p with
  | [] => None
  | name :: p' =>
      match n with
      | Dir es =>
          match p' with
          | [] =>
              match assoc name es with
              | Some _ => Some (Dir (assoc_del name es))
              | None => None
              end
          | _ =>
              match assoc name es with
              | Some c =>
                  match remove p' c with
                  | Some c' => Some (Dir (assoc_set name c' es))
                  | None => None
                  end
              | None => None
              end
          end
      | File _ _ => None
      end
  end.

(** [Path.exists()] *)
Definition exists_ (p : path) (fs : node) : bool :=
  match get p fs with Some _ => true | None => false end.

(** [Path.is_dir()] *)
Definition is_dir (p : path) (fs : node) : bool :=
  match get p fs with Some (Dir _) => true | _ => false end.

(** [Path.is_file()] *)
Definition is_file (p : path) (fs : node) : bool :=
  match get p fs with Some (File _ _) => true | _ => false end.

(** [Path.iterdir()], as the list of entry names. *)
Definition iterdir (p : path) (fs : node) : res (list string) :=
  match get p fs with
  | Some (Dir es) => Ok (es.*1)
  | Some (File _ _) => Raise (NotADirectoryError p)
  | None => Raise (FileNotFoundError p)
  end.

(** The parent of a path and its last component. *)
Definition parent (p : path) : path := removelast p.
Definition basename (p : path) : string := List.last p "".

Definition put_or (e : exn) (p : path) (v : node) (fs : node) : res node :=
  match put p v fs with
  | Some fs' => Ok fs'
  | None => Raise e
  end.

(** [shutil.rmtree(p)] where the removal, once begun, goes through: the
    tree is removed whole.  A removal that the operating system stops
    part-way is not represented. *)
Definition rmtree (p : path) (fs : node) : res node :=
  match get p fs with
  | Some (Dir _) =>
      match remove p fs with
      | Some fs' => Ok fs'
      | None => Raise (FileNotFoundError p)
      end
  | Some (File _ _) => Raise (NotADirectoryError p)
  | None => Raise (FileNotFoundError p)
  end.

(** [os.remove(p)] *)
Definition os_remove (p : path) (fs : node) : res node :=
  match get p fs with
  | Some (File _ _) =>
      match remove p fs with
      | Some fs' => Ok fs'
      | None => Raise (FileNotFoundError p)
      end
  | Some (Dir _) => Raise (IsADirectoryError p)
  | None => Raise (FileNotFoundError p)
  end.

(** [os.makedirs(p, exist_ok=True)], which is also
    [Path.mkdir(parents=True, exist_ok=True)]: [done] is the part of the
    path already walked. *)
Fixpoint makedirs_from (done : path) (todo : path) (fs : node) : res node :=
  match todo with
  | [] => Ok fs
  | name :: todo' =>
      let here := done ++ [name] in
      match get here fs with
      | Some (Dir _) => makedirs_from here todo' fs
      | Some (File _ _) =>
          match todo' with
          | [] => Raise (FileExistsError here)
          | _ => Raise (NotADirectoryError here)
          end
      | None =>
          match put here (Dir []) fs with
          | Some fs' => makedirs_from here todo' fs'
          | None => Raise (NotADirectoryError done)
          end
      end
  end.

Definition makedirs (p : path) (fs : node) : res node := makedirs_from [] p fs.

(** [open(p, 'wb')] followed by writing [data], at time [now]. *)
Definition write_file (p : path) (data : string) (now : nat) (fs : node) : res node :=
  match get p fs with
  | Some (Dir _) => Raise (IsADirectoryError p)
  | _ => put_or (FileNotFoundError p) p (File data now) fs
  end.

(** [shutil.copy2(src, dst)]: bytes and metadata; into [dst] when [dst]
    is a directory. *)
Definition copy2 (src dst : path) (fs : node) : res node :=
  let dst' := if is_dir dst fs then dst ++ [basename src] else dst in
  match get src fs with
  | None => Raise (FileNotFoundError src)
  | Some (Dir _) => Raise (IsADirectoryError src)
  | Some (File data mtime) =>
      if decide (src = dst') then Raise (SameFileError src)
      else
        match get dst' fs with
        | Some (Dir _) => Raise (IsADirectoryError dst')
        | _ => put_or (FileNotFoundError dst') dst' (File data mtime) fs
        end
  end.

(** [shutil.copytree(src, dst)]: [dst] must not exist; missing parents
    are made. *)
Definition copytree (src dst : path) (fs : node) : res node :=
  match get src fs with
  | None => Raise (FileNotFoundError src)
  | Some (File _ _) => Raise (NotADirectoryError src)
  | Some (Dir es) =>
      match get dst fs with
      | Some _ => Raise (FileExistsError dst)
      | None =>
          match makedirs (parent dst) fs with
          | Raise e => Raise e
          | Ok fs1 => put_or (FileNotFoundError dst) dst (Dir es) fs1
          end
      end
  end.

(** [shutil.move(src, dst)] where [dst] is an existing directory: the
    node goes to [dst/basename(src)], which must not exist. *)
Definition move_into (src dst : path) (fs : node) : res node :=
  let real_dst := dst ++ [basename src] in
  match get src fs with
  | None => Raise (FileNotFoundError src)
  | Some v =>
      if exists_ real_dst fs then
        Raise (ShutilError ("Destination path '" +:+ String.concat "/" real_dst
                            +:+ "' already exists"))
      else
        match remove src fs with
        | None => Raise (FileNotFoundError src)
        | Some fs1 => put_or (FileNotFoundError real_dst) real_dst v fs1
        end
  end.

(** [s.split(sep)] for a one-character separator. *)
Fixpoint split_on (sep : ascii) (s : string) : list string :=
  match s with
  | EmptyString => [EmptyString]
  | String c s' =>
      if Ascii.eqb c sep then EmptyString :: split_on sep s'
      else
        match split_on sep s' with
        | x :: xs => String c x :: xs
        | [] => [String c EmptyString]
        end
  end.

(** One member of a zip archive: its name as [namelist()] gives it (a
    directory's name ends with a slash) and its bytes. *)
Record zip_member := ZipMember { zname : string; zdata : string }.

(** The components of a member name that [ZipFile.extract] keeps: empty
    ones, [.] and [..] are dropped. *)
Definition member_path (name : string) : path :=
  filter (λ c, c ≠ "" ∧ c ≠ "." ∧ c ≠ "..") (split_on "/" name).

Definition member_is_dir (name : string) : bool := PyStr.endswith name "/".

(** [ZipFile._extract_member(member, target)] *)
Definition extract_member (target : path) (now : nat) (m : zip_member)
    (fs : node) : res node :=
  let targetpath := target ++ member_path (zname m) in
  let upperdirs := parent targetpath in
  match (if exists_ upperdirs fs then Ok fs else makedirs upperdirs fs) with
  | Raise e => Raise e
  | Ok fs1 =>
      if member_is_dir (zname m) then
        if is_dir targetpath fs1 then Ok fs1
        else
          match get targetpath fs1 with
          | Some _ => Raise (FileExistsError targetpath)
          | None => put_or (FileNotFoundError targetpath) targetpath (Dir []) fs1
          end
      else write_file targetpath (zdata m) now fs1
  end.

(** [ZipFile.extractall(target)] *)
Fixpoint extractall (target : path) (now : nat) (ms : list zip_member)
    (fs : node) : res node :=
  match ms with
  | [] => Ok fs
  | m :: ms' =>
      match extract_member target now m fs with
      | Raise e => Raise e
      | Ok fs1 => extractall target now ms' fs1
      end
  end.

(** [base / s] for a relative [s] without [..]: [pathlib] drops empty
    and [.] components.  [None] when [s] is absolute or climbs with [..],
    which leaves the extension directory. *)
Definition join_rel (base : path) (s : string) : option path :=
  let comps := split_on "/" s in
  if PyStr.startswith s "/" then None
  else if existsb (String.eqb "..") comps then None
  else Some (base ++ filter (λ c, c ≠ "" ∧ c ≠ ".") comps).

End FS.

(** ** The update service: [UpdateService] of [update_service.py] *)
Module Updater.
Import FS.

(** The [content-length] header of the response. *)
Inductive header :=
| NoHeader
| Length (n : Z)
| Malformed (text : string).

(** A streamed HTTP response: the header, the chunks [iter_content]
    yields, and the exception it raises after them, if any. *)
Record response := Response {
  content_length : header;
  chunks : list string;
  stream_error : option string
}.

(** What lies outside the service: the network, the hash function, the
    float arithmetic of the progress figure, the zip and JSON decoders
    and the time stamped on written files. *)
Record env := Env {
  http_get : string → string + response;
  sha256_hex : string → string;
  percent : Z → Z → Z;
  unzip : string → option (list zip_member);
  json_version : string → option (option string);
  now : nat
}.

(** The fields of the service, the extension directory [fs], the calls
    made to [logger_callback] as (message, level) pairs and the URLs
    requested. *)
Record service := Service {
  is_downloading : bool;
  download_progress : Z;
  last_error : option string;
  fs : node;
  logged : list (string * string);
  requested : list string
}.

Definition staging_dir : path := [".update_staging"].
Definition version_file : path := ["version.json"].
Definition temp_zip : path := staging_dir ++ ["update.zip"].
Definition temp_extract_dir : path := staging_dir ++ ["_temp_extract"].

Definition set_downloading (b : bool) (s : service) : service :=
  {| is_downloading := b; download_progress := download_progress s;
     last_error := last_error s; fs := fs s; logged := logged s;
     requested := requested s |}.

Definition set_progress (n : Z) (s : service) : service :=
  {| is_downloading := is_downloading s; download_progress := n;
     last_error := last_error s; fs := fs s; logged := logged s;
     requested := requested s |}.

Definition set_error (e : option string) (s : service) : service :=
  {| is_downloading := is_downloading s; download_progress := download_progress s;
     last_error := e; fs := fs s; logged := logged s;
     requested := requested s |}.

Definition set_fs (t : node) (s : service) : service :=
  {| is_downloading := is_downloading s; download_progress := download_progress s;
     last_error := last_error s; fs := t; logged := logged s;
     requested := requested s |}.

Definition add_log (msg lvl : string) (s : service) : service :=
  {| is_downloading := is_downloading s; download_progress := download_progress s;
     last_error := last_error s; fs := fs s; logged := logged s ++ [(msg, lvl)];
     requested := requested s |}.

Definition add_request (url : string) (s : service) : service :=
  {| is_downloading := is_downloading s; download_progress := download_progress s;
     last_error := last_error s; fs := fs s; logged := logged s;
     requested := requested s ++ [url] |}.

(** The state after [__init__]. *)
Definition init (t : node) : service :=
  {| is_downloading := false; download_progress := 0; last_error := None;
     fs := t; logged := []; requested := [] |}.

(** A run of the service: the current state and every state it went
    through, oldest first; another thread calling [get_update_status]
    sees one of these. *)
Definition T (A : Type) : Type :=
  service * list service → res A * (service * list service).

#[global] Instance T_ret : MRet T := λ A x σ, (Ok x, σ).
#[global] Instance T_bind : MBind T :=
  λ A B f m σ,
    match m σ with
    | (Ok x, σ') => f x σ'
    | (Raise e, σ') => (Raise e, σ')
    end.

(** One assignment or file operation. *)
Definition update (f : service → service) : T unit :=
  λ '(s, h), (Ok tt, (f s, h ++ [f s])).

Definition read : T service := λ '(s, h), (Ok s, (s, h)).

Definition raise {A} (e : exn) : T A := λ σ, (Raise e, σ).

(** A file operation on the extension directory. *)
Definition fs_op (op : node → res node) : T unit :=
  s ← read;
  match op (fs s) with
  | Ok t => update (set_fs t)
  | Raise e => raise e
  end.

Definition logger (msg lvl : string) : T unit := update (add_log msg lvl).

Definition nl : string := String (ascii_of_nat 10) "".

(** The bytes a response delivers: its chunks, one after the other. *)
Definition body (resp : response) : string :=
  foldr String.append "" (chunks resp).

(** The text of the [ValueError] raised on a hash mismatch. *)
Definition integrity_message (expected_hash calculated_hash : string) : string :=
  "Integrity check failed! " +:+ nl +:+ "Expected: " +:+ expected_hash
  +:+ nl +:+ "Actual: " +:+ calculated_hash.

Section WithEnv.
Variable E : env.

(** [get_current_version()] *)
Definition get_current_version (s : service) : string :=
  match get version_file (fs s) with
  | Some (File data _) =>
      match json_version E data with
      | Some (Some v) => v
      | Some None => "0.0.0"
      | None => "0.0.0"
      end
  | _ => "0.0.0"
  end.

(** [staging_dir.exists() and any(staging_dir.iterdir())] *)
Definition staging_populated (t : node) : res bool :=
  if exists_ staging_dir t then
    match iterdir staging_dir t with
    | Ok names => Ok (bool_decide (names ≠ []))
    | Raise e => Raise e
    end
  else Ok false.

(** The dictionary returned by [get_update_status]. *)
Record status_report := StatusReport {
  status : string;
  r_is_downloading : bool;
  progress : Z;
  r_last_error : option string;
  staging_ready : bool;
  current_version : string
}.

(** The [status] computed at the top of [get_update_status]. *)
Definition derive_status (s : service) : res string :=
  if PyStr.truthy_opt (last_error s) then Ok "error"
  else if is_downloading s then Ok "downloading"
  else
    match staging_populated (fs s) with
    | Raise e => Raise e
    | Ok true =>
        if exists_ temp_zip (fs s) then Ok "downloading" else Ok "ready_to_restart"
    | Ok false => Ok "idle"
    end.

Definition get_update_status (s : service) : res status_report :=
  match derive_status s with
  | Raise e => Raise e
  | Ok st =>
      match staging_populated (fs s) with
      | Raise e => Raise e
      | Ok ready =>
          Ok {| status := st;
                r_is_downloading := is_downloading s;
                progress := download_progress s;
                r_last_error := last_error s;
                staging_ready := ready;
                current_version := get_current_version s |}
      end
  end.

(** The streaming loop: every non-empty chunk is appended to the file,
    counted, and the progress is refreshed when the total is known. *)
Fixpoint receive (total_size : Z) (downloaded : Z) (written : string)
    (cs : list string) : T string :=
  match cs with
  | [] => mret written
  | chunk :: cs' =>
      if PyStr.truthy chunk then
        let written' := written +:+ chunk in
        let downloaded' := (downloaded + Z.of_nat (String.length chunk))%Z in
        fs_op (write_file temp_zip written' (now E));;
        (if (0 <? total_size)%Z
         then update (set_progress (percent E downloaded' total_size))
         else mret tt);;
        receive total_size downloaded' written' cs'
      else receive total_size downloaded written cs'
  end.

(** [for item in actual_root.iterdir(): shutil.move(str(item), str(staging_dir))] *)
Fixpoint move_up (actual_root : path) (names : list string) : T unit :=
  match names with
  | [] => mret tt
  | name :: names' =>
      fs_op (move_into (actual_root ++ [name]) staging_dir);;
      move_up actual_root names'
  end.

(** How the body of [_download_task] ends: it completes, it raises, or it
    reaches a path outside the extension directory. *)
Inductive ending :=
| Completed
| Failed (e : exn)
| LeftTree.

(** Step 4 of [_download_task]: the "smart extraction". *)
Definition extract (ms : list zip_member) : T bool :=
  let file_list := zname <$> ms in
  let root_folder := PyStr.commonprefix file_list in
  if PyStr.truthy root_folder &&
     negb (existsb (λ f, negb (PyStr.startswith f root_folder)) file_list)
  then
    fs_op (extractall temp_extract_dir (now E) ms);;
    match join_rel temp_extract_dir root_folder with
    | None => mret false
    | Some actual_root =>
        s ← read;
        match iterdir actual_root (fs s) with
        | Raise e => raise e
        | Ok names =>
            move_up actual_root names;;
            fs_op (rmtree temp_extract_dir);;
            mret true
        end
    end
  else
    fs_op (extractall staging_dir (now E) ms);;
    mret true.

(** The [try] block of [_download_task]; [false] when the extraction
    left the extension directory. *)
Definition download_body (asset_url : string) (expected_hash : option string) : T bool :=
  logger ("Starting update download from " +:+ asset_url) "info";;
  (match expected_hash with
   | Some h =>
       if PyStr.truthy h then logger ("Expected SHA256: " +:+ h) "debug" else mret tt
   | None => mret tt
   end);;
  s ← read;
  (if exists_ staging_dir (fs s) then fs_op (rmtree staging_dir) else mret tt);;
  fs_op (makedirs staging_dir);;
  update (add_request asset_url);;
  match http_get E asset_url with
  | inl msg => raise (RequestException msg)
  | inr resp =>
      total_size ← match content_length resp with
                   | NoHeader => mret 0%Z
                   | Length n => mret n
                   | Malformed text =>
                       raise (ValueError ("invalid literal for int() with base 10: '"
                                          +:+ text +:+ "'"))
                   end;
      fs_op (write_file temp_zip "" (now E));;
      payload ← receive total_size 0 "" (chunks resp);
      (match stream_error resp with
       | Some msg => raise (RequestException msg)
       | None => mret tt
       end);;
      (match expected_hash with
       | Some h =>
           if PyStr.truthy h then
             let calculated_hash := sha256_hex E payload in
             if String.eqb (PyStr.lower calculated_hash) (PyStr.lower h) then
               logger "Integrity check passed." "success"
             else
               raise (ValueError (integrity_message h calculated_hash))
           else mret tt
       | None => mret tt
       end);;
      logger "Download complete. Extracting..." "info";;
      s ← read;
      match get temp_zip (fs s) with
      | Some (File data _) =>
          match unzip E data with
          | None => raise (BadZipFile "File is not a zip file")
          | Some ms =>
              inside ← extract ms;
              if inside : bool then
                fs_op (os_remove temp_zip);;
                logger "Update prepared in staging directory." "success";;
                update (set_downloading false);;
                update (set_progress 100);;
                mret true
              else mret false
          end
      | _ => raise (FileNotFoundError temp_zip)
      end
  end.

(** [_download_task(asset_url, expected_hash)] with its [except] clause. *)
Definition download_task (asset_url : string) (expected_hash : option string)
    (σ : service * list service) : ending * (service * list service) :=
  match download_body asset_url expected_hash σ with
  | (Ok true, σ') => (Completed, σ')
  | (Ok false, σ') => (LeftTree, σ')
  | (Raise e, σ') =>
      let '(_, σ'') :=
        (logger ("Update download failed: " +:+ str_exn e) "error";;
         update (set_error (Some (str_exn e)));;
         update (set_downloading false)) σ' in
      (Failed e, σ'')
  end.

(** [start_download(asset_url, expected_hash)]: the flag check and the
    three assignments; the thread it starts runs [download_task]. *)
Definition start_download : T bool :=
  s ← read;
  if is_downloading s then mret false
  else
    update (set_downloading true);;
    update (set_progress 0);;
    update (set_error None);;
    mret true.

(** One download from the request to the end of its thread: [None] when
    the request is refused, else how the task ended, the final state and
    the states the service went through, oldest first. *)
Definition download_run (asset_url : string) (expected_hash : option string)
    (s : service) : option (ending * (service * list service)) :=
  match start_download (s, []) with
  | (Ok true, σ) => Some (download_task asset_url expected_hash σ)
  | _ => None
  end.

End WithEnv.

End Updater.

(** ** The bootstrap update of [launcher.py] *)
Module Bootstrap.
Import FS.

Definition staging_dir : path := [".update_staging"].

(** The [shutil] calls completed, in order. *)
Inductive op :=
| Copy2 (src dst : path)
| Rmtree (p : path)
| Copytree (src dst : path).

(** How [perform_bootstrap_update] ends. *)
Inductive outcome :=
| NoStaging
| Aborted
| Applied
| Failed (e : exn).

(** The body of the [for] loop for the entry [name]: the exception
    raised, if any, and the directory and the calls completed so far. *)
Definition apply_entry (name : string) (st : node * list op)
    : option exn * (node * list op) :=
  let '(fs, tr) := st in
  let item := staging_dir ++ [name] in
  if String.eqb name "version.json" then
    match copy2 item ["version.json"] fs with
    | Ok fs' => (None, (fs', tr ++ [Copy2 item ["version.json"]]))
    | Raise e => (Some e, st)
    end
  else if is_dir item fs then
    let target_dir := [name] in
    if exists_ target_dir fs then
      match rmtree target_dir fs with
      | Raise e => (Some e, st)
      | Ok fs1 =>
          match copytree item target_dir fs1 with
          | Ok fs2 =>
              (None, (fs2, tr ++ [Rmtree target_dir; Copytree item target_dir]))
          | Raise e => (Some e, (fs1, tr ++ [Rmtree target_dir]))
          end
      end
    else
      match copytree item target_dir fs with
      | Ok fs2 => (None, (fs2, tr ++ [Copytree item target_dir]))
      | Raise e => (Some e, st)
      end
  else
    let target_file := [name] in
    match copy2 item target_file fs with
    | Ok fs' => (None, (fs', tr ++ [Copy2 item target_file]))
    | Raise e => (Some e, st)
    end.

(** [for item in staging_dir.iterdir(): ...]: the names are listed once,
    each entry is looked at when its turn comes.  An exception leaves the
    loop with what was done so far. *)
Fixpoint apply_entries (names : list string) (st : node * list op)
    : option exn * (node * list op) :=
  match names with
  | [] => (None, st)
  | name :: names' =>
      match apply_entry name st with
      | (None, st') => apply_entries names' st'
      | (Some e, st') => (Some e, st')
      end
  end.

Definition perform_bootstrap_update (fs : node) : outcome * node * list op :=
  if exists_ staging_dir fs && is_dir staging_dir fs then
    if negb (exists_ (staging_dir ++ ["version.json"]) fs) then (Aborted, fs, [])
    else
      match iterdir staging_dir fs with
      | Raise e => (Failed e, fs, [])
      | Ok names =>
          match apply_entries names (fs, []) with
          | (Some e, (fs', tr)) => (Failed e, fs', tr)
          | (None, (fs', tr)) =>
              match rmtree staging_dir fs' with
              | Ok fs'' => (Applied, fs'', tr ++ [Rmtree staging_dir])
              | Raise e => (Failed e, fs', tr)
              end
          end
      end
  else (NoStaging, fs, []).

End Bootstrap.

(** ** Version comparison and the release check:
    [_is_newer_version] and [check_for_update] of [update_service.py].
    Version strings are ASCII. *)
Module Releases.

(** The ASCII characters [int()] skips around a number. *)
Definition is_space (c : ascii) : bool :=
  let n := nat_of_ascii c in
  ((9 <=? n) && (n <=? 13)) || ((28 <=? n) && (n <=? 32)).

Fixpoint lstrip (s : string) : string :=
  match s with
  | String c s' => if is_space c then lstrip s' else s
  | EmptyString => EmptyString
  end.

(** [s.strip()] *)
Definition strip (s : string) : string :=
  String.rev (lstrip (String.rev (lstrip s))).

Definition digit (c : ascii) : option N :=
  let n := nat_of_ascii c in
  if (48 <=? n) && (n <=? 57) then Some (N.of_nat (n - 48)) else None.

(** Decimal digits, single underscores allowed between two digits:
    [after_digit] tells whether the previous character was a digit. *)
Fixpoint digits (acc : N) (after_digit : bool) (s : string) : option N :=
  match s with
  | EmptyString => if after_digit then Some acc else None
  | String c s' =>
      match digit c with
      | Some d => digits (10 * acc + d)%N true s'
      | None =>
          if Ascii.eqb c "_" && after_digit then digits acc false s' else None
      end
  end.

(** The number of digit characters of a literal. *)
Definition digit_count (s : string) : nat :=
  length (filter (λ c, is_Some (digit c)) (list_ascii_of_string s)).

(** The interpreter's limit on the digits [int()] converts:
    [max_str_digits] is [sys.get_int_max_str_digits()], 4300 unless
    configured, and 0 where there is no limit. *)
Definition too_long (max_str_digits : nat) (s : string) : bool :=
  negb (max_str_digits =? 0) && (max_str_digits <? digit_count s).

(** [int(s)]: [None] when it raises [ValueError]. *)
Definition py_int (max_str_digits : nat) (s : string) : option Z :=
  let t := strip s in
  if too_long max_str_digits t then None
  else
    match t with
    | String "+" r => Z.of_N <$> digits 0 false r
    | String "-" r => (λ n, - Z.of_N n)%Z <$> digits 0 false r
    | _ => Z.of_N <$> digits 0 false t
    end.

(** [[int(x) for x in v.split('.')]] *)
Definition parse_version (max_str_digits : nat) (v : string) : option (list Z) :=
  mapM (py_int max_str_digits) (FS.split_on "." v).

(** [a > b] on lists of integers. *)
Fixpoint list_gt (a b : list Z) : bool :=
  match a, b with
  | [], _ => false
  | _ :: _, [] => true
  | x :: a', y :: b' => if (x =? y)%Z then list_gt a' b' else (y <? x)%Z
  end.

(** [_is_newer_version(latest, current)] *)
Definition is_newer_version (max_str_digits : nat) (latest current : string) : bool :=
  match parse_version max_str_digits latest, parse_version max_str_digits current with
  | Some a, Some b => list_gt a b
  | _, _ => negb (String.eqb latest current)
  end.

(** [s.replace(c, "")] for a one-character [c]. *)
Fixpoint remove_char (c : ascii) (s : string) : string :=
  match s with
  | EmptyString => EmptyString
  | String x s' => if Ascii.eqb x c then remove_char c s' else String x (remove_char c s')
  end.

(** An entry of the release's [assets]: its [name] and
    [browser_download_url], each [''] when absent. *)
Record asset := Asset { a_name : string; a_url : string }.

(** The fields of the release descriptor that are read, with the
    defaults of [release_data.get]. *)
Record release := Release {
  tag_name : string;
  notes : string;
  published_at : string;
  assets : list asset
}.

(** What the request to the release feed gives: an exception (of the
    request, of the decoding, or of a field that is not of the type read),
    a status other than 200, or the decoded descriptor. *)
Inductive feed :=
| FeedRaises (msg : string)
| FeedStatus (code : Z)
| FeedRelease (r : release).

(** The loop over the assets: the URL of the first asset whose name
    ends with [.zip], [''] when there is none. *)
Fixpoint first_zip (l : list asset) : string :=
  match l with
  | [] => ""
  | a :: l' => if PyStr.endswith (a_name a) ".zip" then a_url a else first_zip l'
  end.

Record update_info := UpdateInfo {
  has_update : bool;
  latest_version : string;
  current_version : string;
  release_notes : string;
  info_published_at : string;
  asset_url : string;
  info_assets : list asset
}.

(** [check_for_update()], given the version [current] that
    [get_current_version()] returns: the dictionary returned, or the text
    of its [error] entry, and the calls it makes to the logger itself. *)
Definition check_for_update (max_str_digits : nat) (f : feed) (current : string)
    : (string + update_info) * list (string * string) :=
  match f with
  | FeedRelease r =>
      let latest := remove_char "v" (tag_name r) in
      (inr {| has_update := is_newer_version max_str_digits latest current;
              latest_version := latest;
              current_version := current;
              release_notes := notes r;
              info_published_at := published_at r;
              asset_url := first_zip (assets r);
              info_assets := assets r |}, [])
  | FeedStatus code =>
      (inl ("GitHub API error: " +:+ pretty code),
       [("GitHub API returned status " +:+ pretty code, "warning")])
  | FeedRaises msg =>
      (inl msg, [("Error checking for update: " +:+ msg, "error")])
  end.

End Releases.

(** ** Start-up of the service: the scan of the launch arguments for TLS
    files in [EnhancedExternalComfyUILauncher.__init__] *)
Module Startup.

(** The body of the loop for the argument [arg] followed by [rest];
    [acc] is ([tls_keyfile], [tls_certfile]). *)
Definition scan_arg (arg : string) (rest : list string)
    (acc : option string * option string) : option string * option string :=
  match rest with
  | next :: _ =>
      if String.eqb arg "--tls-keyfile" then (Some next, acc.2)
      else if String.eqb arg "--tls-certfile" then (acc.1, Some next)
      else if PyStr.startswith arg "--tls-keyfile=" then (Some (PyStr.drop 14 arg), acc.2)
      else if PyStr.startswith arg "--tls-certfile=" then (acc.1, Some (PyStr.drop 15 arg))
      else acc
  | [] =>
      if PyStr.startswith arg "--tls-keyfile=" then (Some (PyStr.drop 14 arg), acc.2)
      else if PyStr.startswith arg "--tls-certfile=" then (acc.1, Some (PyStr.drop 15 arg))
      else acc
  end.

(** [for i, arg in enumerate(launch_args): ...] *)
Fixpoint scan_from (args : list string) (acc : option string * option string)
    : option string * option string :=
  match args with
  | [] => acc
  | arg :: rest => scan_from rest (scan_arg arg rest acc)
  end.

Definition scan_tls (launch_args : list string) : option string * option string :=
  scan_from launch_args (None, None).

(** [self.tls_keyfile and self.tls_certfile] as a condition. *)
Definition tls_configured (tls : option string * option string) : bool :=
  PyStr.truthy_opt tls.1 && PyStr.truthy_opt tls.2.

(** The [protocol] entry of [get_api_status]. *)
Definition api_protocol (tls : option string * option string) : string :=
  if tls_configured tls then "dual" else "http".

(** The scheme of the URL probed by [is_comfyui_responsive]. *)
Definition probe_scheme (tls : option string * option string) : string :=
  if tls_configured tls then "https" else "http".

End Startup.

(** ** The launcher object of [launcher.py]: [start_external_launcher] *)
Module External.

(** The answers of the outside world to one call. *)
Record env := Env {
  script_exists : bool;
  answers_200 : bool;
  python : string;
  script_path : string;
  popen : list string → string + Z
}.

Record launcher := Launcher {
  external_launcher_process : option Z;
  launcher_port : Z;
  spawned : list (list string)
}.

(** [start_external_launcher()]: the result and the state after it.  The
    saved launch arguments are read and combined but not passed on. *)
Definition start_external_launcher (E : env) (s : launcher) : bool * launcher :=
  if negb (script_exists E) then (false, s)
  else if answers_200 E then (true, s)
  else
    let cmd := [python E; script_path E; "--api-port"; pretty (launcher_port s)] in
    match popen E cmd with
    | inl _ =>
        (false, {| external_launcher_process := external_launcher_process s;
                   launcher_port := launcher_port s;
                   spawned := spawned s ++ [cmd] |})
    | inr _ =>
        (true, {| external_launcher_process := None;
                  launcher_port := launcher_port s;
                  spawned := spawned s ++ [cmd] |})
    end.

End External.

(** ** Static files: [LauncherAPIHandler.serve_static_file] of
    [launcher_service.py], on a POSIX file system *)
Module Static.
Import FS.

(** [s.lstrip('/')] *)
Fixpoint lstrip_slash (s : string) : string :=
  match s with
  | String c s' => if Ascii.eqb c "/" then lstrip_slash s' else s
  | EmptyString => EmptyString
  end.

(** Where the operating system arrives when it follows the components
    [comps] from the directory [cur]: at a path of the extension
    directory, nowhere, or above the extension directory, which is not
    part of the tree. *)
Inductive walked :=
| At (p : path)
| Missing
| Outside.

Fixpoint walk (cur : path) (comps : list string) (fs : node) : walked :=
  match comps with
  | [] => if exists_ cur fs then At cur else Missing
  | c :: comps' =>
      if is_dir cur fs then
        if String.eqb c ".." then
          match cur with
          | [] => Outside
          | _ => walk (parent cur) comps' fs
          end
        else walk (cur ++ [c]) comps' fs
      else Missing
  end.

(** The components of [file_path] below the extension directory:
    [web_dir / "index.html"] or [web_dir / pure_path], where [pathlib]
    drops empty and [.] components and keeps [..]. *)
Definition file_path (path : string) : list string :=
  let pure_path := lstrip_slash path in
  if String.eqb pure_path "" || String.eqb pure_path "index.html"
  then ["web"; "index.html"]
  else "web" :: filter (λ c, c ≠ "" ∧ c ≠ ".") (split_on "/" pure_path).

(** What the handler sends: the 404 error, a 200 response with its
    [Content-type] and body, or a file from above the extension
    directory. *)
Inductive reply :=
| NotFound
| Content (content_type : string) (content : string)
| Beyond.

(** [content_type] for the path: the guess of [mimetypes], or
    [application/octet-stream]. *)
Definition content_type_of (guess_type : list string → option string)
    (p : list string) : string :=
  match guess_type p with
  | Some t => if PyStr.truthy t then t else "application/octet-stream"
  | None => "application/octet-stream"
  end.

(** The file sent for the path chosen, once it is known to exist. *)
Definition send_file (guess_type : list string → option string)
    (chosen : list string) (w : walked) (fs : node) : reply :=
  match w with
  | At p =>
      match get p fs with
      | Some (File data _) => Content (content_type_of guess_type chosen) data
      | _ => NotFound
      end
  | Missing => NotFound
  | Outside => Beyond
  end.

(** [serve_static_file(path)]; every file of the tree can be read. *)
Definition serve_static_file (guess_type : list string → option string)
    (path : string) (fs : node) : reply :=
  match walk [] (file_path path) fs with
  | Missing =>
      send_file guess_type ["web"; "index.html"]
        (walk [] ["web"; "index.html"] fs) fs
  | w => send_file guess_type (file_path path) w fs
  end.

End Static.

(** ** The monitoring loop: [monitor_loop] and [_subscribe_to_logs] of
    [launcher_service.py] *)
Module Monitor.
Import Launcher.

(** What [requests.patch] to the worker's log subscription does: it
    raises, or answers with a status code. *)
Inductive patch_result :=
| PatchRaises (msg : string)
| PatchStatus (code : Z).

(** The flags of the loop: the attribute [_last_down_logged] (absent
    counts as false) and the locals [logs_subscribed] and
    [server_detected]. *)
Record flags := Flags {
  last_down_logged : bool;
  logs_subscribed : bool;
  server_detected : bool
}.

Definition initial_flags : flags :=
  {| last_down_logged := false; logs_subscribed := false; server_detected := false |}.

(** [initial_check_interval], in seconds. *)
Definition initial_check_interval : N := 5.

Section WithEnv.
Variable E : env.
(** The answer to the subscription request made after [n] health probes,
    and the time it takes in milliseconds. *)
Variable patch : nat → patch_result * N.
(** [https] when both TLS files are configured, else [http]. *)
Variable protocol : string.
(** [self.check_interval], in seconds. *)
Variable check_interval : N.

(** [_subscribe_to_logs()]; every exception is caught and logged. *)
Definition subscribe_to_logs : M unit :=
  log E "⏳ Waiting 20 seconds for ComfyUI internal systems to initialize..." "info";;
  sleep 20000;;
  log E ("📋 Subscribing to ComfyUI logs (" +:+ protocol
       +:+ ") with clientId: comfy-mobile-ui-client-2025") "info";;
  s ← get;
  let '(r, d) := patch (probes s) in
  sleep d;;
  match r with
  | PatchStatus code =>
      if (code =? 200)%Z then log E "✅ Successfully subscribed to ComfyUI logs" "success"
      else log E ("⚠️ Failed to subscribe to logs: HTTP " +:+ pretty code) "warning"
  | PatchRaises msg => log E ("❌ Error subscribing to logs: " +:+ msg) "error"
  end.

(** The body of the [while] loop of [monitor_loop], once. *)
Definition monitor_step (f : flags) : M flags :=
  is_responsive ← is_comfyui_responsive E;
  f1 ← (if negb is_responsive then
          (if negb (last_down_logged f) then
             log E "[MONITOR] ComfyUI is not responsive - waiting for manual restart request"
               "info"
           else mret tt);;
          mret {| last_down_logged := true; logs_subscribed := false;
                  server_detected := false |}
        else
          (if last_down_logged f then
             log E "[MONITOR] ComfyUI is responsive again" "info"
           else mret tt);;
          (if negb (logs_subscribed f) then subscribe_to_logs else mret tt);;
          (if negb (server_detected f) then
             log E ("[MONITOR] Server detected, switching to normal check interval ("
                    +:+ pretty check_interval +:+ "s)") "info"
           else mret tt);;
          mret {| last_down_logged := false; logs_subscribed := true;
                  server_detected := true |});
  let current_interval :=
    if server_detected f1 then check_interval else initial_check_interval in
  (if negb (server_detected f1) then
     log E ("[MONITOR] Using fast check interval: " +:+ pretty current_interval
            +:+ "s (waiting for server)") "debug"
   else mret tt);;
  sleep (current_interval * 1000)%N;;
  mret f1.

(** [n] turns of the loop. *)
Fixpoint monitor_turns (n : nat) (f : flags) : M flags :=
  match n with
  | O => mret f
  | S n' => f1 ← monitor_step f; monitor_turns n' f1
  end.

End WithEnv.

End Monitor.

(** * Properties *)

(** ** Log buffer *)
Module LoggerFacts.
Import Logger.

Definition known_levels : list string :=
  ["info"; "warning"; "error"; "success"; "debug"].

Lemma push_last_n cap (e : log_entry) (all : list log_entry) :
  push cap e (last_n cap all) = last_n cap (all ++ [e]).
Proof.
  unfold push, last_n.
  rewrite !length_app, length_drop. cbn [length].
  destruct (Nat.ltb_spec cap (length all - (length all - cap) + 1)) as [Hlt | Hge].
  - destruct (decide (cap = 0)) as [-> | Hcap].
    + rewrite Nat.sub_0_r, drop_all. cbn.
      rewrite drop_ge; [done | rewrite length_app; cbn; lia].
    + rewrite (drop_app_le all [e] (length all + 1 - cap)) by lia.
      rewrite drop_app_le by (rewrite length_drop; lia).
      rewrite drop_drop. do 2 f_equal. lia.
  - replace (length all - cap) with 0 by lia.
    replace (length all + 1 - cap) with 0 by lia. done.
Qed.

Lemma log_all_snoc cs c st : log_all (cs ++ [c]) st = log_call (log_all cs st) c.
Proof. unfold log_all. by rewrite foldl_app. Qed.

Lemma max_log_buffer_log_all cs st :
  max_log_buffer (log_all cs st) = max_log_buffer st.
Proof.
  induction cs as [| c cs IH] using rev_ind; [done |].
  by rewrite log_all_snoc.
Qed.

(** From an empty buffer, the buffer is always the last [max_log_buffer]
    entries created. *)
Lemma log_buffer_log_all cs st :
  log_buffer st = [] →
  log_buffer (log_all cs st) = last_n (max_log_buffer st) (entry_of <$> cs).
Proof.
  intros Hnil.
  induction cs as [| c cs IH] using rev_ind.
  - cbn. by rewrite Hnil.
  - rewrite log_all_snoc, fmap_app. cbn [fmap list_fmap].
    rewrite <- push_last_n, <- IH.
    unfold log_call, log. cbn. by rewrite max_log_buffer_log_all.
Qed.

Lemma length_last_n {A} n (l : list A) : length (last_n n l) = length l `min` n.
Proof. unfold last_n. rewrite length_drop. lia. Qed.

Lemma last_n_idemp {A} n (l : list A) : last_n n (last_n n l) = last_n n l.
Proof.
  unfold last_n at 1. rewrite length_last_n.
  replace (length l `min` n - n) with 0 by lia. done.
Qed.

(** C4: whatever is logged, the buffer never holds more than its capacity
    of 200 entries; it holds exactly the last 200 entries created (all of
    them while fewer were logged), oldest first, each one as it was built
    when logged; [get_recent_logs] with a limit of 200, or with no positive
    limit, returns exactly these. *)
Theorem log_buffer_keeps_last_200 (cs : list call) :
  let st := log_all cs init in
  length (log_buffer st) ≤ 200 ∧
  length (log_buffer st) = length cs `min` 200 ∧
  log_buffer st = last_n 200 (entry_of <$> cs) ∧
  logs (get_recent_logs 200 st) = last_n 200 (entry_of <$> cs) ∧
  logs (get_recent_logs 0 st) = last_n 200 (entry_of <$> cs) ∧
  total_count (get_recent_logs 200 st) = length cs `min` 200.
Proof.
  intros st.
  assert (Hbuf : log_buffer st = last_n 200 (entry_of <$> cs)).
  { unfold st. by rewrite log_buffer_log_all. }
  assert (Hlen : length (log_buffer st) = length cs `min` 200).
  { by rewrite Hbuf, length_last_n, length_fmap. }
  repeat split; try done.
  - lia.
  - unfold get_recent_logs. cbn [logs]. change (0 <? 200)%Z with true. cbn match.
    change (Z.to_nat 200) with 200. by rewrite Hbuf, last_n_idemp.
Qed.

(** *** Per-level counters *)

(** The counter that a call at level [lvl] increments. *)
Definition counter_of (lvl : string) : string :=
  if decide (lvl ∈ known_levels) then lvl else "info".

Lemma alter_S_insert (m : gmap string nat) k n :
  m !! k = Some n → alter S k m = <[k := S n]> m.
Proof.
  intros Hk. apply map_eq. intros j.
  rewrite lookup_alter, lookup_insert.
  case_decide; subst; [by rewrite Hk | done].
Qed.

Lemma stats_total_insert (m : gmap string nat) k n :
  m !! k = Some n → stats_total (<[k := S n]> m) = S (stats_total m).
Proof.
  intros Hk. unfold stats_total.
  rewrite <- insert_delete_eq.
  rewrite map_fold_insert_L; [| intros; lia | apply lookup_delete_eq].
  rewrite (map_fold_delete_L _ _ k n m); [lia | intros; lia | done].
Qed.

(** The keys of [log_stats] never change. *)
Lemma log_stats_keys cs :
  dom (log_stats (log_all cs init)) = list_to_set known_levels.
Proof.
  induction cs as [| c cs IH] using rev_ind.
  - cbn. rewrite !dom_insert_L, dom_empty_L. set_solver.
  - rewrite log_all_snoc. unfold log_call, log, bump. cbn [log_stats].
    by rewrite dom_alter_L.
Qed.

Lemma counted_level_reachable cs lvl :
  counted_level (log_stats (log_all cs init)) lvl = counter_of lvl.
Proof.
  unfold counted_level, counter_of.
  assert (is_Some (log_stats (log_all cs init) !! lvl) ↔ lvl ∈ known_levels) as Hiff.
  { rewrite <- elem_of_dom, (log_stats_keys cs). apply elem_of_list_to_set. }
  destruct (decide (is_Some _)), (decide (lvl ∈ known_levels)); tauto.
Qed.

Lemma counter_of_known lvl : counter_of lvl ∈ known_levels.
Proof.
  unfold counter_of. case_decide; [done |]. unfold known_levels. set_solver.
Qed.

Lemma counter_present cs lvl :
  is_Some (log_stats (log_all cs init) !! counter_of lvl).
Proof.
  apply elem_of_dom. rewrite log_stats_keys.
  apply elem_of_list_to_set, counter_of_known.
Qed.

Lemma log_stats_step cs c :
  ∃ n, log_stats (log_all cs init) !! counter_of (c_level c) = Some n ∧
       log_stats (log_call (log_all cs init) c) =
         <[counter_of (c_level c) := S n]> (log_stats (log_all cs init)).
Proof.
  destruct (counter_present cs (c_level c)) as [n Hn].
  exists n. split; [done |].
  unfold log_call, log, bump. cbn [log_stats].
  rewrite counted_level_reachable. by apply alter_S_insert.
Qed.

Lemma stats_total_log_all cs : stats_total (log_stats (log_all cs init)) = length cs.
Proof.
  induction cs as [| c cs IH] using rev_ind.
  - by vm_compute.
  - rewrite log_all_snoc, length_app. cbn [length].
    destruct (log_stats_step cs c) as (n & Hn & ->).
    rewrite stats_total_insert by done. lia.
Qed.

(** C10: in every reachable logger state, a call of [log] increments
    exactly one per-level counter, the one named by its level when that is
    one of info, warning, error, success, debug and the info counter
    otherwise (so for the levels api and restart); and the counters
    returned by [get_recent_logs] sum to the number of calls made. *)
Theorem every_log_call_counted_once (cs : list call) (c : call) (limit : Z) :
  let st := log_all cs init in
  let k := counter_of (c_level c) in
  (∃ n, log_stats st !! k = Some n ∧
        log_stats (log_call st c) = <[k := S n]> (log_stats st)) ∧
  counter_of "api" = "info" ∧
  counter_of "restart" = "info" ∧
  stats_total (stats (get_recent_logs limit st)) = length cs.
Proof.
  intros st k. split; [apply log_stats_step |].
  split; [by vm_compute |]. split; [by vm_compute |].
  apply stats_total_log_all.
Qed.

End LoggerFacts.

(** ** Dual-protocol listener *)
Module ListenerFacts.
Import Listener.

Lemma byte_eqb_neq (a b : Byte.byte) : a ≠ b → Byte.eqb a b = false.
Proof.
  intros Hne. destruct (Byte.eqb a b) eqn:E; [| done].
  exfalso. apply Hne. by apply Byte.byte_dec_bl.
Qed.

(** Without both a key file and a certificate file in the launcher's
    fields no context is built. *)
Lemma prepare_ssl_context_unconfigured key cert path_exists context_ok :
  key = None ∨ cert = None →
  prepare_ssl_context key cert path_exists context_ok = None.
Proof. intros [-> | ->]; [done | by destruct key]. Qed.

(** C8: with a TLS context built from the configured certificate and key,
    a connection whose first peeked byte is 0x16 gets a TLS handshake on
    its socket (served over TLS when it succeeds, and as plaintext, with
    the listener carrying on, when it fails); a connection whose first
    peeked byte is anything else is served as plaintext and no handshake
    is attempted; without a context every connection is plaintext and is
    not even peeked at. *)
Theorem get_request_protocol_detection
    (ctx : ssl_context) (b : Byte.byte) (rest : list Byte.byte)
    (hs : handshake_result) (c : connection) :
  b ≠ Byte.x16 →
  get_request (Some ctx)
    {| peek := Peeked (Byte.x16 :: rest); handshake := HandshakeOk |}
    = (TlsWrapped, [Accept; Peek; WrapSocket]) ∧
  get_request (Some ctx)
    {| peek := Peeked (Byte.x16 :: rest); handshake := HandshakeRaises |}
    = (Plaintext, [Accept; Peek; WrapSocket]) ∧
  get_request (Some ctx) {| peek := Peeked (b :: rest); handshake := hs |}
    = (Plaintext, [Accept; Peek]) ∧
  get_request None c = (Plaintext, [Accept]) ∧
  prepare_ssl_context None None (λ _, true) true = None.
Proof.
  intros Hb. repeat split.
  unfold get_request. cbn. by rewrite byte_eqb_neq.
Qed.

Lemma get_request_protocol_detection_witness :
  Listener.get_request (Some (SslContext "cert.pem" "key.pem"))
    {| peek := Peeked [Byte.x47; Byte.x45; Byte.x54]; handshake := HandshakeOk |}
    = (Plaintext, [Accept; Peek]).
Proof.
  apply (get_request_protocol_detection (SslContext "cert.pem" "key.pem")
           Byte.x47 [Byte.x45; Byte.x54] HandshakeOk
           {| peek := PeekRaises; handshake := HandshakeOk |}).
  discriminate.
Defined.

End ListenerFacts.

(** ** Strings *)
Module PyStrFacts.

(** [s[-500:]] is the suffix of [s] of length [min 500 (len s)]. *)
Lemma drop_suffix n s : ∃ pre, s = pre +:+ PyStr.drop n s ∧
  String.length (PyStr.drop n s) = String.length s - n.
Proof.
  revert s. induction n as [| n IH]; intros s.
  - exists "". split; [done |]. cbn. lia.
  - destruct s as [| a s]; [by exists "" |].
    destruct (IH s) as (pre & Heq & Hlen).
    exists (String a pre). split; [| exact Hlen].
    change (String a s = String a (pre +:+ PyStr.drop n s)). by f_equal.
Qed.

Lemma last_chars_suffix n s : ∃ pre, s = pre +:+ PyStr.last_chars n s ∧
  String.length (PyStr.last_chars n s) = String.length s `min` n.
Proof.
  unfold PyStr.last_chars.
  destruct (drop_suffix (String.length s - n) s) as (pre & Heq & Hlen).
  exists pre. split; [done | lia].
Qed.

Lemma startswith_app pre x : PyStr.startswith (pre +:+ x) pre = true.
Proof.
  induction pre as [| a pre IH]; simpl; [by destruct x |]. by rewrite Ascii.eqb_refl.
Qed.

End PyStrFacts.

(** ** Process controller and restart orchestrator *)
Module RestartFacts.
Import Launcher.

Local Arguments wait_loop : simpl never.
Local Arguments Logger.log : simpl never.
Local Arguments pretty : simpl never.
Local Arguments String.append : simpl never.
Local Arguments mentions_watchdog : simpl never.
Local Arguments N.add : simpl never.
Local Arguments N.sub : simpl never.
Local Arguments N.ltb : simpl never.

Ltac mrun :=
  unfold mbind, M_bind, mret, M_ret, log, sleep, now, get, emit, assign_process; cbn.

(** The fields that only [__init__] writes. *)
Definition same_config (s s' : launcher) : Prop :=
  python_executable s' = python_executable s ∧
  comfyui_args s' = comfyui_args s ∧
  comfyui_dir s' = comfyui_dir s ∧
  working_directory s' = working_directory s ∧
  comfyui_port s' = comfyui_port s.

Section WithEnv.
Variable E : env.

Lemma stop_tracked_frame s :
  same_config s (stop_tracked E s).2 ∧ probes (stop_tracked E s).2 = probes s.
Proof.
  unfold stop_tracked, same_config. mrun.
  destruct (comfyui_process s) as [h |]; mrun; [| done].
  destruct (exit_codes _ _); mrun; [done |].
  destruct (terminate_raises _); mrun; [done |].
  destruct (wait_10 _); mrun; done.
Qed.

Lemma stop_comfyui_frame s :
  same_config s (stop_comfyui E s).2 ∧ probes (stop_comfyui E s).2 = probes s.
Proof.
  unfold stop_comfyui. mrun.
  pose proof (stop_tracked_frame s) as Hf.
  destruct (stop_tracked E s) as [[msg |] s1]; cbn in *; mrun; [done |].
  destruct (find_comfyui_process _ _); mrun; [| done].
  destruct (orphan_stops _ _) as [[] d]; mrun; done.
Qed.

(** The conditions under which [start_comfyui] spawns the worker [p]. *)
Definition start_succeeds (s : launcher) (p : popen) : Prop :=
  mentions_watchdog (comfyui_args s) = false ∧
  open_output_log E = None ∧
  spawn E (start_cmd s) (start_cwd E s) = Spawned p.

Lemma start_comfyui_ok s0 s p :
  start_succeeds s0 p → same_config s0 s →
  ∃ s', start_comfyui E s = (true, s') ∧
        comfyui_process s' = Some {| h_proc := p; h_polls := 0 |} ∧
        probes s' = probes s ∧ clock s' = clock s.
Proof.
  intros (Hw & Ho & Hs) (Hpy & Hargs & Hdir & Hwd & _).
  unfold start_comfyui. mrun.
  unfold start_cmd, start_cwd in *. cbn.
  rewrite Hargs, Hw, Ho, Hpy, Hdir, Hwd. mrun. rewrite Hs. mrun.
  eexists; repeat split.
Qed.

Lemma stop_and_start_ok s p :
  start_succeeds s p →
  ∃ s1 dur, stop_and_start E s = ((clock s, true, dur), s1) ∧
            comfyui_process s1 = Some {| h_proc := p; h_polls := 0 |} ∧
            probes s1 = S (probes s).
Proof.
  intros Hstart. unfold stop_and_start, is_comfyui_responsive.
  destruct (probe E (probes s)) as [r d] eqn:Hprobe. mrun. rewrite Hprobe. mrun.
  destruct (comfyui_process s) as [h|]; mrun.
  all: match goal with
       | |- context [stop_comfyui E ?s2] =>
           pose proof (stop_comfyui_frame s2) as [Hcfg Hpr];
           destruct (stop_comfyui E s2) as [ok s3]
       end; cbn in Hcfg, Hpr.
  all: destruct ok; mrun.
  all: match goal with
       | |- context [start_comfyui E ?s4] =>
           destruct (start_comfyui_ok s s4 p Hstart) as (s1 & -> & Hh & Hp & _);
             [exact Hcfg |]
       end.
  all: cbn in Hp; eexists _, _; split; [reflexivity |]; split; [done | congruence].
Qed.

(** *** The wait-for-responsive loop *)

(** Time spent in the first [j] turns of the wait loop when the first
    probe of the loop is probe number [k0]: two seconds of sleep and
    the duration of the probe, per turn. *)
Fixpoint elapsed (k0 j : nat) : N :=
  match j with
  | O => 0%N
  | S j' => (elapsed k0 j' + 2000 + (probe E (k0 + j')).2)%N
  end.

(** Turns [0 .. k-1] of the wait loop are entered and find the worker
    running but not responsive: [q0] is the number of the first
    [poll()] of the loop on the worker [p], [k0] that of its first
    probe. *)
Definition waiting (p : popen) (q0 k0 k : nat) : Prop :=
  ∀ j, j < k →
    exit_codes p (q0 + j) = None ∧
    (probe E (k0 + j)).1 = false ∧
    (elapsed k0 j < max_wait)%N.

Lemma elapsed_lower k0 j : (2000 * N.of_nat j ≤ elapsed k0 j)%N.
Proof. induction j as [| j IH]; cbn [elapsed]; lia. Qed.

Lemma poll_exited_tracked s p q :
  comfyui_process s = Some {| h_proc := p; h_polls := q |} →
  poll_exited s =
    (exit_codes p q, set_process (Some {| h_proc := p; h_polls := S q |}) s).
Proof. intros Hh. unfold poll_exited, poll. mrun. by rewrite Hh. Qed.

Lemma wait_loop_exhausted fuel ws rst s :
  (max_wait ≤ clock s - ws)%N →
  wait_loop E fuel ws rst s = (Exhausted, s).
Proof.
  intros Hle. destruct fuel; unfold wait_loop; mrun.
  all: destruct (N.ltb_spec (clock s - ws) max_wait); [lia | done].
Qed.

Lemma wait_loop_died fuel ws rst s p q c :
  comfyui_process s = Some {| h_proc := p; h_polls := q |} →
  (clock s - ws < max_wait)%N →
  exit_codes p q = Some c →
  wait_loop E (S fuel) ws rst s =
    (Returned false,
     llog E ("ComfyUI process died during startup (exit code: " +:+ pretty c +:+ ")")
       "error"
       (set_process (Some {| h_proc := p; h_polls := S q |})
          (set_clock (clock s + 2000) s))).
Proof.
  intros Hh Hlt Hc. unfold wait_loop; mrun.
  destruct (N.ltb_spec (clock s - ws) max_wait); [| lia].
  mrun. erewrite poll_exited_tracked by (cbn; exact Hh).
  rewrite Hc. by mrun.
Qed.

Lemma wait_loop_turn fuel ws rst s p q :
  comfyui_process s = Some {| h_proc := p; h_polls := q |} →
  (clock s - ws < max_wait)%N →
  exit_codes p q = None →
  (probe E (probes s)).1 = false →
  ∃ s', wait_loop E (S fuel) ws rst s = wait_loop E fuel ws rst s' ∧
        comfyui_process s' = Some {| h_proc := p; h_polls := S q |} ∧
        probes s' = S (probes s) ∧
        clock s' = (clock s + 2000 + (probe E (probes s)).2)%N.
Proof.
  intros Hh Hlt Hc Hr.
  unfold wait_loop. fold (wait_loop E).
  mrun.
  destruct (N.ltb_spec (clock s - ws) max_wait); [| lia].
  mrun. erewrite poll_exited_tracked by (cbn; exact Hh).
  rewrite Hc. unfold is_comfyui_responsive. cbn.
  destruct (probe E (probes s)) as [r d]. cbn in Hr. subst r. mrun.
  eexists. split; [reflexivity |]. done.
Qed.

Lemma wait_loop_skip ws rst s0 p q0 k :
  ws = clock s0 →
  comfyui_process s0 = Some {| h_proc := p; h_polls := q0 |} →
  waiting p q0 (probes s0) k →
  ∀ fuel,
  ∃ s', wait_loop E (k + fuel) ws rst s0 = wait_loop E fuel ws rst s' ∧
        comfyui_process s' = Some {| h_proc := p; h_polls := q0 + k |} ∧
        probes s' = probes s0 + k ∧
        clock s' = (ws + elapsed (probes s0) k)%N.
Proof.
  intros -> Hh. induction k as [| k IH]; intros Hw fuel.
  - exists s0. rewrite !Nat.add_0_r. cbn. split; [done |]. split; [done |].
    split; [done | lia].
  - destruct (IH (λ j Hj, Hw j (Nat.lt_lt_succ_r _ _ Hj)) (S fuel))
      as (s1 & Heq & Hh1 & Hp1 & Hc1).
    destruct (Hw k (Nat.lt_succ_diag_r k)) as (Hcode & Hprobe & Hel).
    destruct (wait_loop_turn fuel (clock s0) rst s1 p (q0 + k))
      as (s2 & Heq2 & Hh2 & Hp2 & Hc2); [done | lia | done | by rewrite Hp1 |].
    exists s2. replace (S k + fuel) with (k + S fuel) by lia.
    rewrite Heq, Heq2. split; [done |].
    split; [by rewrite Hh2, Nat.add_succ_r |].
    split; [lia |]. rewrite Hc2, Hc1, Hp1. cbn [elapsed]. lia.
Qed.

(** *** Outcomes of a restart *)

(** The last calls of [log] made on the way to [s'], given as
    (message, level) pairs, all stamped with the final clock reading. *)
Definition ends_with_logs (s' : launcher) (tail : list (string * string)) : Prop :=
  ∃ l0, logger s' =
    foldl (λ l (c : string * string),
             Logger.log (strftime E (clock s')) (isoformat E (clock s')) c.1 c.2 l)
          l0 tail.

(** The warning logged when the wait is exhausted; [t0] is the time at
    which the restart began. *)
Definition unresponsive_warning (t0 : N) (s' : launcher) : string :=
  "Process started but not responsive after 45s (total restart time: "
  +:+ fmt_secs E 2 (clock s' - t0) +:+ "s)".

(** What is logged about the worker's output log after an immediate
    exit. *)
Definition exit_note (r : read_result) : string :=
  match r with
  | LogText "" => "ComfyUI output log is empty"
  | LogText output =>
      "ComfyUI output (last 500 chars): " +:+ PyStr.last_chars 500 output
  | LogMissing => "ComfyUI output log file not found"
  | LogUnreadable msg => "Failed to read ComfyUI output log: " +:+ msg
  end.

Lemma confirm_immediate_exit rst dur s p c :
  comfyui_process s = Some {| h_proc := p; h_polls := 0 |} →
  exit_codes p 0 = Some c →
  (confirm_started E rst dur s).1 = Some false ∧
  ends_with_logs (confirm_started E rst dur s).2
    [("ComfyUI process exited immediately with code: " +:+ pretty c, "error");
     (exit_note (read_output_log E), "error")].
Proof.
  intros Hh Hc. unfold confirm_started. mrun.
  erewrite poll_exited_tracked by (cbn; exact Hh). rewrite Hc. mrun.
  unfold report_output_log, exit_note.
  destruct (read_output_log E) as [| msg | [| a output]]; mrun.
  all: split; [done | eexists; reflexivity].
Qed.

Lemma waiting_bound p q0 k0 k : waiting p q0 k0 k → k ≤ max_polls.
Proof.
  intros Hw. destruct k as [| k]; [unfold max_polls; lia |].
  destruct (Hw k (Nat.lt_succ_diag_r k)) as (_ & _ & Hlt).
  pose proof (elapsed_lower k0 k). unfold max_wait, max_polls in *. lia.
Qed.

Lemma confirm_wait rst dur s p k :
  comfyui_process s = Some {| h_proc := p; h_polls := 0 |} →
  exit_codes p 0 = None →
  waiting p 1 (probes s) k →
  let r := confirm_started E rst dur s in
  ((max_wait ≤ elapsed (probes s) k)%N → exit_codes p (S k) = None →
     r.1 = Some true ∧
     ends_with_logs r.2
       [(unresponsive_warning rst r.2, "warning");
        ("ComfyUI process is still running - may need more time to load", "info")]) ∧
  ((max_wait ≤ elapsed (probes s) k)%N → ∀ c, exit_codes p (S k) = Some c →
     r.1 = Some false ∧
     ends_with_logs r.2
       [(unresponsive_warning rst r.2, "warning");
        ("ComfyUI process has stopped - restart failed", "error")]) ∧
  ((elapsed (probes s) k < max_wait)%N → ∀ c, exit_codes p (S k) = Some c →
     r.1 = Some false ∧
     ends_with_logs r.2
       [("ComfyUI process died during startup (exit code: " +:+ pretty c +:+ ")",
         "error")]).
Proof.
  intros Hh Halive Hw r. subst r. unfold confirm_started. mrun.
  erewrite poll_exited_tracked by (cbn; exact Hh). rewrite Halive. mrun.
  pose proof (waiting_bound _ _ _ _ Hw) as Hk.
  match goal with
  | |- context [wait_loop E max_polls ?t rst ?s1] =>
      set (s1' := s1); set (ws := t)
  end.
  assert (ws = clock s1') as Hws by done.
  assert (comfyui_process s1' = Some {| h_proc := p; h_polls := 1 |}) as Hh1 by done.
  assert (probes s1' = probes s) as Hp1 by done.
  rewrite <- Hp1 in Hw |- *.
  split; [| split].
  - intros Hex Hcode.
    destruct (wait_loop_skip ws rst s1' p 1 k Hws Hh1 Hw (max_polls - k))
      as (s2 & Heq & Hh2 & Hp2 & Hc2).
    replace (k + (max_polls - k)) with max_polls in Heq by lia.
    rewrite Heq, wait_loop_exhausted by lia. mrun.
    unfold poll_running, poll. mrun. rewrite Hh2. mrun.
    change (1 + k) with (S k). rewrite Hcode. mrun.
    split; [done | eexists; reflexivity].
  - intros Hex c Hcode.
    destruct (wait_loop_skip ws rst s1' p 1 k Hws Hh1 Hw (max_polls - k))
      as (s2 & Heq & Hh2 & Hp2 & Hc2).
    replace (k + (max_polls - k)) with max_polls in Heq by lia.
    rewrite Heq, wait_loop_exhausted by lia. mrun.
    unfold poll_running, poll. mrun. rewrite Hh2. mrun.
    change (1 + k) with (S k). rewrite Hcode. mrun.
    split; [done | eexists; reflexivity].
  - intros Hlt c Hcode.
    pose proof (elapsed_lower (probes s1') k) as Hlow.
    assert (k < max_polls) as Hk' by (unfold max_wait, max_polls in *; lia).
    destruct (wait_loop_skip ws rst s1' p 1 k Hws Hh1 Hw (S (max_polls - S k)))
      as (s2 & Heq & Hh2 & Hp2 & Hc2).
    replace (k + S (max_polls - S k)) with max_polls in Heq by lia.
    rewrite Heq.
    erewrite wait_loop_died; [| exact Hh2 | lia | exact Hcode]. mrun.
    split; [done | eexists; reflexivity].
Qed.

Lemma restart_after_start s p :
  start_succeeds s p →
  ∃ s1 dur, restart_comfyui E s = confirm_started E (clock s) dur s1 ∧
            comfyui_process s1 = Some {| h_proc := p; h_polls := 0 |} ∧
            probes s1 = S (probes s).
Proof.
  intros Hstart.
  destruct (stop_and_start_ok s p Hstart) as (s1 & dur & Heq & Hh & Hp).
  exists s1, dur. split; [| done].
  unfold restart_comfyui. mrun. by rewrite Heq.
Qed.

(** *** The wait loop never runs out of fuel *)

Lemma poll_exited_clock s : clock (poll_exited s).2 = clock s.
Proof.
  unfold poll_exited, poll. mrun. by destruct (comfyui_process s).
Qed.

Lemma wait_loop_total fuel ws rst s :
  (ws ≤ clock s)%N →
  (2000 * N.of_nat (max_polls - fuel) ≤ clock s - ws)%N →
  fuel ≤ max_polls →
  (wait_loop E fuel ws rst s).1 ≠ OutOfFuel.
Proof.
  revert s. induction fuel as [| fuel IH]; intros s Hws Hel Hfuel.
  - rewrite wait_loop_exhausted; [done |]. unfold max_polls, max_wait in *. lia.
  - unfold wait_loop. fold (wait_loop E). mrun.
    destruct (N.ltb_spec (clock s - ws) max_wait); [| done]. mrun.
    match goal with
    | |- context [poll_exited ?s0] =>
        pose proof (poll_exited_clock s0) as Hclock;
        destruct (poll_exited s0) as [[c |] s1]
    end; cbn in Hclock; mrun; [done |].
    unfold is_comfyui_responsive.
    destruct (probe E (probes s1)) as [[] d]; mrun; [done |].
    apply IH; cbn; unfold max_polls in *; lia.
Qed.

Lemma confirm_started_total rst dur s : (confirm_started E rst dur s).1 ≠ None.
Proof.
  unfold confirm_started. mrun.
  destruct (poll_exited _) as [[c |] s1]; mrun.
  { by destruct (report_output_log E _). }
  match goal with
  | |- context [wait_loop E max_polls ?t rst ?s2] =>
      pose proof (wait_loop_total max_polls t rst s2) as Htot;
      destruct (wait_loop E max_polls t rst s2) as [[r | |] s3]
  end; mrun.
  - done.
  - by destruct (poll_running _) as [[] s4].
  - exfalso. apply Htot; cbn; [lia | lia | done | done].
Qed.

(** [restart_comfyui] always returns a verdict. *)
Lemma restart_comfyui_total s : (restart_comfyui E s).1 ≠ None.
Proof.
  unfold restart_comfyui. mrun.
  destruct (stop_and_start E s) as [[[rst []] dur] s1]; mrun; [| done].
  apply confirm_started_total.
Qed.

(** What the guard against a recursive spawn does catch: when some
    launch argument contains "watchdog", in any letter case,
    [start_comfyui] returns failure, performs no operating-system action
    (in particular no [Popen] call) and leaves the worker-process handle
    as it was, so unset if it was unset. *)
Theorem start_refuses_watchdog_args (s : launcher) :
  mentions_watchdog (comfyui_args s) = true →
  (start_comfyui E s).1 = false ∧
  effects (start_comfyui E s).2 = effects s ∧
  comfyui_process (start_comfyui E s).2 = comfyui_process s.
Proof.
  intros Hw. unfold start_comfyui. mrun. rewrite Hw. by mrun.
Qed.

(** C6: take a restart whose [start_comfyui] spawned the worker [p],
    found running after the settle time, and whose first [k] turns of
    the wait loop (one every two seconds plus the time of the probe,
    while less than 45 seconds have passed) find it running and not
    responsive.  If the 45 seconds are then used up, the restart
    returns success after a warning when the worker is still running,
    and failure when it is not; if instead the check of turn [k] finds
    that the worker has exited, the restart returns failure and logs
    that the process died during startup. *)
Theorem restart_wait_outcome (s : launcher) (p : popen) (k : nat) :
  start_succeeds s p →
  exit_codes p 0 = None →
  waiting p 1 (S (probes s)) k →
  let r := restart_comfyui E s in
  ((max_wait ≤ elapsed (S (probes s)) k)%N → exit_codes p (S k) = None →
     r.1 = Some true ∧
     ends_with_logs r.2
       [(unresponsive_warning (clock s) r.2, "warning");
        ("ComfyUI process is still running - may need more time to load", "info")]) ∧
  ((max_wait ≤ elapsed (S (probes s)) k)%N → ∀ c, exit_codes p (S k) = Some c →
     r.1 = Some false ∧
     ends_with_logs r.2
       [(unresponsive_warning (clock s) r.2, "warning");
        ("ComfyUI process has stopped - restart failed", "error")]) ∧
  ((elapsed (S (probes s)) k < max_wait)%N → ∀ c, exit_codes p (S k) = Some c →
     r.1 = Some false ∧
     ends_with_logs r.2
       [("ComfyUI process died during startup (exit code: " +:+ pretty c +:+ ")",
         "error")]).
Proof.
  intros Hstart Halive Hw r. subst r.
  destruct (restart_after_start s p Hstart) as (s1 & dur & -> & Hh & Hp).
  rewrite <- Hp in *. exact (confirm_wait (clock s) dur s1 p k Hh Halive Hw).
Qed.

(** C7 (amended): when the freshly started worker [p] has an exit code
    at the check made after the two-second settle time, the restart
    returns failure after logging, as errors, that the process exited
    immediately with that code and then one line about the worker's
    output log: its last 500 characters when the log could be read and
    is not empty, and otherwise that it is empty, missing or could not
    be read. *)
Theorem restart_immediate_exit (s : launcher) (p : popen) (c : Z) :
  start_succeeds s p →
  exit_codes p 0 = Some c →
  let r := restart_comfyui E s in
  r.1 = Some false ∧
  ends_with_logs r.2
    [("ComfyUI process exited immediately with code: " +:+ pretty c, "error");
     (exit_note (read_output_log E), "error")].
Proof.
  intros Hstart Hc r. subst r.
  destruct (restart_after_start s p Hstart) as (s1 & dur & -> & Hh & Hp).
  exact (confirm_immediate_exit (clock s) dur s1 p c Hh Hc).
Qed.

End WithEnv.

(** *** A concrete run *)

Definition worker (codes : nat → option Z) : popen :=
  {| pid := 4242; exit_codes := codes; terminate_raises := None;
     wait_10 := Exits 0; kill_wait := 0 |}.

Definition demo_env (p : popen) (answers : nat → bool * N) (rd : read_result) : env :=
  {| os_name := "posix";
     strftime := λ _, "2025-01-01 00:00:00";
     isoformat := λ _, "2025-01-01T00:00:00";
     fmt_secs := λ _ ms, pretty ms;
     repr_list := PyStr.join ", ";
     output_log_path := "comfyui_output.log";
     probe := answers;
     open_output_log := None;
     spawn := λ _ _, Spawned p;
     read_output_log := rd;
     process_table := [];
     orphan_stops := λ _, (true, 0%N) |}.

Definition demo_state (args : list string) : launcher :=
  {| logger := Logger.init;
     python_executable := "python";
     comfyui_args := args;
     comfyui_dir := "/opt/ComfyUI";
     working_directory := "/opt/ComfyUI";
     comfyui_port := 8188;
     comfyui_process := None;
     clock := 0;
     probes := 0;
     effects := [] |}.

Definition main_args : list string := ["main.py"; "--port"; "8188"].

(** Probes that time out after ten seconds. *)
Definition silent : nat → bool * N := λ _, (false, 10000%N).

Definition alive_until (n : nat) (code : Z) : nat → option Z :=
  λ q, if q <? n then None else Some code.

Lemma start_refuses_watchdog_args_witness :
  let s := demo_state ["main.py"; "C:\tools\ComfyUI_Watchdog.py"] in
  let E := demo_env (worker (λ _, None)) silent LogMissing in
  (start_comfyui E s).1 = false ∧
  effects (start_comfyui E s).2 = [] ∧
  comfyui_process (start_comfyui E s).2 = None.
Proof.
  intros s E. apply (start_refuses_watchdog_args E s). reflexivity.
Defined.

(** C2, at the failing input: the supervisor's own script is
    [launcher_service.py], and the guard of [start_comfyui] looks for the
    word "watchdog".  With the script named in the launch arguments the
    guard stays silent: [start_comfyui] returns success, the one
    operating-system action is a [Popen] of the interpreter on
    [launcher_service.py], and the process it returned is tracked as the
    worker. *)
Theorem start_spawns_supervisor_script :
  let args := ["launcher_service.py"; "--api-port"; "9188"] in
  let E := demo_env (worker (λ _, None)) silent LogMissing in
  let s := demo_state args in
  mentions_watchdog args = false ∧
  (start_comfyui E s).1 = true ∧
  effects (start_comfyui E s).2 =
    [PopenCall ["python"; "launcher_service.py"; "--api-port"; "9188"] (start_cwd E s)] ∧
  comfyui_process (start_comfyui E s).2 =
    Some {| h_proc := worker (λ _, None); h_polls := 0 |}.
Proof.
  intros args E s. split; [reflexivity |].
  split; [vm_compute; reflexivity |]. split; vm_compute; reflexivity.
Qed.

Lemma waiting_silent p n k :
  (∀ j, j < k → exit_codes p (1 + j) = None) →
  k ≤ 4 →
  waiting (demo_env p silent LogMissing) p 1 n k.
Proof.
  intros Hcodes Hk j Hj. split; [by apply Hcodes |]. split; [done |].
  do 4 (destruct j as [| j]; [by vm_compute |]). lia.
Defined.

Lemma restart_wait_outcome_witness :
  (restart_comfyui (demo_env (worker (λ _, None)) silent LogMissing)
     (demo_state main_args)).1 = Some true ∧
  (restart_comfyui (demo_env (worker (alive_until 5 1)) silent LogMissing)
     (demo_state main_args)).1 = Some false ∧
  (restart_comfyui (demo_env (worker (alive_until 2 1)) silent LogMissing)
     (demo_state main_args)).1 = Some false.
Proof.
  split; [| split].
  - pose proof (restart_wait_outcome (demo_env (worker (λ _, None)) silent LogMissing)
                  (demo_state main_args) (worker (λ _, None)) 4) as H.
    assert (start_succeeds (demo_env (worker (λ _, None)) silent LogMissing)
              (demo_state main_args) (worker (λ _, None))) as Hstart
      by (repeat split).
    pose proof (waiting_silent (worker (λ _, None)) (S (probes (demo_state main_args))) 4
                  (λ _ _, eq_refl) ltac:(lia)) as Hw.
    specialize (H Hstart eq_refl Hw).
    cbv zeta in H. destruct H as (Halive & _ & _).
    assert ((max_wait ≤ elapsed (demo_env (worker (λ _, None)) silent LogMissing)
                          (S (probes (demo_state main_args))) 4)%N) as Hex
      by (by vm_compute).
    exact (proj1 (Halive Hex eq_refl)).
  - pose proof (restart_wait_outcome (demo_env (worker (alive_until 5 1)) silent LogMissing)
                  (demo_state main_args) (worker (alive_until 5 1)) 4) as H.
    assert (start_succeeds (demo_env (worker (alive_until 5 1)) silent LogMissing)
              (demo_state main_args) (worker (alive_until 5 1))) as Hstart
      by (repeat split).
    assert (∀ j, j < 4 → exit_codes (worker (alive_until 5 1)) (1 + j) = None) as Hcodes.
    { intros j Hj. do 4 (destruct j as [| j]; [reflexivity |]). lia. }
    pose proof (waiting_silent (worker (alive_until 5 1))
                  (S (probes (demo_state main_args))) 4 Hcodes ltac:(lia)) as Hw.
    specialize (H Hstart eq_refl Hw).
    cbv zeta in H. destruct H as (_ & Hdead & _).
    assert ((max_wait ≤ elapsed (demo_env (worker (alive_until 5 1)) silent LogMissing)
                          (S (probes (demo_state main_args))) 4)%N) as Hex
      by (by vm_compute).
    exact (proj1 (Hdead Hex 1%Z eq_refl)).
  - pose proof (restart_wait_outcome (demo_env (worker (alive_until 2 1)) silent LogMissing)
                  (demo_state main_args) (worker (alive_until 2 1)) 1) as H.
    assert (start_succeeds (demo_env (worker (alive_until 2 1)) silent LogMissing)
              (demo_state main_args) (worker (alive_until 2 1))) as Hstart
      by (repeat split).
    assert (∀ j, j < 1 → exit_codes (worker (alive_until 2 1)) (1 + j) = None) as Hcodes.
    { intros j Hj. destruct j as [| j]; [reflexivity | lia]. }
    pose proof (waiting_silent (worker (alive_until 2 1))
                  (S (probes (demo_state main_args))) 1 Hcodes ltac:(lia)) as Hw.
    specialize (H Hstart eq_refl Hw).
    cbv zeta in H. destruct H as (_ & _ & Hdied).
    assert ((elapsed (demo_env (worker (alive_until 2 1)) silent LogMissing)
               (S (probes (demo_state main_args))) 1 < max_wait)%N) as Hlt
      by (by vm_compute).
    exact (proj1 (Hdied Hlt 1%Z eq_refl)).
Defined.

Lemma restart_immediate_exit_witness :
  let E := demo_env (worker (λ _, Some 1%Z)) silent (LogText "Traceback: boom") in
  (restart_comfyui E (demo_state main_args)).1 = Some false ∧
  ends_with_logs E (restart_comfyui E (demo_state main_args)).2
    [("ComfyUI process exited immediately with code: 1", "error");
     ("ComfyUI output (last 500 chars): Traceback: boom", "error")].
Proof.
  intros E.
  assert (start_succeeds E (demo_state main_args) (worker (λ _, Some 1%Z))) as Hstart
    by (repeat split).
  exact (restart_immediate_exit E (demo_state main_args) (worker (λ _, Some 1%Z)) 1%Z
           Hstart eq_refl).
Defined.

(** The claim of C7 as it is worded: some entry logged by the restart
    carries the last 500 characters of the worker's output log. *)
Definition captures_output_tail (s' : launcher) : Prop :=
  ∃ e output, e ∈ Logger.log_buffer (logger s') ∧
    Logger.message e = "ComfyUI output (last 500 chars): " +:+ PyStr.last_chars 500 output.

(** C7, counterexample: the worker exits at once and its output log
    cannot be decoded; the restart fails, and nothing it logged holds a
    tail of the output log. *)
Lemma restart_immediate_exit_unreadable_log :
  let E := demo_env (worker (λ _, Some 1%Z)) silent
             (LogUnreadable "'utf-8' codec can't decode byte 0xb0") in
  let r := restart_comfyui E (demo_state main_args) in
  exit_codes (worker (λ _, Some 1%Z)) 0 = Some 1%Z ∧
  r.1 = Some false ∧
  ¬ captures_output_tail r.2.
Proof.
  intros E r. split; [reflexivity |]. split; [vm_compute; reflexivity |].
  intros (e & output & He & Hmsg).
  assert (PyStr.startswith (Logger.message e) "ComfyUI output (last 500 chars): " = true)
    as Hpre by (rewrite Hmsg; apply PyStrFacts.startswith_app).
  assert (forallb (λ e, negb (PyStr.startswith (Logger.message e)
                                "ComfyUI output (last 500 chars): "))
            (Logger.log_buffer (logger r.2)) = true) as Hall
    by (vm_compute; reflexivity).
  rewrite forallb_forall in Hall. apply list_elem_of_In in He.
  specialize (Hall e He). rewrite Hpre in Hall. discriminate Hall.
Qed.

End RestartFacts.

(** ** The directory tree *)
Module FSFacts.
Import FS.

Lemma assoc_set_eq k v es : assoc k (assoc_set k v es) = Some v.
Proof.
  induction es as [| [n x] es IH]; simpl.
  - by rewrite String.eqb_refl.
  - destruct (String.eqb n k) eqn:E; simpl; by rewrite E.
Qed.

Lemma assoc_set_ne k k' v es : k ≠ k' → assoc k (assoc_set k' v es) = assoc k es.
Proof.
  intros Hne. induction es as [| [n x] es IH]; simpl.
  - destruct (String.eqb_spec k' k); congruence.
  - destruct (String.eqb_spec n k'); simpl.
    + subst n. destruct (String.eqb_spec k' k); congruence.
    + by rewrite IH.
Qed.

Lemma assoc_del_eq k es : assoc k (assoc_del k es) = None.
Proof.
  induction es as [| [n x] es IH]; simpl; [done |].
  destruct (String.eqb n k) eqn:E; simpl; [done | by rewrite E].
Qed.

Lemma assoc_del_ne k k' es : k ≠ k' → assoc k (assoc_del k' es) = assoc k es.
Proof.
  intros Hne. induction es as [| [n x] es IH]; simpl; [done |].
  destruct (String.eqb_spec n k'); simpl.
  - subst n. destruct (String.eqb_spec k' k); congruence.
  - by rewrite IH.
Qed.

Lemma assoc_Some_elem k v es : assoc k es = Some v → (k, v) ∈ es.
Proof.
  induction es as [| [n x] es IH]; simpl; [done |].
  destruct (String.eqb_spec n k); intros H.
  - injection H as ->. subst. apply list_elem_of_here.
  - apply list_elem_of_further. auto.
Qed.

Lemma assoc_None_names k es : assoc k es = None → k ∉ es.*1.
Proof.
  induction es as [| [n x] es IH]; simpl; [intros _; apply not_elem_of_nil |].
  destruct (String.eqb_spec n k); [done |]. intros H.
  apply not_elem_of_cons. split; [congruence | auto].
Qed.

Lemma assoc_NoDup k v es : NoDup es.*1 → (k, v) ∈ es → assoc k es = Some v.
Proof.
  induction es as [| [n x] es IH]; simpl; intros Hnd Hin.
  { by apply elem_of_nil in Hin. }
  apply NoDup_cons in Hnd as [Hn Hnd].
  apply elem_of_cons in Hin as [Heq | Hin].
  - injection Heq as -> ->. by rewrite String.eqb_refl.
  - destruct (String.eqb_spec n k) as [-> | Hne]; [| auto].
    exfalso. apply Hn. by apply (list_elem_of_fmap_2 fst _ (k, v)).
Qed.

End FSFacts.

(** ** Update service *)
Module UpdaterFacts.
Import FS Updater.

Local Arguments assoc : simpl never.
Local Arguments assoc_set : simpl never.
Local Arguments assoc_del : simpl never.
Local Arguments String.append : simpl never.
Local Arguments PyStr.lower : simpl never.
Local Arguments String.eqb : simpl never.
Local Arguments write_file : simpl never.
Local Arguments rmtree : simpl never.
Local Arguments makedirs : simpl never.
Local Arguments exists_ : simpl never.

Ltac trun :=
  repeat progress
    (unfold mbind, T_bind, mret, T_ret, logger, fs_op, update, read, raise,
       set_downloading, set_progress, set_error, set_fs, add_log, add_request,
       temp_zip, temp_extract_dir, staging_dir;
     cbn).

Section WithEnv.
Variable E : env.

(** The [status] entry of the dictionary [get_update_status] returns. *)
Definition reported (s : service) : res string :=
  match get_update_status E s with
  | Ok r => Ok (status r)
  | Raise e => Raise e
  end.

(** The status as the specification words it: error, else downloading,
    else ready when the staging directory is populated and holds no
    archive, else idle. *)
Definition status_as_claimed (s : service) : string :=
  if PyStr.truthy_opt (last_error s) then "error"
  else if is_downloading s then "downloading"
  else
    match get staging_dir (fs s) with
    | Some (Dir (_ :: _)) =>
        if exists_ temp_zip (fs s) then "idle" else "ready_to_restart"
    | _ => "idle"
    end.

(** C9 (amended): as long as the staging path is not a plain file,
    [get_update_status] reports exactly one status, by this precedence: a
    non-empty error field gives "error"; else a download in progress gives
    "downloading"; else a populated staging directory gives
    "ready_to_restart" when it holds no [update.zip] and "downloading" when
    it still holds one; else, with the staging directory absent or empty,
    "idle". *)
Theorem status_precedence (s : service) :
  is_file staging_dir (fs s) = false →
  (PyStr.truthy_opt (last_error s) = true → reported s = Ok "error") ∧
  (PyStr.truthy_opt (last_error s) = false → is_downloading s = true →
     reported s = Ok "downloading") ∧
  (PyStr.truthy_opt (last_error s) = false → is_downloading s = false →
     (∀ es, get staging_dir (fs s) = Some (Dir es) → es ≠ [] →
        (get temp_zip (fs s) = None → reported s = Ok "ready_to_restart") ∧
        (is_Some (get temp_zip (fs s)) → reported s = Ok "downloading")) ∧
     (get staging_dir (fs s) = None ∨ get staging_dir (fs s) = Some (Dir []) →
        reported s = Ok "idle")).
Proof.
  intros Hfile.
  assert (∃ b, staging_populated (fs s) = Ok b ∧
               (b = true ↔ ∃ es, get staging_dir (fs s) = Some (Dir es) ∧ es ≠ []))
    as (b & Hpop & Hb).
  { unfold staging_populated, exists_, iterdir, is_file in *.
    destruct (get staging_dir (fs s)) as [[d m | es] |]; [done | |].
    - eexists. split; [reflexivity |]. rewrite bool_decide_eq_true.
      split.
      + intros Hne. exists es. split; [done |]. by destruct es.
      + intros (es' & [= <-] & Hne). by destruct es.
    - exists false. split; [done |]. split; [done |]. by intros (? & ? & _). }
  unfold reported, get_update_status, derive_status. rewrite Hpop.
  split; [| split].
  - by intros ->.
  - by intros -> ->.
  - intros -> ->. split.
    + intros es Hes Hne.
      assert (b = true) as -> by (apply Hb; eauto).
      unfold exists_. split.
      * by intros ->.
      * by intros [v ->].
    + intros Hempty.
      assert (b = false) as ->.
      { destruct b; [| done]. destruct Hb as [Hb _].
        destruct (Hb eq_refl) as (es & Hes & Hne).
        destruct Hempty as [Hn | Hn]; rewrite Hn in Hes; congruence. }
      done.
Qed.

(** *** A download whose hash does not match *)

Abbreviation k := ".update_staging" (only parsing).

(** During a download thread the flags keep the values
    [start_download] gave them. *)
Definition in_flight (x : service) : Prop :=
  is_downloading x = true ∧ last_error x = None.

Lemma append_nil_r w : w +:+ "" = w.
Proof. induction w as [| a w IH]; [done |]. change (String a (w +:+ "") = String a w). by rewrite IH. Qed.

Lemma append_assoc a b c : (a +:+ b) +:+ c = a +:+ (b +:+ c).
Proof.
  induction a as [| x a IH]; [done |].
  change (String x ((a +:+ b) +:+ c) = String x (a +:+ (b +:+ c))). by rewrite IH.
Qed.

Lemma write_zip rs w t data now :
  assoc k rs = Some (Dir [("update.zip", File w t)]) →
  write_file [k; "update.zip"] data now (Dir rs) =
    Ok (Dir (assoc_set k (Dir [("update.zip", File data now)]) rs)).
Proof.
  intros Hk. unfold write_file, put_or. cbn.
  rewrite Hk. cbn. unfold assoc at 1. cbn. done.
Qed.

Lemma receive_ok cs : ∀ total d w dl pr err rs lg rq h,
  assoc k rs = Some (Dir [("update.zip", File w (now E))]) →
  ∃ pr' rs' h',
    receive E total d w cs (Service dl pr err (Dir rs) lg rq, h) =
      (Ok (w +:+ foldr String.append "" cs),
       (Service dl pr' err (Dir rs') lg rq, h ++ h')) ∧
    assoc k rs' = Some (Dir [("update.zip",
                              File (w +:+ foldr String.append "" cs) (now E))]) ∧
    Forall (λ x, is_downloading x = dl ∧ last_error x = err) h'.
Proof.
  induction cs as [| chunk cs IH]; intros total d w dl pr err rs lg rq h Hk.
  - exists pr, rs, []. cbn. rewrite append_nil_r, app_nil_r. by repeat split.
  - cbn [receive foldr].
    destruct (PyStr.truthy chunk) eqn:Hchunk.
    + trun. erewrite write_zip by exact Hk. trun.
      destruct (0 <? total)%Z; trun.
      * edestruct (IH total (d + Z.of_nat (String.length chunk))%Z (w +:+ chunk)
                     dl (percent E (d + Z.of_nat (String.length chunk)) total) err)
          as (pr' & rs' & h' & -> & Hk' & Hall).
        { apply FSFacts.assoc_set_eq. }
        eexists pr', rs', (_ :: _ :: h'). rewrite append_assoc in *.
        split; [by rewrite <- !app_assoc |]. split; [done |].
        repeat (apply Forall_cons; split; [done |]). done.
      * edestruct (IH total (d + Z.of_nat (String.length chunk))%Z (w +:+ chunk)
                     dl pr err)
          as (pr' & rs' & h' & -> & Hk' & Hall).
        { apply FSFacts.assoc_set_eq. }
        eexists pr', rs', (_ :: h'). rewrite append_assoc in *.
        split; [by rewrite <- !app_assoc |]. split; [done |].
        repeat (apply Forall_cons; split; [done |]). done.
    + destruct chunk; [| done]. change ("" +:+ foldr String.append "" cs)
        with (foldr String.append "" cs).
      by apply IH.
Qed.
Lemma rmtree_staging rs :
  is_file [k] (Dir rs) = false → exists_ [k] (Dir rs) = true →
  rmtree [k] (Dir rs) = Ok (Dir (assoc_del k rs)).
Proof.
  unfold is_file, exists_, rmtree. cbn.
  destruct (assoc k rs) as [[d m | es] |]; done.
Qed.

Lemma exists_staging_false rs : exists_ [k] (Dir rs) = false → assoc k rs = None.
Proof. unfold exists_. cbn. by destruct (assoc k rs). Qed.

Lemma makedirs_absent rs :
  assoc k rs = None → makedirs [k] (Dir rs) = Ok (Dir (assoc_set k (Dir []) rs)).
Proof. intros Hk. unfold makedirs. cbn. by rewrite Hk. Qed.

Lemma write_zip_fresh rs data now :
  assoc k rs = Some (Dir []) →
  write_file [k; "update.zip"] data now (Dir rs) =
    Ok (Dir (assoc_set k (Dir [("update.zip", File data now)]) rs)).
Proof.
  intros Hk. unfold write_file, put_or. cbn.
  rewrite Hk. cbn. unfold assoc at 1. cbn. done.
Qed.

Lemma derive_status_in_flight x :
  is_downloading x = true ∨ PyStr.truthy_opt (last_error x) = true →
  derive_status x ≠ Ok "ready_to_restart".
Proof.
  unfold derive_status. intros [Hd | He].
  - rewrite Hd. by destruct (PyStr.truthy_opt _).
  - by rewrite He.
Qed.

Lemma truthy_integrity_message h c : PyStr.truthy (integrity_message h c) = true.
Proof. done. Qed.

(** C5 (amended): a download that was accepted, received its bytes, and was given a
    non-empty expected hash that differs, letter case aside, from the
    SHA-256 of the bytes ends with the integrity error: nothing is
    extracted (the staging directory holds the archive alone), the error
    text is left in [last_error], the status is "error" afterwards and was
    never "ready_to_restart" in any state the service went through, and
    the URL was requested once. *)
Theorem hash_mismatch_aborts (url h : string) (resp : response) (s : service)
    (rs : list (string * node)) :
  fs s = Dir rs →
  is_file staging_dir (fs s) = false →
  is_downloading s = false →
  http_get E url = inr resp →
  (∀ text, content_length resp ≠ Malformed text) →
  stream_error resp = None →
  PyStr.truthy h = true →
  PyStr.lower (sha256_hex E (body resp)) ≠ PyStr.lower h →
  let msg := integrity_message h (sha256_hex E (body resp)) in
  ∃ s' hist,
    download_run E url (Some h) s = Some (Failed (ValueError msg), (s', hist)) ∧
    last_error s' = Some msg ∧
    is_downloading s' = false ∧
    get staging_dir (fs s') = Some (Dir [("update.zip", File (body resp) (now E))]) ∧
    logged s' = logged s ++
      [("Starting update download from " +:+ url, "info");
       ("Expected SHA256: " +:+ h, "debug");
       ("Update download failed: " +:+ msg, "error")] ∧
    requested s' = requested s ++ [url] ∧
    derive_status s' = Ok "error" ∧
    Forall (λ x, derive_status x ≠ Ok "ready_to_restart") hist.
Proof.
  intros Hfs Hfile Hdl Hget Hlen Hstream Hh Hneq msg.
  destruct s as [dl pr err t lg rq]. cbn in Hfs, Hfile, Hdl. subst t dl.
  unfold download_run, start_download. trun.
  unfold download_task, download_body. rewrite Hh. trun.
  assert (∃ rs0, assoc k rs0 = None ∧
            ((exists_ [k] (Dir rs) = true ∧ rmtree [k] (Dir rs) = Ok (Dir rs0)) ∨
             (exists_ [k] (Dir rs) = false ∧ rs0 = rs))) as (rs0 & Hk0 & Hclean).
  { destruct (exists_ [k] (Dir rs)) eqn:Hex.
    - exists (assoc_del k rs). split; [apply FSFacts.assoc_del_eq |].
      left. split; [done |]. by apply rmtree_staging.
    - exists rs. split; [by apply exists_staging_false |]. by right. }
  assert (content_length resp = NoHeader ∨ ∃ n, content_length resp = Length n) as Hcl.
  { destruct (content_length resp) as [| n | text]; [by left | right; eauto |].
    by destruct (Hlen text). }
  set (P := λ x : service, derive_status x ≠ Ok "ready_to_restart").
  assert (∀ dl' pr' err' t' lg' rq',
            dl' = true ∨ PyStr.truthy_opt err' = true →
            P (Service dl' pr' err' t' lg' rq')) as HP.
  { intros. by apply derive_status_in_flight. }
  destruct Hclean as [[-> Hrm] | [-> ->]].
  all: trun; try rewrite Hrm; trun.
  all: rewrite (makedirs_absent _ Hk0); trun.
  all: rewrite Hget; trun.
  all: destruct Hcl as [-> | [n ->]]; trun.
  all: rewrite write_zip_fresh by apply FSFacts.assoc_set_eq; trun.
  all: match goal with
       | |- context [receive E ?total ?d0 ?w0 ?cs (Service ?dl ?pr ?err (Dir ?rs1) ?lg ?rq, ?h)] =>
           destruct (receive_ok cs total d0 w0 dl pr err rs1 lg rq h)
             as (pr' & rs' & h' & -> & Hk' & Hall); [apply FSFacts.assoc_set_eq |]
       end.
  all: change ("" +:+ foldr String.append "" (chunks resp)) with (body resp) in *.
  all: rewrite Hstream; trun.
  all: destruct (String.eqb_spec (PyStr.lower (sha256_hex E (body resp))) (PyStr.lower h));
       [done |]; trun.
  all: eexists _, _; split; [reflexivity |]; cbn.
  all: rewrite Hk'.
  all: split; [reflexivity |]; split; [reflexivity |]; split; [reflexivity |].
  all: split; [by rewrite <- !app_assoc |]; split; [reflexivity |].
  all: split; [reflexivity |].
  all: repeat (rewrite Forall_cons || rewrite Forall_app || rewrite Forall_nil).
  all: repeat split; try (apply HP; by auto).
  all: eapply Forall_impl; [exact Hall |]; intros [] [? ?]; apply HP; by auto.
Qed.
End WithEnv.

(** *** Concrete runs *)

(** An environment in which every download delivers two chunks and the
    archive decodes to [ms]. *)
Definition demo_env (ms : list zip_member) : env :=
  {| http_get := λ _, inr {| content_length := Length 4;
                             chunks := ["PK"; ""; "zz"];
                             stream_error := None |};
     sha256_hex := λ _, "ABCDEF";
     percent := λ d t, (d * 100 / t)%Z;
     unzip := λ _, Some ms;
     json_version := λ _, Some (Some "1.2.9");
     now := 7 |}.

Definition demo_response : response :=
  {| content_length := Length 4; chunks := ["PK"; ""; "zz"]; stream_error := None |}.

(** A staging directory that still holds the downloaded archive. *)
Definition residual_state : service :=
  init (Dir [(".update_staging",
              Dir [("update.zip", File "PK" 1); ("launcher.py", File "x" 1)])]).

Lemma status_precedence_witness :
  reported (demo_env []) residual_state = Ok "downloading".
Proof.
  pose proof (status_precedence (demo_env []) residual_state eq_refl) as (_ & _ & H).
  destruct (H eq_refl eq_refl) as [Hpop _].
  destruct (Hpop [("update.zip", File "PK" 1); ("launcher.py", File "x" 1)]
              eq_refl ltac:(discriminate)) as [_ Hres].
  apply Hres. by eexists.
Defined.

(** C9, counterexample: no error, no download in progress, and a staging
    directory that is populated but still holds [update.zip].  The claim
    puts this state under "every other state" and so under "idle"; the
    code reports "downloading". *)
Lemma status_residual_archive :
  PyStr.truthy_opt (last_error residual_state) = false ∧
  is_downloading residual_state = false ∧
  status_as_claimed residual_state = "idle" ∧
  reported (demo_env []) residual_state = Ok "downloading".
Proof. repeat split. Qed.

Lemma hash_mismatch_aborts_witness :
  ∃ s' hist,
    download_run (demo_env []) "https://example.org/update.zip" (Some "abcdee")
      (init (Dir [])) =
      Some (Failed (ValueError (integrity_message "abcdee" "ABCDEF")), (s', hist)) ∧
    derive_status s' = Ok "error" ∧
    Forall (λ x, derive_status x ≠ Ok "ready_to_restart") hist.
Proof.
  destruct (hash_mismatch_aborts (demo_env []) "https://example.org/update.zip" "abcdee"
              demo_response (init (Dir [])) [] eq_refl eq_refl eq_refl eq_refl
              ltac:(discriminate) eq_refl eq_refl ltac:(discriminate))
    as (s' & hist & Hrun & _ & _ & _ & _ & _ & Hst & Hall).
  exists s', hist. split; [exact Hrun |]. split; [exact Hst | exact Hall].
Defined.

(** C5, counterexample: the expected hash is the empty string, which
    differs from the SHA-256 of the bytes received.  The task verifies
    only when [expected_hash] is non-empty, so this run is not aborted:
    it extracts the archive, records no error and ends with the status
    "ready_to_restart". *)
Lemma empty_expected_hash_is_not_checked :
  PyStr.lower (sha256_hex (demo_env [ZipMember "launcher.py" "A";
                                     ZipMember "version.json" "B"])
                 (body demo_response)) ≠ PyStr.lower "" ∧
  ∃ s' hist,
    download_run (demo_env [ZipMember "launcher.py" "A"; ZipMember "version.json" "B"])
      "https://example.org/update.zip" (Some "") (init (Dir [])) =
      Some (Completed, (s', hist)) ∧
    last_error s' = None ∧
    get (staging_dir ++ ["launcher.py"]) (fs s') = Some (File "A" 7) ∧
    derive_status s' = Ok "ready_to_restart".
Proof.
  split; [discriminate |].
  eexists _, _. split; [vm_compute; reflexivity |]. repeat split.
Qed.

(** C3, at the failing input: an archive whose two entries, [root/app.py]
    and [root/api.py], all lie under [root/].  Their common prefix by
    characters is [root/ap], which names no directory: the listing of it
    raises, the task ends in the error state, nothing is hoisted into the
    staging directory and the archive is not removed. *)
Theorem extraction_fails_on_shared_name_prefix :
  let ms := [ZipMember "root/app.py" "A"; ZipMember "root/api.py" "B"] in
  ∃ s' hist,
    download_run (demo_env ms) "https://example.org/update.zip" None (init (Dir [])) =
      Some (Failed (FileNotFoundError
                      [".update_staging"; "_temp_extract"; "root"; "ap"]),
            (s', hist)) ∧
    PyStr.commonprefix (zname <$> ms) = "root/ap" ∧
    get staging_dir (fs s') =
      Some (Dir [("update.zip", File "PKzz" 7);
                 ("_temp_extract",
                  Dir [("root", Dir [("app.py", File "A" 7); ("api.py", File "B" 7)])])]) ∧
    get (staging_dir ++ ["app.py"]) (fs s') = None ∧
    derive_status s' = Ok "error".
Proof.
  intros ms. eexists _, _. split; [vm_compute; reflexivity |].
  repeat split.
Qed.

End UpdaterFacts.

(** ** Bootstrap update *)
Module BootstrapFacts.
Import FS Bootstrap.

Local Arguments assoc : simpl never.
Local Arguments assoc_set : simpl never.
Local Arguments assoc_del : simpl never.
Local Arguments String.eqb : simpl never.

Abbreviation k := ".update_staging" (only parsing).

(** The [shutil] calls that install one staged entry over a root whose
    entries are [rs]. *)
Definition entry_ops (rs : list (string * node)) (e : string * node) : list op :=
  match e.2 with
  | File _ _ => [Copy2 [k; e.1] [e.1]]
  | Dir _ =>
      match assoc e.1 rs with
      | Some _ => [Rmtree [e.1]; Copytree [k; e.1] [e.1]]
      | None => [Copytree [k; e.1] [e.1]]
      end
  end.

(** A staged entry can be installed without an exception: it is not the
    staging directory's own name, a staged file meets no directory and a
    staged directory meets no file, and [version.json] is a file. *)
Definition installable (rs : list (string * node)) (e : string * node) : Prop :=
  e.1 ≠ k ∧
  match e.2 with
  | File _ _ => match assoc e.1 rs with Some (Dir _) => False | _ => True end
  | Dir _ =>
      e.1 ≠ "version.json" ∧
      match assoc e.1 rs with Some (File _ _) => False | _ => True end
  end.

Lemma apply_entry_ok es_all rs tr name item :
  assoc k rs = Some (Dir es_all) →
  assoc name es_all = Some item →
  installable rs (name, item) →
  ∃ rs', apply_entry name (Dir rs, tr) = (None, (Dir rs', tr ++ entry_ops rs (name, item))) ∧
         assoc name rs' = Some item ∧
         (∀ n, n ≠ name → assoc n rs' = assoc n rs).
Proof.
  intros Hk Hitem [Hne Hcompat]. cbn in Hne, Hcompat.
  unfold apply_entry, entry_ops. cbn [fst snd].
  destruct item as [d m | es].
  - assert (copy2 [k; name] [name] (Dir rs) = Ok (Dir (assoc_set name (File d m) rs)))
      as Hcopy.
    { unfold copy2, is_dir, put_or. cbn. rewrite Hk. cbn. rewrite Hitem.
      destruct (assoc name rs) as [[d' m' | es'] |] eqn:Hroot; [| done |].
      all: rewrite decide_False by discriminate; cbn; by rewrite Hroot. }
    exists (assoc_set name (File d m) rs).
    split; [| split; [apply FSFacts.assoc_set_eq | intros; by apply FSFacts.assoc_set_ne]].
    destruct (String.eqb_spec name "version.json") as [-> | Hv].
    + cbn in *. by rewrite Hcopy.
    + unfold is_dir. cbn. rewrite Hk. cbn. rewrite Hitem. by rewrite Hcopy.
  - destruct Hcompat as [Hv Hcompat].
    destruct (String.eqb_spec name "version.json") as [-> | _]; [done |].
    unfold is_dir, exists_. cbn. rewrite Hk. cbn. rewrite Hitem.
    destruct (assoc name rs) as [[d' m' | es'] |] eqn:Hroot; [done | |].
    + exists (assoc_set name (Dir es) (assoc_del name rs)).
      unfold rmtree, copytree, put_or. cbn. rewrite Hroot.
      cbn. rewrite FSFacts.assoc_del_ne by done. rewrite Hk. cbn. rewrite Hitem.
      rewrite FSFacts.assoc_del_eq. cbn.
      split; [done |]. split; [apply FSFacts.assoc_set_eq |].
      intros n Hn. rewrite FSFacts.assoc_set_ne by done. by apply FSFacts.assoc_del_ne.
    + exists (assoc_set name (Dir es) rs).
      unfold copytree, put_or. cbn. rewrite Hk. cbn. rewrite Hitem, Hroot. cbn.
      split; [done |]. split; [apply FSFacts.assoc_set_eq |].
      intros n Hn. by apply FSFacts.assoc_set_ne.
Qed.

Lemma installable_ext rs rs1 e :
  assoc e.1 rs1 = assoc e.1 rs → installable rs e → installable rs1 e.
Proof. unfold installable. by intros ->. Qed.

Lemma entry_ops_ext rs rs1 e :
  assoc e.1 rs1 = assoc e.1 rs → entry_ops rs1 e = entry_ops rs e.
Proof. unfold entry_ops. by intros ->. Qed.

Lemma apply_entries_ok es_all todo : ∀ rs tr,
  assoc k rs = Some (Dir es_all) →
  (∀ e, e ∈ todo → assoc e.1 es_all = Some e.2) →
  NoDup todo.*1 →
  Forall (installable rs) todo →
  ∃ rs', apply_entries todo.*1 (Dir rs, tr) =
           (None, (Dir rs', tr ++ concat (entry_ops rs <$> todo))) ∧
         assoc k rs' = Some (Dir es_all) ∧
         (∀ e, e ∈ todo → assoc e.1 rs' = Some e.2) ∧
         (∀ n, n ∉ todo.*1 → assoc n rs' = assoc n rs).
Proof.
  induction todo as [| [name item] todo IH]; intros rs tr Hk Hall Hnd Hinst.
  - exists rs. cbn. rewrite app_nil_r. split; [done |]. split; [done |].
    split; [| done]. intros e He. by apply elem_of_nil in He.
  - cbn [fmap list_fmap fst] in *.
    apply NoDup_cons in Hnd as [Hname Hnd].
    apply Forall_cons in Hinst as [Hi Hinst].
    destruct (apply_entry_ok es_all rs tr name item Hk) as (rs1 & Hstep & Hnew & Hold).
    { apply (Hall (name, item)), list_elem_of_here. }
    { done. }
    assert (∀ e, e ∈ todo → assoc e.1 rs1 = assoc e.1 rs) as Hsame.
    { intros e He. apply Hold. intros Heq. apply Hname. rewrite <- Heq.
      by apply (list_elem_of_fmap_2 fst). }
    destruct (IH rs1 (tr ++ entry_ops rs (name, item))) as (rs' & Hrun & Hk' & Hin & Hout).
    + rewrite Hold; [done |]. intros Heq. by destruct Hi as [Hi _].
    + intros e He. apply Hall. by apply list_elem_of_further.
    + done.
    + apply Forall_forall. intros e He. apply (installable_ext rs); [by apply Hsame |].
      by apply (proj1 (Forall_forall _ _) Hinst).
    + exists rs'. cbn [apply_entries]. rewrite Hstep, Hrun.
      split.
      { do 2 f_equal. cbn [concat]. rewrite <- app_assoc. do 3 f_equal.
        apply Forall_fmap_ext_1, Forall_forall. intros e He.
        by apply entry_ops_ext, Hsame. }
      split; [done |]. split.
      * intros e He. apply elem_of_cons in He as [-> | He]; [| by apply Hin].
        cbn. by rewrite Hout.
      * intros n Hn. apply not_elem_of_cons in Hn as [Hn1 Hn2].
        rewrite Hout by done. by apply Hold.
Qed.

(** What the claim C1 says about the order: the copy of [version.json]
    is the last call before the staging directory is removed. *)
Definition copies_version_last (tr : list op) : Prop :=
  ∃ pre, tr = pre ++ [Copy2 [k; "version.json"] ["version.json"]; Rmtree [k]].

(** C1 (amended): with a staging directory that holds [version.json] and
    whose entries can be installed, the bootstrap copies every top-level
    entry over the path of the same name in the installation root, in the
    order the directory lists them ([version.json] in its turn, by the
    same copy as any file), a directory after the existing one was
    removed, a file with its bytes and modification time, and then
    deletes the staging directory; what the staging does not name is left
    as it was.  With a staging directory that lacks [version.json]
    nothing is changed. *)
Theorem bootstrap_installs_staging (rs es : list (string * node)) :
  assoc k rs = Some (Dir es) →
  NoDup es.*1 →
  let r := perform_bootstrap_update (Dir rs) in
  (assoc "version.json" es = None → r = (Aborted, Dir rs, [])) ∧
  (is_Some (assoc "version.json" es) → Forall (installable rs) es →
     ∃ fs',
       r = (Applied, fs', concat (entry_ops rs <$> es) ++ [Rmtree staging_dir]) ∧
       (∀ name item, (name, item) ∈ es → get [name] fs' = Some item) ∧
       get staging_dir fs' = None ∧
       (∀ name, name ∉ es.*1 → name ≠ k → get [name] fs' = get [name] (Dir rs))).
Proof.
  intros Hk Hnd r. subst r. unfold perform_bootstrap_update.
  assert (exists_ staging_dir (Dir rs) = true) as -> by (unfold exists_; cbn; by rewrite Hk).
  assert (is_dir staging_dir (Dir rs) = true) as -> by (unfold is_dir; cbn; by rewrite Hk).
  assert (iterdir staging_dir (Dir rs) = Ok es.*1) as ->
    by (unfold iterdir; cbn; by rewrite Hk).
  assert (exists_ (staging_dir ++ ["version.json"]) (Dir rs)
          = bool_decide (is_Some (assoc "version.json" es))) as ->.
  { unfold exists_. cbn. rewrite Hk. cbn. by destruct (assoc "version.json" es). }
  cbn [andb].
  split.
  - by intros ->.
  - intros Hv Hinst. rewrite bool_decide_eq_true_2 by done. cbn [negb].
    destruct (apply_entries_ok es es rs [] Hk) as (rs' & Hrun & Hk' & Hin & Hout);
      [| done | done |].
    { intros [n x] He. by apply FSFacts.assoc_NoDup. }
    rewrite Hrun. unfold rmtree. cbn. rewrite Hk'. cbn.
    eexists. split; [reflexivity |]. cbn. split; [| split].
    + intros name item He.
      assert (name ≠ k) as Hne.
      { apply (proj1 (Forall_forall _ _) Hinst) in He. by destruct He. }
      rewrite FSFacts.assoc_del_ne by done.
      pose proof (Hin (name, item) He) as Hlook. cbn in Hlook. by rewrite Hlook.
    + by rewrite FSFacts.assoc_del_eq.
    + intros name Hn Hne. rewrite FSFacts.assoc_del_ne by done. by rewrite Hout.
Qed.

(** An installation with a staged update. *)
Definition staged : list (string * node) :=
  [("version.json", File "version 1.3.0" 20);
   ("launcher.py", File "new launcher" 20);
   ("web", Dir [("index.html", File "new page" 20)])].

Definition old_root : list (string * node) :=
  [(".update_staging", Dir staged);
   ("launcher.py", File "old launcher" 10);
   ("web", Dir [("index.html", File "old page" 10); ("stale.js", File "x" 10)]);
   ("version.json", File "version 1.2.9" 10);
   ("watchdog.log", File "log" 11)].

Lemma bootstrap_installs_staging_witness :
  ∃ fs',
    perform_bootstrap_update (Dir old_root) =
      (Applied, fs', concat (entry_ops old_root <$> staged) ++ [Rmtree staging_dir]) ∧
    get ["web"] fs' = Some (Dir [("index.html", File "new page" 20)]) ∧
    get staging_dir fs' = None ∧
    get ["watchdog.log"] fs' = Some (File "log" 11).
Proof.
  assert (NoDup staged.*1) as Hnd by (by apply (bool_decide_unpack _)).
  assert (Forall (installable old_root) staged) as Hinst.
  { repeat (apply Forall_cons; split); [.. | apply Forall_nil].
    all: vm_compute; repeat split; discriminate. }
  destruct (bootstrap_installs_staging old_root staged eq_refl Hnd) as [_ Happly].
  destruct (Happly ltac:(by eexists) Hinst) as (fs' & Hrun & Hin & Hgone & Hout).
  exists fs'. split; [exact Hrun |]. split; [| split; [exact Hgone |]].
  - apply Hin. apply list_elem_of_In. cbn. tauto.
  - rewrite Hout; [reflexivity | | discriminate].
    intros Hin'. apply list_elem_of_In in Hin'. cbn in Hin'.
    repeat destruct Hin' as [Hin' | Hin']; try discriminate Hin'. exact Hin'.
Defined.

(** C1, counterexample: the staging directory lists [version.json]
    first; it is copied first, another entry is copied after it, and only
    then is the staging directory removed. *)
Lemma bootstrap_version_json_not_last :
  ∃ fs',
    perform_bootstrap_update (Dir old_root) =
      (Applied, fs',
       [Copy2 [k; "version.json"] ["version.json"];
        Copy2 [k; "launcher.py"] ["launcher.py"];
        Rmtree ["web"]; Copytree [k; "web"] ["web"];
        Rmtree [k]]) ∧
    ¬ copies_version_last
        [Copy2 [k; "version.json"] ["version.json"];
         Copy2 [k; "launcher.py"] ["launcher.py"];
         Rmtree ["web"]; Copytree [k; "web"] ["web"];
         Rmtree [k]].
Proof.
  eexists. split; [vm_compute; reflexivity |].
  intros [pre Hpre].
  do 4 (destruct pre as [| ? pre]; [discriminate Hpre |]).
  apply (f_equal length) in Hpre. rewrite length_app in Hpre. cbn in Hpre. lia.
Qed.

End BootstrapFacts.

(** ** Process controller: further properties *)
Module ControllerFacts.
Import Launcher RestartFacts.

Local Arguments wait_loop : simpl never.
Local Arguments Logger.log : simpl never.
Local Arguments pretty : simpl never.
Local Arguments String.append : simpl never.
Local Arguments mentions_watchdog : simpl never.
Local Arguments N.add : simpl never.
Local Arguments N.sub : simpl never.
Local Arguments N.ltb : simpl never.
Local Arguments find_comfyui_process : simpl never.

Ltac fin :=
  repeat split; rewrite ?app_nil_r; try reflexivity; try assumption;
  repeat (rewrite <- app_assoc; cbn [app]); reflexivity.

Section WithEnv.
Variable E : env.

(** What [stop_comfyui] adds to the operating-system actions for the
    tracked worker. *)
Definition tracked_stop_actions (s : launcher) : list effect :=
  match comfyui_process s with
  | Some h =>
      match exit_codes (h_proc h) (h_polls h) with
      | Some _ => []
      | None =>
          match terminate_raises (h_proc h), wait_10 (h_proc h) with
          | Some _, _ => [Terminate (pid (h_proc h))]
          | None, Exits _ => [Terminate (pid (h_proc h))]
          | None, TimeoutExpired => [Terminate (pid (h_proc h)); Kill (pid (h_proc h))]
          end
      end
  | None => []
  end.

(** [terminate()] raises on the tracked, running worker. *)
Definition terminate_fails (s : launcher) : bool :=
  match comfyui_process s with
  | Some h =>
      match exit_codes (h_proc h) (h_polls h), terminate_raises (h_proc h) with
      | None, Some _ => true
      | _, _ => false
      end
  | None => false
  end.

(** The actions on an orphan found in the process table. *)
Definition orphan_actions (s : launcher) : list effect :=
  match find_comfyui_process E (comfyui_port s) with
  | Some orphan => [TerminateOrphan orphan]
  | None => []
  end.

(** X1: [stop_comfyui] always leaves the worker handle cleared.  It
    returns [False] exactly when [terminate()] raised on the tracked,
    running worker.  It sends [terminate] to a tracked worker that is
    still running, [kill] only after the ten-second wait timed out, and
    then, unless [terminate()] raised, terminates the orphan found in the
    process table, if any. *)
Theorem stop_comfyui_clears_handle (s : launcher) :
  let r := stop_comfyui E s in
  comfyui_process r.2 = None ∧
  r.1 = negb (terminate_fails s) ∧
  effects r.2 = effects s ++ tracked_stop_actions s ++
                (if terminate_fails s then [] else orphan_actions s).
Proof.
  intros r. subst r.
  unfold stop_comfyui, stop_tracked, terminate_fails, tracked_stop_actions, orphan_actions.
  mrun. unfold poll. mrun.
  destruct (comfyui_process s) as [h |] eqn:Hh; mrun.
  - destruct (exit_codes _ _); mrun.
    + destruct (find_comfyui_process _ _); mrun.
      * destruct (orphan_stops _ _) as [[] d]; mrun; fin.
      * fin.
    + destruct (terminate_raises _); mrun; [fin |].
      destruct (wait_10 _); mrun.
      all: destruct (find_comfyui_process _ _); mrun.
      all: try (destruct (orphan_stops _ _) as [[] d]; mrun).
      all: fin.
  - destruct (find_comfyui_process _ _); mrun.
    + destruct (orphan_stops _ _) as [[] d]; mrun; fin.
    + fin.
Qed.

Lemma start_comfyui_fail s0 s :
  (∀ p, ¬ start_succeeds E s0 p) → same_config s0 s →
  (start_comfyui E s).1 = false ∧
  comfyui_process (start_comfyui E s).2 = comfyui_process s.
Proof.
  intros Hno (Hpy & Hargs & Hdir & Hwd & _).
  unfold start_comfyui. mrun. rewrite Hargs.
  destruct (mentions_watchdog (comfyui_args s0)) eqn:Hw; mrun; [done |].
  destruct (open_output_log E) eqn:Ho; mrun; [done |].
  unfold start_cmd, start_cwd. cbn. rewrite Hargs, Hpy, Hdir, Hwd.
  destruct (spawn E _ _) as [p | msg] eqn:Hs; mrun; [| done].
  exfalso. apply (Hno p). by repeat split.
Qed.

(** X2: [start_comfyui] returns [True] exactly when no launch argument
    mentions the watchdog, the output log opens and [Popen] returns; it
    then tracks the new process, not yet polled, after a single [Popen]
    call with the interpreter followed by the launch arguments.  A start
    that fails leaves the handle as it was. *)
Theorem start_comfyui_outcome (s : launcher) :
  let r := start_comfyui E s in
  (r.1 = true ↔ ∃ p, start_succeeds E s p) ∧
  (r.1 = false → comfyui_process r.2 = comfyui_process s) ∧
  (∀ p, start_succeeds E s p →
     comfyui_process r.2 = Some {| h_proc := p; h_polls := 0 |} ∧
     effects r.2 = effects s ++ [PopenCall (python_executable s :: comfyui_args s)
                                           (start_cwd E s)]).
Proof.
  intros r. subst r.
  assert (same_config s s) as Hcfg by (by repeat split).
  assert ((∃ p, start_succeeds E s p) ∨ (∀ p, ¬ start_succeeds E s p)) as Hcases.
  { unfold start_succeeds.
    destruct (mentions_watchdog (comfyui_args s)); [right; by intros p (? & _) |].
    destruct (open_output_log E); [right; by intros p (_ & ? & _) |].
    destruct (spawn E (start_cmd s) (start_cwd E s)) as [p | msg];
      [left; by exists p | right; by intros p (_ & _ & ?)]. }
  split; [| split].
  - split; [| intros [p Hp]; by destruct (start_comfyui_ok E s s p Hp Hcfg) as (s' & -> & _)].
    intros Htrue. destruct Hcases as [Hyes | Hno]; [done |].
    destruct (start_comfyui_fail s s Hno Hcfg) as [Hres _]. congruence.
  - intros Hfalse. destruct Hcases as [[p Hp] | Hno].
    + destruct (start_comfyui_ok E s s p Hp Hcfg) as (s' & Heq & _).
      rewrite Heq in Hfalse. done.
    + by destruct (start_comfyui_fail s s Hno Hcfg) as [_ Hkeep].
  - intros p (Hw & Ho & Hs). unfold start_comfyui. mrun.
    unfold start_cmd, start_cwd in *. cbn. rewrite Hw, Ho. mrun. rewrite Hs. by mrun.
Qed.

Lemma stop_comfyui_handle s : comfyui_process (stop_comfyui E s).2 = None.
Proof.
  unfold stop_comfyui, stop_tracked. mrun. unfold poll. mrun.
  destruct (comfyui_process s) as [h |] eqn:Hh; mrun.
  - destruct (exit_codes _ _); mrun.
    + destruct (find_comfyui_process _ _); mrun; [| done].
      by destruct (orphan_stops _ _) as [[] d].
    + destruct (terminate_raises _); mrun; [done |].
      destruct (wait_10 _); mrun.
      all: destruct (find_comfyui_process _ _); mrun; [| done].
      all: by destruct (orphan_stops _ _) as [[] d].
  - destruct (find_comfyui_process _ _); mrun; [| done].
    by destruct (orphan_stops _ _) as [[] d].
Qed.

(** X3: when the new worker cannot be started (the guard refuses, the
    output log cannot be opened or [Popen] raises), [restart_comfyui]
    still stops the old worker first: it returns failure and no worker is
    tracked afterwards. *)
Theorem restart_start_failure (s : launcher) :
  (∀ p, ¬ start_succeeds E s p) →
  (restart_comfyui E s).1 = Some false ∧
  comfyui_process (restart_comfyui E s).2 = None.
Proof.
  intros Hno. unfold restart_comfyui, stop_and_start, is_comfyui_responsive.
  destruct (probe E (probes s)) as [r d] eqn:Hprobe. mrun. rewrite Hprobe. mrun.
  destruct (comfyui_process s) as [h |]; mrun.
  all: match goal with
       | |- context [stop_comfyui E ?s2] =>
           pose proof (stop_comfyui_frame E s2) as [Hcfg Hpr];
           pose proof (stop_comfyui_handle s2) as Hnone;
           destruct (stop_comfyui E s2) as [ok s3]
       end; cbn in Hcfg, Hpr, Hnone.
  all: destruct ok; mrun.
  all: match goal with
       | |- context [start_comfyui E ?s4] =>
           destruct (start_comfyui_fail s s4 Hno Hcfg) as [Hres Hkeep];
           destruct (start_comfyui E s4) as [b s5]
       end; cbn in Hres, Hkeep; subst b; mrun.
  all: split; [done | by rewrite Hkeep].
Qed.

Lemma wait_loop_responsive fuel ws rst s p q :
  comfyui_process s = Some {| h_proc := p; h_polls := q |} →
  (clock s - ws < max_wait)%N →
  exit_codes p q = None →
  (probe E (probes s)).1 = true →
  ∃ s' msg, wait_loop E (S fuel) ws rst s = (Returned true, s') ∧
    ends_with_logs E s' [(msg, "success")] ∧
    PyStr.startswith msg "ComfyUI is now responsive!" = true ∧
    comfyui_process s' = Some {| h_proc := p; h_polls := S q |}.
Proof.
  intros Hh Hlt Hc Hr.
  unfold wait_loop. fold (wait_loop E). mrun.
  destruct (N.ltb_spec (clock s - ws) max_wait); [| lia].
  mrun. erewrite poll_exited_tracked by (cbn; exact Hh).
  rewrite Hc. unfold is_comfyui_responsive. cbn.
  destruct (probe E (probes s)) as [r d]. cbn in Hr. subst r. mrun.
  eexists _, _. split; [reflexivity |]. split; [eexists; reflexivity |].
  split; [reflexivity | done].
Qed.

(** X4: a restart whose worker [p] was spawned, is running after the
    settle time and through [k] turns of the wait loop without answering,
    and then answers the probe of the next turn, begun before 45 seconds
    have passed, returns success at that first responsive probe and logs
    it; the worker stays tracked. *)
Theorem restart_becomes_responsive (s : launcher) (p : popen) (k : nat) :
  start_succeeds E s p →
  exit_codes p 0 = None →
  waiting E p 1 (S (probes s)) k →
  (elapsed E (S (probes s)) k < max_wait)%N →
  exit_codes p (S k) = None →
  (probe E (S (probes s) + k)).1 = true →
  let r := restart_comfyui E s in
  r.1 = Some true ∧
  (∃ msg, ends_with_logs E r.2 [(msg, "success")] ∧
          PyStr.startswith msg "ComfyUI is now responsive!" = true) ∧
  comfyui_process r.2 = Some {| h_proc := p; h_polls := S (S k) |}.
Proof.
  intros Hstart Halive Hw Hlt Hcode Hprobe r. subst r.
  destruct (restart_after_start E s p Hstart) as (s1 & dur & -> & Hh & Hp).
  rewrite <- Hp in *.
  unfold confirm_started. mrun.
  erewrite poll_exited_tracked by (cbn; exact Hh). rewrite Halive. mrun.
  match goal with
  | |- context [wait_loop E max_polls ?t (clock s) ?s2] =>
      set (s1' := s2); set (ws := t)
  end.
  assert (ws = clock s1') as Hws by done.
  assert (comfyui_process s1' = Some {| h_proc := p; h_polls := 1 |}) as Hh1 by done.
  assert (probes s1' = probes s1) as Hp1 by done.
  rewrite <- Hp1 in Hw, Hlt, Hprobe.
  pose proof (elapsed_lower E (probes s1') k) as Hlow.
  assert (k < max_polls) as Hk by (unfold max_wait, max_polls in *; lia).
  destruct (wait_loop_skip E ws (clock s) s1' p 1 k Hws Hh1 Hw (S (max_polls - S k)))
    as (s2 & Heq & Hh2 & Hp2 & Hc2).
  replace (k + S (max_polls - S k)) with max_polls in Heq by lia.
  rewrite Heq.
  destruct (wait_loop_responsive (max_polls - S k) ws (clock s) s2 p (1 + k))
    as (s3 & msg & -> & Hlog & Hpre & Hh3); [done | lia | done | by rewrite Hp2 |].
  mrun. split; [done |]. split; [by exists msg | done].
Qed.

End WithEnv.

Definition answers_at (n : nat) : nat → bool * N :=
  λ j, (bool_decide (n ≤ j), 1000%N).

Lemma restart_becomes_responsive_witness :
  (restart_comfyui (demo_env (worker (λ _, None)) (answers_at 2) LogMissing)
     (demo_state main_args)).1 = Some true.
Proof.
  assert (start_succeeds (demo_env (worker (λ _, None)) (answers_at 2) LogMissing)
            (demo_state main_args) (worker (λ _, None))) as Hstart
    by (repeat split).
  assert (waiting (demo_env (worker (λ _, None)) (answers_at 2) LogMissing)
            (worker (λ _, None)) 1 (S (probes (demo_state main_args))) 1) as Hw.
  { intros j Hj. destruct j as [| j]; [| lia]. repeat split. }
  exact (proj1 (restart_becomes_responsive
                  (demo_env (worker (λ _, None)) (answers_at 2) LogMissing)
                  (demo_state main_args) (worker (λ _, None)) 1
                  Hstart eq_refl Hw eq_refl eq_refl eq_refl)).
Defined.

Lemma restart_start_failure_witness :
  (restart_comfyui (demo_env (worker (λ _, None)) silent LogMissing)
     (demo_state ["main.py"; "--watchdog-mode"])).1 = Some false.
Proof.
  refine (proj1 (restart_start_failure
                   (demo_env (worker (λ _, None)) silent LogMissing)
                   (demo_state ["main.py"; "--watchdog-mode"]) _)).
  intros p (Hw & _). discriminate Hw.
Defined.

End ControllerFacts.

(** ** Log queries and listener set-up: further properties *)
Module ApiFacts.
Import Logger Listener.

(** X6: [get_recent_logs(limit)] returns a suffix of the buffer, oldest
    first: the last [limit] entries, or all of them when fewer are held,
    for a positive limit, and the whole buffer for a limit of zero or
    less; [total_count] is the size of the buffer whatever the limit. *)
Theorem get_recent_logs_limit (limit : Z) (st : logger) :
  let r := get_recent_logs limit st in
  (∃ older, log_buffer st = older ++ logs r) ∧
  length (logs r) =
    (if (0 <? limit)%Z then length (log_buffer st) `min` Z.to_nat limit
     else length (log_buffer st)) ∧
  total_count r = length (log_buffer st).
Proof.
  intros r. subst r. unfold get_recent_logs. cbn.
  destruct (0 <? limit)%Z.
  - split; [| split; [apply LoggerFacts.length_last_n | done]].
    exists (take (length (log_buffer st) - Z.to_nat limit) (log_buffer st)).
    unfold last_n. by rewrite take_drop.
  - split; [by exists [] | done].
Qed.

(** X7: [get_request] attempts a TLS handshake exactly when a TLS context
    is set and the peek returned at least one byte, the first being 0x16;
    it hands back the TLS socket exactly when, in addition, the handshake
    succeeded; and it peeks exactly when a context is set.  So an empty
    peek, a failed peek and any other first byte are all served as
    plaintext. *)
Theorem get_request_handshake_iff (ctx : option ssl_context) (c : connection) :
  let r := get_request ctx c in
  (WrapSocket ∈ r.2 ↔
     is_Some ctx ∧ ∃ rest, peek c = Peeked (Byte.x16 :: rest)) ∧
  (r.1 = TlsWrapped ↔
     is_Some ctx ∧ (∃ rest, peek c = Peeked (Byte.x16 :: rest)) ∧
     handshake c = HandshakeOk) ∧
  (Peek ∈ r.2 ↔ is_Some ctx).
Proof.
  intros r. subst r. unfold get_request, is_tls_hello.
  assert (∀ a : action, a ∈ [Accept] ↔ a = Accept) as H1.
  { intros. rewrite !elem_of_cons, elem_of_nil. tauto. }
  assert (∀ a : action, a ∈ [Accept; Peek] ↔ a = Accept ∨ a = Peek) as H2.
  { intros. rewrite !elem_of_cons, elem_of_nil. tauto. }
  assert (∀ a : action, a ∈ [Accept; Peek; WrapSocket] ↔
                        a = Accept ∨ a = Peek ∨ a = WrapSocket) as H3.
  { intros. rewrite !elem_of_cons, elem_of_nil. tauto. }
  destruct ctx as [ctx |]; [| cbn; rewrite !H1; split_and!; split;
                              first [done | by intros [[] _] | by intros []]].
  destruct (peek c) as [| [| b bs]] eqn:Hpeek; cbn.
  1, 2: rewrite !H2; split_and!; split;
        first [ by eauto | by intros [? | ?] | by intros (_ & [? ?])
              | by intros (_ & [? ?] & _) | done ].
  destruct (Byte.eqb b Byte.x16) eqn:Hb.
  - apply Byte.byte_dec_bl in Hb. subst b.
    destruct (handshake c) eqn:Hhs; cbn; rewrite !H3; split_and!; split;
      first [ by eauto 6 | by intros (_ & _ & ?) | done ].
  - assert (b ≠ Byte.x16) as Hne.
    { intros ->. vm_compute in Hb. discriminate Hb. }
    rewrite !H2; split_and!; split;
      first [ by eauto | by intros [? | ?] | done
            | intros (_ & [rest Hrest]); congruence
            | intros (_ & [rest Hrest] & _); congruence ].
Qed.

(** X8: [start_api_server] hands the listener a TLS context exactly
    when a key file and a certificate file are both configured with
    non-empty paths, both paths exist and the context can be created; the
    context is the one given these two paths.  Whether the certificate
    chain then loads does not matter: when loading it raises, the error
    logged says "Falling back to HTTP only", but the context stays, the
    server is described as "Dual HTTP/HTTPS" and the listener still peeks
    at every connection.  Without a context every connection is accepted
    as plaintext without a peek. *)
Theorem prepare_ssl_context_iff (tls_keyfile tls_certfile : option string)
    (path_exists : string → bool) (o : ssl_calls) (c : connection) :
  let ctx := prepare_ssl_context tls_keyfile tls_certfile path_exists
               (context_created o) in
  (∀ key cert,
     ctx = Some {| certfile := cert; keyfile := key |} ↔
     tls_keyfile = Some key ∧ tls_certfile = Some cert ∧
     key ≠ "" ∧ cert ≠ "" ∧
     path_exists key = true ∧ path_exists cert = true ∧
     context_created o = true) ∧
  (ctx = None → get_request ctx c = (Plaintext, [Accept])) ∧
  (∀ msg, o = LoadRaises msg → is_Some ctx →
     ssl_setup_log tls_keyfile tls_certfile path_exists o =
       Some ("[ERROR] Failed to initialize SSL context: " +:+ msg
             +:+ ". Falling back to HTTP only.", "error") ∧
     protocol_desc ctx = "Dual HTTP/HTTPS" ∧
     Peek ∈ (get_request ctx c).2).
Proof.
  intros ctx. subst ctx. split; [| split].
  - unfold prepare_ssl_context. intros key cert. split.
    + destruct tls_keyfile as [k |], tls_certfile as [ce |]; try done.
      destruct k, ce; cbn; try done.
      all: destruct (path_exists _) eqn:Hk; cbn; try done.
      all: destruct (path_exists (String _ ce)) eqn:Hc; cbn; try done.
      all: destruct (context_created o); try done.
      all: intros [= <- <-]; by repeat split.
    + intros (-> & -> & Hk & Hc & Hek & Hec & ->).
      destruct key; [done |]. destruct cert; [done |]. cbn.
      by rewrite Hek, Hec.
  - by intros ->.
  - intros msg -> [x Hx]. revert Hx.
    unfold prepare_ssl_context, ssl_setup_log.
    destruct tls_keyfile as [k |], tls_certfile as [ce |]; try done.
    destruct (PyStr.truthy k && PyStr.truthy ce); [| done].
    destruct (path_exists k && path_exists ce); [| done].
    cbn. intros _. split; [done |]. split; [done |].
    destruct (peek c) as [| bytes]; cbn.
    + apply list_elem_of_further, list_elem_of_here.
    + destruct (is_tls_hello bytes); [destruct (handshake c) |];
        apply list_elem_of_further, list_elem_of_here.
Qed.

End ApiFacts.

(** ** Restart requests: further properties *)
Module RestartRequestFacts.
Import Launcher RestartFacts.

Section WithEnv.
Variable E : env.

(** X5: [restart_comfyui] always returns a verdict: every turn of its
    wait loop moves the clock on by at least the two seconds it sleeps, so
    the 45-second deadline ends the loop within 23 polls whatever the
    worker and the probes do. *)
Theorem restart_comfyui_returns (s : launcher) :
  ∃ b, (restart_comfyui E s).1 = Some b.
Proof.
  pose proof (restart_comfyui_total E s) as Htot.
  destruct (restart_comfyui E s).1 as [b |]; [by exists b | done].
Qed.


End WithEnv.
End RestartRequestFacts.

(** ** Version comparison and the release check *)
Module ReleasesFacts.
Import Releases.

Lemma list_gt_irrefl a : list_gt a a = false.
Proof.
  induction a as [| x a IH]; [done |]. cbn. by rewrite Z.eqb_refl.
Qed.

Lemma list_gt_asym a : ∀ b, list_gt a b = true → list_gt b a = false.
Proof.
  induction a as [| x a IH]; intros [| y b]; cbn; try done.
  destruct (Z.eqb_spec x y) as [-> | Hne].
  - rewrite Z.eqb_refl. apply IH.
  - destruct (Z.eqb_spec y x); [congruence |]. lia.
Qed.

Lemma list_gt_trans a : ∀ b c,
  list_gt a b = true → list_gt b c = true → list_gt a c = true.
Proof.
  induction a as [| x a IH]; intros [| y b] [| z c]; cbn; try done.
  destruct (Z.eqb_spec x y) as [-> | Hxy].
  - destruct (Z.eqb_spec y z) as [-> | Hyz]; [apply IH | done].
  - destruct (Z.eqb_spec y z) as [-> | Hyz].
    + intros H _. destruct (Z.eqb_spec x z); [congruence | done].
    + intros H1 H2. destruct (Z.eqb_spec x z); lia.
Qed.

(** X9: no version string is newer than itself, whether it parses as
    dotted integers or not. *)
Theorem is_newer_version_irrefl (max_str_digits : nat) (v : string) :
  is_newer_version max_str_digits v v = false.
Proof.
  unfold is_newer_version. destruct (parse_version max_str_digits v).
  - apply list_gt_irrefl.
  - by rewrite String.eqb_refl.
Qed.

(** X10: on version strings that parse as dotted integers the comparison
    is a strict order: it is asymmetric and transitive. *)
Theorem is_newer_version_strict_order (max_str_digits : nat) (a b c : string) :
  is_Some (parse_version max_str_digits a) →
  is_Some (parse_version max_str_digits b) →
  is_Some (parse_version max_str_digits c) →
  (is_newer_version max_str_digits a b = true →
   is_newer_version max_str_digits b a = false) ∧
  (is_newer_version max_str_digits a b = true →
   is_newer_version max_str_digits b c = true →
   is_newer_version max_str_digits a c = true).
Proof.
  intros [x Hx] [y Hy] [z Hz]. unfold is_newer_version.
  rewrite Hx, Hy, Hz. split; [apply list_gt_asym | apply list_gt_trans].
Qed.

(** X11: when one of the two strings does not parse as dotted integers
    and the strings differ, each of them is reported newer than the
    other. *)
Theorem is_newer_version_fallback_symmetric (max_str_digits : nat)
    (latest current : string) :
  parse_version max_str_digits latest = None ∨
  parse_version max_str_digits current = None →
  latest ≠ current →
  is_newer_version max_str_digits latest current = true ∧
  is_newer_version max_str_digits current latest = true.
Proof.
  intros Hnone Hne. unfold is_newer_version.
  assert (String.eqb latest current = false) as H1 by by apply String.eqb_neq.
  assert (String.eqb current latest = false) as H2 by by apply String.eqb_neq.
  destruct Hnone as [-> | ->]; destruct (parse_version _ _); by rewrite ?H1, ?H2.
Qed.

(** *** Versions written as decimal numbers joined by dots *)

Definition all_digits (s : string) : Prop :=
  Forall (λ c, is_Some (digit c)) (list_ascii_of_string s).

(** The dotted rendering of a list of numbers, as a release tag has it. *)
Definition render (l : list N) : string := String.concat "." (pretty <$> l).

Lemma digit_pretty_char d : (d < 10)%N → digit (pretty_N_char d) = Some d.
Proof.
  intros Hd.
  assert (d = 0 ∨ d = 1 ∨ d = 2 ∨ d = 3 ∨ d = 4 ∨ d = 5 ∨ d = 6 ∨ d = 7
          ∨ d = 8 ∨ d = 9)%N as Hcases by lia.
  by destruct Hcases as [-> | [-> | [-> | [-> | [-> | [-> | [-> | [-> | [-> | ->]]]]]]]]].
Qed.

Lemma digit_not_space c : is_Some (digit c) → is_space c = false.
Proof.
  unfold digit, is_space. intros [d Hd].
  destruct (_ && _) eqn:Hr in Hd; [| done].
  apply andb_true_iff in Hr as [H1 H2].
  apply Nat.leb_le in H1. apply Nat.leb_le in H2.
  apply orb_false_iff. split; apply andb_false_iff.
  - right. apply Nat.leb_gt. lia.
  - right. apply Nat.leb_gt. lia.
Qed.

Lemma digit_not_sep c x : is_Some (digit c) → nat_of_ascii x < 48 → Ascii.eqb c x = false.
Proof.
  unfold digit. intros [d Hd] Hx.
  destruct (_ && _) eqn:Hr in Hd; [| done].
  apply andb_true_iff in Hr as [H1 _]. apply Nat.leb_le in H1.
  apply Ascii.eqb_neq. intros ->. lia.
Qed.

Lemma pretty_N_go_digits x : ∀ s,
  all_digits s → all_digits (pretty_N_go x s).
Proof.
  induction (N.lt_wf_0 x) as [x _ IH]; intros s Hs.
  assert (x = 0 ∨ 0 < x)%N as [-> | Hpos] by lia; [done |].
  rewrite pretty_N_go_step by done. apply IH.
  - by apply N.div_lt.
  - apply Forall_cons. split; [| done].
    rewrite digit_pretty_char; [done |]. by apply N.mod_lt.
Qed.

Lemma pretty_N_go_value x :
  (0 < x)%N →
  ∃ m, ∀ s acc b,
    digits acc b (pretty_N_go x s) = digits (acc * m + x)%N true s.
Proof.
  induction (N.lt_wf_0 x) as [x _ IH]; intros Hpos.
  destruct (N.eq_0_gt_0_cases (x `div` 10)) as [Hz | Hq].
  - exists 10%N. intros s acc b.
    rewrite pretty_N_go_step, Hz, pretty_N_go_0 by done. cbn [digits].
    rewrite digit_pretty_char by by apply N.mod_lt.
    f_equal. pose proof (N.div_mod x 10). lia.
  - destruct (IH (x `div` 10)%N) as [m Hm]; [by apply N.div_lt | done |].
    exists (10 * m)%N. intros s acc b.
    rewrite pretty_N_go_step, Hm by done. cbn [digits].
    rewrite digit_pretty_char by by apply N.mod_lt.
    f_equal. pose proof (N.div_mod x 10). lia.
Qed.

Lemma pretty_N_all_digits (n : N) : all_digits (pretty n).
Proof.
  unfold pretty, pretty_N. case_decide as Hn.
  - apply Forall_cons. split; [by eexists | apply Forall_nil_2].
  - by apply pretty_N_go_digits, Forall_nil_2.
Qed.

Lemma pretty_N_value (n : N) : digits 0 false (pretty n) = Some n.
Proof.
  unfold pretty, pretty_N. case_decide as Hn; [by subst n |].
  destruct (pretty_N_go_value n) as [m Hm]; [lia |]. by rewrite Hm.
Qed.

Lemma all_digits_rev_app s : ∀ acc,
  all_digits s → all_digits acc → all_digits (String.rev_app s acc).
Proof.
  induction s as [| c s IH]; intros acc Hs Hacc; [done |].
  apply Forall_cons in Hs as [Hc Hs]. cbn. apply IH; [done |].
  by apply Forall_cons.
Qed.

Lemma rev_app_rev_app s : ∀ a b,
  String.rev_app (String.rev_app s a) b = String.rev_app a (s +:+ b).
Proof.
  induction s as [| c s IH]; intros a b; [done |]. cbn. by rewrite IH.
Qed.

Lemma lstrip_digits s : all_digits s → lstrip s = s.
Proof.
  destruct s as [| c s]; [done |]. intros Hs.
  apply Forall_cons in Hs as [Hc _]. cbn. by rewrite digit_not_space.
Qed.

Lemma strip_digits s : all_digits s → strip s = s.
Proof.
  intros Hs. unfold strip, String.rev. rewrite (lstrip_digits s Hs).
  rewrite lstrip_digits by (apply all_digits_rev_app; [done | apply Forall_nil_2]).
  rewrite rev_app_rev_app. cbn. apply UpdaterFacts.append_nil_r.
Qed.

(** A literal that the interpreter's limit lets through. *)
Definition within_limit (max_str_digits : nat) (s : string) : Prop :=
  max_str_digits = 0 ∨ String.length s ≤ max_str_digits.

Lemma digit_count_length s : digit_count s ≤ String.length s.
Proof.
  unfold digit_count. induction s as [| c s IH]; [done |].
  cbn [list_ascii_of_string String.length]. rewrite filter_cons.
  destruct (decide (is_Some (digit c))); cbn [length]; lia.
Qed.

Lemma too_long_within lim s : within_limit lim s → too_long lim s = false.
Proof.
  unfold too_long. intros [-> | Hle]; [done |].
  apply andb_false_iff. right. apply Nat.ltb_ge.
  pose proof (digit_count_length s). lia.
Qed.

Lemma py_int_digits lim s :
  all_digits s → within_limit lim s →
  py_int lim s = Z.of_N <$> digits 0 false s.
Proof.
  intros Hs Hlim. unfold py_int. rewrite (strip_digits s Hs).
  rewrite too_long_within by done.
  destruct s as [| c s]; [done |].
  apply Forall_cons in Hs as [Hc _].
  assert (Ascii.eqb c "+" = false) as Hplus
    by (apply digit_not_sep; [done | vm_compute; lia]).
  assert (Ascii.eqb c "-" = false) as Hminus
    by (apply digit_not_sep; [done | vm_compute; lia]).
  clear Hc.
  destruct c as [[] [] [] [] [] [] [] []]; done.
Qed.

Lemma py_int_pretty lim (n : N) :
  within_limit lim (pretty n) → py_int lim (pretty n) = Some (Z.of_N n).
Proof.
  intros Hlim. rewrite py_int_digits by (done || apply pretty_N_all_digits).
  by rewrite pretty_N_value.
Qed.

Lemma split_on_digits s : all_digits s → FS.split_on "." s = [s].
Proof.
  induction s as [| c s IH]; intros Hs; [done |].
  apply Forall_cons in Hs as [Hc Hs]. cbn.
  rewrite (digit_not_sep c "." Hc) by (vm_compute; lia). by rewrite IH.
Qed.

Lemma split_on_digits_dot s t :
  all_digits s → FS.split_on "." (s +:+ String "." t) = s :: FS.split_on "." t.
Proof.
  induction s as [| c s IH]; intros Hs; [done |].
  apply Forall_cons in Hs as [Hc Hs].
  change (String c s +:+ String "." t) with (String c (s +:+ String "." t)).
  cbn [FS.split_on].
  rewrite (digit_not_sep c "." Hc) by (vm_compute; lia). by rewrite IH.
Qed.

Lemma parse_version_render lim l :
  l ≠ [] → Forall (λ n, within_limit lim (pretty n)) l →
  parse_version lim (render l) = Some (Z.of_N <$> l).
Proof.
  intros Hne Hlim. unfold parse_version, render.
  induction l as [| n l IH]; [done |].
  apply Forall_cons in Hlim as [Hn Hl].
  destruct l as [| n' l].
  - cbn [fmap list_fmap String.concat].
    rewrite split_on_digits by apply pretty_N_all_digits.
    cbn. by rewrite py_int_pretty.
  - change (String.concat "." (pretty <$> n :: n' :: l))
      with (pretty n +:+ String "." (String.concat "." (pretty <$> n' :: l))).
    rewrite split_on_digits_dot by apply pretty_N_all_digits.
    cbn [mapM]. rewrite py_int_pretty by done. cbn [mbind option_bind].
    rewrite IH by done. done.
Qed.

(** X12: for version strings written as decimal numbers joined by dots,
    none longer than the interpreter's limit on the digits of an integer
    literal, the comparison is the numeric one, component by component
    from the left, a longer list winning over its own prefix. *)
Theorem is_newer_version_numeric (max_str_digits : nat) (a b : list N) :
  a ≠ [] → b ≠ [] →
  Forall (λ n, within_limit max_str_digits (pretty n)) (a ++ b) →
  is_newer_version max_str_digits (render a) (render b) =
    list_gt (Z.of_N <$> a) (Z.of_N <$> b).
Proof.
  intros Ha Hb Hlim. apply Forall_app in Hlim as [Hla Hlb].
  unfold is_newer_version. by rewrite !parse_version_render.
Qed.

Lemma is_newer_version_strict_order_witness :
  is_newer_version 4300 "1.9.0" "1.10.0" = false ∧
  is_newer_version 4300 "1.10.0" "1.2" = true.
Proof.
  assert (is_Some (parse_version 4300 "1.10.0")) as Ha by (by eexists).
  assert (is_Some (parse_version 4300 "1.9.0")) as Hb by (by eexists).
  assert (is_Some (parse_version 4300 "1.2")) as Hc by (by eexists).
  split.
  - exact (proj1 (is_newer_version_strict_order 4300 "1.10.0" "1.9.0" "1.2" Ha Hb Hc)
             eq_refl).
  - exact (proj2 (is_newer_version_strict_order 4300 "1.10.0" "1.9.0" "1.2" Ha Hb Hc)
             eq_refl eq_refl).
Defined.

Lemma is_newer_version_fallback_symmetric_witness :
  is_newer_version 4300 "1.3.0-beta" "1.3.0" = true ∧
  is_newer_version 4300 "1.3.0" "1.3.0-beta" = true.
Proof.
  apply is_newer_version_fallback_symmetric; [by left | done].
Defined.

Lemma is_newer_version_numeric_witness :
  is_newer_version 4300 (render [1; 10; 0]%N) (render [1; 9; 0]%N) = true.
Proof.
  refine (is_newer_version_numeric 4300 [1; 10; 0]%N [1; 9; 0]%N
            ltac:(discriminate) ltac:(discriminate) _).
  repeat (apply Forall_cons; split; [right; vm_compute; lia |]).
  apply Forall_nil_2.
Defined.

(** X13: when the release tag is the letter v followed by the installed
    version, and the installed version contains no letter v,
    [check_for_update] reports no update, gives the installed version as
    the latest one and makes no call to the logger itself. *)
Theorem check_for_update_same_version (max_str_digits : nat) (r : release)
    (current : string) :
  remove_char "v" current = current →
  tag_name r = String "v" current →
  ∃ info, check_for_update max_str_digits (FeedRelease r) current = (inr info, []) ∧
    has_update info = false ∧ latest_version info = current.
Proof.
  intros Hv Htag. eexists. split; [reflexivity |].
  cbn [has_update latest_version]. rewrite Htag.
  change (remove_char "v" (String "v" current)) with (remove_char "v" current).
  rewrite Hv. split; [| done]. unfold is_newer_version.
  destruct (parse_version max_str_digits current);
    [apply list_gt_irrefl | by rewrite String.eqb_refl].
Qed.

Lemma check_for_update_same_version_witness :
  ∃ info, check_for_update 4300
            (FeedRelease (Release "v1.3.0" "notes" "2025-01-01" [])) "1.3.0"
          = (inr info, []) ∧
    has_update info = false ∧ latest_version info = "1.3.0".
Proof.
  apply check_for_update_same_version; reflexivity.
Defined.

(** X14: the download URL [check_for_update] reports is that of the
    first asset, in the order of the release, whose name ends with [.zip];
    it is empty when no asset has such a name. *)
Theorem check_for_update_first_zip (max_str_digits : nat) (r : release)
    (current : string) :
  ∃ info, check_for_update max_str_digits (FeedRelease r) current = (inr info, []) ∧
    (∀ pre a post,
       assets r = pre ++ a :: post →
       Forall (λ x, PyStr.endswith (a_name x) ".zip" = false) pre →
       PyStr.endswith (a_name a) ".zip" = true →
       asset_url info = a_url a) ∧
    (Forall (λ x, PyStr.endswith (a_name x) ".zip" = false) (assets r) →
     asset_url info = "").
Proof.
  eexists. split; [reflexivity |]. cbn [asset_url]. split.
  - intros pre a post -> Hpre Ha.
    induction Hpre as [| x pre Hx _ IH]; cbn; [by rewrite Ha | by rewrite Hx].
  - intros Hall. induction Hall as [| x l Hx _ IH]; cbn; [done | by rewrite Hx].
Qed.

End ReleasesFacts.

(** ** Start-up of the service *)
Module StartupFacts.
Import Startup.

Lemma startswith_trans s p q :
  PyStr.startswith s p = true → PyStr.startswith p q = true →
  PyStr.startswith s q = true.
Proof.
  revert s p. induction q as [| c q IH]; intros s p Hsp Hpq; [by destruct s |].
  destruct p as [| b p]; [done |]. destruct s as [| a s]; [done |].
  cbn in *. destruct (Ascii.eqb_spec b a) as [-> | _]; [| done].
  destruct (Ascii.eqb_spec c a) as [-> | _]; [| done].
  by eapply IH.
Qed.

Lemma startswith_refl s : PyStr.startswith s s = true.
Proof. induction s as [| c s IH]; [done |]. cbn. by rewrite Ascii.eqb_refl. Qed.

Lemma scan_arg_other arg rest acc :
  PyStr.startswith arg "--tls-" = false → scan_arg arg rest acc = acc.
Proof.
  intros Harg. unfold scan_arg.
  assert (String.eqb arg "--tls-keyfile" = false) as ->.
  { apply String.eqb_neq. intros ->. done. }
  assert (String.eqb arg "--tls-certfile" = false) as ->.
  { apply String.eqb_neq. intros ->. done. }
  assert (PyStr.startswith arg "--tls-keyfile=" = false) as ->.
  { destruct (PyStr.startswith arg "--tls-keyfile=") eqn:H; [| done].
    by rewrite (startswith_trans arg "--tls-keyfile=" "--tls-") in Harg. }
  assert (PyStr.startswith arg "--tls-certfile=" = false) as ->.
  { destruct (PyStr.startswith arg "--tls-certfile=") eqn:H; [| done].
    by rewrite (startswith_trans arg "--tls-certfile=" "--tls-") in Harg. }
  by destruct rest.
Qed.

(** X15: launch arguments none of which starts with [--tls-] configure no
    TLS files: the service reports the protocol [http], probes the worker
    over [http], and its listener gets no TLS context whatever the files
    on disk. *)
Theorem scan_tls_absent (launch_args : list string)
    (path_exists : string → bool) (context_ok : bool) :
  Forall (λ a, PyStr.startswith a "--tls-" = false) launch_args →
  scan_tls launch_args = (None, None) ∧
  api_protocol (scan_tls launch_args) = "http" ∧
  probe_scheme (scan_tls launch_args) = "http" ∧
  Listener.prepare_ssl_context (scan_tls launch_args).1 (scan_tls launch_args).2
    path_exists context_ok = None.
Proof.
  intros Hall.
  assert (∀ acc, scan_from launch_args acc = acc) as Hscan.
  { induction Hall as [| a l Ha _ IH]; intros acc; [done |].
    cbn. by rewrite scan_arg_other, IH. }
  unfold scan_tls. by rewrite Hscan.
Qed.

Lemma scan_tls_absent_witness :
  scan_tls ["main.py"; "--listen"; "0.0.0.0"; "--port"; "8188"] = (None, None).
Proof.
  refine (proj1 (scan_tls_absent ["main.py"; "--listen"; "0.0.0.0"; "--port"; "8188"]
                   (λ _, true) true _)).
  repeat (apply Forall_cons; split; [reflexivity |]). apply Forall_nil_2.
Defined.

Lemma scan_from_key_kept args : ∀ acc,
  Forall (λ a, PyStr.startswith a "--tls-keyfile" = false) args →
  (scan_from args acc).1 = acc.1.
Proof.
  induction args as [| a l IH]; intros acc Hall; [done |].
  apply Forall_cons in Hall as [Ha Hl]. cbn. rewrite IH by done.
  unfold scan_arg.
  assert (String.eqb a "--tls-keyfile" = false) as ->.
  { apply String.eqb_neq. intros ->. done. }
  assert (PyStr.startswith a "--tls-keyfile=" = false) as ->.
  { destruct (PyStr.startswith a "--tls-keyfile=") eqn:H; [| done].
    by rewrite (startswith_trans a "--tls-keyfile=" "--tls-keyfile") in Ha. }
  destruct l; repeat case_match; done.
Qed.

Lemma scan_from_app pre : ∀ post acc,
  ∃ acc', scan_from (pre ++ post) acc = scan_from post acc'.
Proof.
  induction pre as [| a pre IH]; intros post acc; [by exists acc |].
  cbn. apply IH.
Qed.

(** X16: the key file is the one named by the last [--tls-keyfile]
    option, in either spelling: when no later argument starts with
    [--tls-keyfile], an option followed by its value [v] and an option of
    the form [--tls-keyfile=v] both leave [v] as the key file, whatever
    came before. *)
Theorem scan_tls_keyfile_last (pre post : list string) (v : string) :
  Forall (λ a, PyStr.startswith a "--tls-keyfile" = false) post →
  (PyStr.startswith v "--tls-keyfile" = false →
   (scan_tls (pre ++ "--tls-keyfile" :: v :: post)).1 = Some v) ∧
  (scan_tls (pre ++ ("--tls-keyfile=" +:+ v) :: post)).1 = Some v.
Proof.
  intros Hpost. unfold scan_tls. split.
  - intros Hv.
    destruct (scan_from_app pre ("--tls-keyfile" :: v :: post) (None, None))
      as [acc ->].
    change (scan_from ("--tls-keyfile" :: v :: post) acc)
      with (scan_from (v :: post) (Some v, acc.2)).
    rewrite scan_from_key_kept by by apply Forall_cons.
    done.
  - destruct (scan_from_app pre (("--tls-keyfile=" +:+ v) :: post) (None, None))
      as [acc ->].
    change (scan_from (("--tls-keyfile=" +:+ v) :: post) acc)
      with (scan_from post (scan_arg ("--tls-keyfile=" +:+ v) post acc)).
    rewrite scan_from_key_kept by done.
    destruct post, v; vm_compute; reflexivity.
Qed.

Lemma scan_tls_keyfile_last_witness :
  (scan_tls ["main.py"; "--tls-keyfile=old.pem"; "--tls-keyfile"; "key.pem";
             "--tls-certfile"; "cert.pem"]).1 = Some "key.pem".
Proof.
  refine (proj1 (scan_tls_keyfile_last ["main.py"; "--tls-keyfile=old.pem"]
                   ["--tls-certfile"; "cert.pem"] "key.pem" _) _).
  - repeat (apply Forall_cons; split; [reflexivity |]). apply Forall_nil_2.
  - reflexivity.
Defined.

End StartupFacts.

(** ** The launcher object of the extension *)
Module ExternalFacts.
Import External.

(** X17: [start_external_launcher] never keeps a handle of its own: with
    no handle before the call there is none after it.  It starts at most
    one process, and only when the script exists and the launcher port
    does not answer; the command is the interpreter, the script and the
    launcher port, without the worker's saved arguments.  It reports
    success exactly when the port answered or the process was started. *)
Theorem start_external_launcher_outcome (E : env) (s : launcher) :
  let cmd := [python E; script_path E; "--api-port"; pretty (launcher_port s)] in
  let r := start_external_launcher E s in
  (external_launcher_process s = None → external_launcher_process r.2 = None) ∧
  launcher_port r.2 = launcher_port s ∧
  (spawned r.2 = spawned s ∨ spawned r.2 = spawned s ++ [cmd]) ∧
  (spawned r.2 = spawned s ++ [cmd] ↔
     script_exists E = true ∧ answers_200 E = false) ∧
  (r.1 = true ↔
     script_exists E = true ∧
     (answers_200 E = true ∨ ∃ pid, popen E cmd = inr pid)).
Proof.
  intros cmd r. subst r. unfold start_external_launcher. fold cmd.
  assert (spawned s ≠ spawned s ++ [cmd]) as Hne.
  { intros Heq. apply (f_equal length) in Heq. rewrite length_app in Heq.
    cbn in Heq. lia. }
  destruct (script_exists E), (answers_200 E); cbn;
    try destruct (popen E cmd) as [msg | pid] eqn:Hp; cbn.
  all: split_and!; try done; try (by left); try (by right).
  all: try (split; [by intros ? | by intros [? ?]]).
  all: try (split; [done | by intros [? [? | [? ?]]]]).
  all: try (split; [intros _; split; [done |] | done]).
  all: eauto.
Qed.

End ExternalFacts.

(** ** Update service: the flags over a whole download *)
Module DownloadFacts.
Import FS Updater UpdaterFacts.

(** The two fields [get_update_status] looks at first. *)
Definition same_flags (s x : service) : Prop :=
  is_downloading x = is_downloading s ∧ last_error x = last_error s.

Lemma same_flags_refl s : same_flags s s.
Proof. done. Qed.

Lemma same_flags_trans s x y : same_flags s x → same_flags x y → same_flags s y.
Proof. intros [? ?] [? ?]. split; congruence. Qed.

(** A computation that leaves both flags alone in every state it goes
    through. *)
Definition keeps {A} (m : T A) : Prop :=
  ∀ s h, ∃ h', (m (s, h)).2.2 = h ++ h' ∧
    same_flags s (m (s, h)).2.1 ∧ Forall (same_flags s) h'.

Lemma keeps_ret {A} (x : A) : keeps (mret x).
Proof. intros s h. exists []. cbn. by rewrite app_nil_r. Qed.

Lemma keeps_raise {A} (e : exn) : keeps (raise (A := A) e).
Proof. intros s h. exists []. cbn. by rewrite app_nil_r. Qed.

Lemma keeps_read : keeps read.
Proof. intros s h. exists []. cbn. by rewrite app_nil_r. Qed.

Lemma keeps_update f : (∀ s, same_flags s (f s)) → keeps (update f).
Proof.
  intros Hf s h. exists [f s]. cbn. split; [done |]. split; [apply Hf |].
  apply Forall_cons. split; [apply Hf | apply Forall_nil_2].
Qed.

Lemma keeps_bind {A B} (m : T A) (f : A → T B) :
  keeps m → (∀ y, keeps (f y)) → keeps (m ≫= f).
Proof.
  intros Hm Hf s h. unfold mbind, T_bind.
  destruct (Hm s h) as (h1 & Hh1 & Hs1 & Hall1).
  destruct (m (s, h)) as [[y | e] [s1 hh]]; cbn in Hh1, Hs1; subst hh.
  - destruct (Hf y s1 (h ++ h1)) as (h2 & Hh2 & Hs2 & Hall2).
    exists (h1 ++ h2). rewrite Hh2, app_assoc. split; [done |].
    split; [by eapply same_flags_trans |].
    apply Forall_app. split; [done |].
    eapply Forall_impl; [exact Hall2 |]. intros x Hx. by eapply same_flags_trans.
  - exists h1. by cbn.
Qed.

Lemma keeps_logger msg lvl : keeps (logger msg lvl).
Proof. by apply keeps_update. Qed.

Lemma keeps_fs_op op : keeps (fs_op op).
Proof.
  unfold fs_op. apply keeps_bind; [apply keeps_read |]. intros s.
  destruct (op (fs s)); [by apply keeps_update | apply keeps_raise].
Qed.

Lemma keeps_progress n : keeps (update (set_progress n)).
Proof. by apply keeps_update. Qed.

Lemma keeps_request url : keeps (update (add_request url)).
Proof. by apply keeps_update. Qed.

Ltac keep :=
  repeat first
    [ apply keeps_ret | apply keeps_raise | apply keeps_read
    | apply keeps_logger | apply keeps_fs_op | apply keeps_progress
    | apply keeps_request
    | apply keeps_bind; [| intros ?]
    | progress case_match ].

Section WithEnv.
Variable E : env.

Lemma keeps_receive cs : ∀ total d w, keeps (receive E total d w cs).
Proof.
  induction cs as [| chunk cs IH]; intros total d w; cbn [receive]; [keep |].
  destruct (PyStr.truthy chunk); [| apply IH].
  apply keeps_bind; [keep | intros _].
  apply keeps_bind; [keep | intros _]. apply IH.
Qed.

Lemma keeps_move_up root names : keeps (move_up root names).
Proof.
  induction names as [| name names IH]; cbn [move_up]; [keep |].
  apply keeps_bind; [keep | intros _]. apply IH.
Qed.

Lemma keeps_extract ms : keeps (extract E ms).
Proof.
  unfold extract. case_match.
  - apply keeps_bind; [keep | intros _]. case_match; [| keep].
    apply keeps_bind; [keep | intros s]. case_match; [| keep].
    apply keeps_bind; [apply keeps_move_up | intros _]. keep.
  - keep.
Qed.

(** How a run of the [try] block relates to the state [s0] it began in:
    the flags are those of [s0] in every state but the closing ones, which
    exist only when the block ran to its end. *)
Definition closing (s0 : service) (h : list service)
    (r : res bool * (service * list service)) : Prop :=
  ∃ mid tail, r.2.2 = h ++ mid ++ tail ∧ Forall (same_flags s0) mid ∧
    match r.1 with
    | Ok true =>
        is_downloading r.2.1 = false ∧ last_error r.2.1 = last_error s0 ∧
        download_progress r.2.1 = 100%Z ∧
        get temp_zip (fs r.2.1) = None ∧
        (∃ es, get staging_dir (fs r.2.1) = Some (Dir es)) ∧
        Forall (λ x, is_downloading x = false ∧ last_error x = last_error s0 ∧
                     fs x = fs r.2.1) tail ∧
        last tail = Some r.2.1
    | _ => tail = [] ∧ same_flags s0 r.2.1
    end.

Definition ends (m : T bool) : Prop := ∀ s h, closing s h (m (s, h)).

Lemma ends_keeps (m : T bool) :
  keeps m → (∀ σ, (m σ).1 ≠ Ok true) → ends m.
Proof.
  intros Hm Hne s h. destruct (Hm s h) as (h1 & Hh1 & Hs1 & Hall1).
  exists h1, []. rewrite app_nil_r. split; [done |]. split; [done |].
  specialize (Hne (s, h)). destruct (m (s, h)) as [[[] | e] σ]; by cbn in *.
Qed.

Lemma ends_bind {A} (m : T A) (f : A → T bool) :
  keeps m → (∀ y, ends (f y)) → ends (m ≫= f).
Proof.
  intros Hm Hf s h. unfold mbind, T_bind.
  destruct (Hm s h) as (h1 & Hh1 & Hs1 & Hall1).
  destruct (m (s, h)) as [[y | e] [s1 hh]]; cbn in Hh1, Hs1; subst hh.
  - destruct (Hf y s1 (h ++ h1)) as (mid & tail & Hh2 & Hmid & Hend).
    exists (h1 ++ mid), tail. rewrite Hh2, <- !app_assoc. split; [done |].
    split.
    { apply Forall_app. split; [done |].
      eapply Forall_impl; [exact Hmid |]. intros x Hx. by eapply same_flags_trans. }
    destruct Hs1 as [Hd1 He1].
    destruct (f y (s1, h ++ h1)) as [[[] | e] [s2 h2]]; cbn in *.
    + rewrite He1 in Hend. exact Hend.
    + destruct Hend as [-> Hs2]. split; [done |]. by eapply same_flags_trans.
    + destruct Hend as [-> Hs2]. split; [done |]. by eapply same_flags_trans.
  - exists h1, []. rewrite app_nil_r. by cbn.
Qed.

Lemma os_remove_zip t t' :
  os_remove temp_zip t = Ok t' →
  get temp_zip t' = None ∧ ∃ es, get staging_dir t' = Some (Dir es).
Proof.
  unfold os_remove, temp_zip, staging_dir. cbn.
  destruct t as [d m | rs]; [done |].
  destruct (assoc ".update_staging" rs) as [[d m | es] |] eqn:Hk; try done.
  destruct (assoc "update.zip" es) as [[d m | es'] |] eqn:Hz; try done.
  intros [= <-]. cbn. rewrite FSFacts.assoc_set_eq. cbn.
  rewrite FSFacts.assoc_del_eq. eauto.
Qed.

Lemma ends_final :
  ends (fs_op (os_remove temp_zip);;
        logger "Update prepared in staging directory." "success";;
        update (set_downloading false);;
        update (set_progress 100);;
        mret true).
Proof.
  intros s h. unfold closing. trun.
  destruct (os_remove [".update_staging"; "update.zip"] (fs s)) as [t' | e] eqn:Hrm.
  - apply os_remove_zip in Hrm as [Hzip Hdir]. trun.
    eexists [_; _], [_; _]. split; [by rewrite <- !app_assoc |].
    split; [by repeat (apply Forall_cons; split; [done |]) |].
    split_and!; try done.
    by repeat (apply Forall_cons; split; [done |]).
  - trun. exists [], []. by rewrite !app_nil_r.
Qed.

Lemma ends_download_body url hsh : ends (download_body E url hsh).
Proof.
  unfold download_body.
  do 6 (apply ends_bind; [keep | intros ?]).
  destruct (http_get E url) as [msg | resp].
  { apply ends_keeps; [keep | done]. }
  apply ends_bind; [keep | intros total].
  apply ends_bind; [keep | intros _].
  apply ends_bind; [apply keeps_receive | intros payload].
  do 4 (apply ends_bind; [keep | intros ?]).
  case_match; try (apply ends_keeps; [keep | done]).
  case_match; try (apply ends_keeps; [keep | done]).
  case_match; try (apply ends_keeps; [keep | done]).
  apply ends_bind; [apply keeps_extract | intros inside].
  destruct inside; [apply ends_final |].
  apply ends_keeps; [keep | done].
Qed.

Lemma failure_handler e s1 h1 :
  (logger ("Update download failed: " +:+ str_exn e) "error";;
   update (set_error (Some (str_exn e)));;
   update (set_downloading false)) (s1, h1) =
  (Ok tt,
   (set_downloading false (set_error (Some (str_exn e))
      (add_log ("Update download failed: " +:+ str_exn e) "error" s1)),
    h1 ++ [add_log ("Update download failed: " +:+ str_exn e) "error" s1;
           set_error (Some (str_exn e))
             (add_log ("Update download failed: " +:+ str_exn e) "error" s1);
           set_downloading false (set_error (Some (str_exn e))
             (add_log ("Update download failed: " +:+ str_exn e) "error" s1))])).
Proof. trun. by rewrite <- !app_assoc. Qed.

(** X18: whatever the network, the archive and the file system do, a
    download task that stays inside the extension directory ends with the
    busy flag cleared.  When it failed, the error text is in [last_error]
    and was logged last, at level [error]; when it completed, the progress
    is 100 and [last_error] is as the task found it.  The busy flag keeps
    its value in every state before the closing ones, so that a task begun
    with the flag set never shows [ready_to_restart] there; the closing
    states have the final directory and error field. *)
Theorem download_task_flags (url : string) (hsh : option string)
    (s : service) (h : list service) :
  let r := download_task E url hsh (s, h) in
  r.1 ≠ LeftTree →
  is_downloading r.2.1 = false ∧
  (r.1 = Completed →
     last_error r.2.1 = last_error s ∧ download_progress r.2.1 = 100%Z) ∧
  (∀ e, r.1 = Failed e →
     last_error r.2.1 = Some (str_exn e) ∧
     last (logged r.2.1) = Some ("Update download failed: " +:+ str_exn e, "error")) ∧
  ∃ mid tail, r.2.2 = h ++ mid ++ tail ∧
    Forall (λ x, is_downloading x = is_downloading s) mid ∧
    (is_downloading s = true →
       Forall (λ x, derive_status x ≠ Ok "ready_to_restart") mid) ∧
    Forall (λ x, is_downloading x = false ∧ fs x = fs r.2.1 ∧
                 last_error x = last_error r.2.1) tail ∧
    last tail = Some r.2.1.
Proof.
  intros r. subst r. unfold download_task.
  destruct (ends_download_body url hsh s h) as (mid & tail & Hh & Hmid & Hend).
  assert (∀ l, Forall (same_flags s) l →
            Forall (λ x, is_downloading x = is_downloading s) l) as Hflag.
  { intros l Hl. eapply Forall_impl; [exact Hl |]. by intros x [? _]. }
  assert (∀ l, is_downloading s = true →
            Forall (λ x, is_downloading x = is_downloading s) l →
            Forall (λ x, derive_status x ≠ Ok "ready_to_restart") l) as Hnot.
  { intros l Hs Hl. eapply Forall_impl; [exact Hl |]. intros x Hx.
    apply derive_status_in_flight. left. congruence. }
  destruct (download_body E url hsh (s, h)) as [[[] | e] [s1 h1]]; cbn in Hh, Hend.
  - intros _. cbn.
    destruct Hend as (Hd & He & Hp & _ & _ & Htail & Hlast).
    split; [done |]. split; [done |]. split; [done |].
    exists mid, tail. split_and!; auto.
    eapply Forall_impl; [exact Htail |]. intros x (? & ? & ?).
    split_and!; [done | done | congruence].
  - by intros Hne.
  - intros _. rewrite failure_handler. cbn.
    destruct Hend as [-> [Hd1 He1]]. rewrite app_nil_r in Hh. subst h1.
    split; [done |]. split; [done |].
    split.
    { intros e' [= <-]. split; [done |]. by rewrite last_snoc. }
    eexists (mid ++ [_; _]), [_]. split; [by rewrite <- !app_assoc |].
    assert (Forall (λ x, is_downloading x = is_downloading s)
              (mid ++ [add_log ("Update download failed: " +:+ str_exn e) "error" s1;
                       set_error (Some (str_exn e))
                         (add_log ("Update download failed: " +:+ str_exn e) "error" s1)]))
      as Hmid'.
    { apply Forall_app. split; [by apply Hflag |].
      by repeat (apply Forall_cons; split; [done |]). }
    split; [exact Hmid' |]. split; [intros Hs; by apply Hnot |].
    split; [| done]. by apply Forall_cons.
Qed.

(** X19: a download task that completed leaves no [update.zip] in the
    staging directory; with no error recorded when it began, the status
    after it is [ready_to_restart] when the staging directory has an
    entry and [idle] when the archive held nothing to extract; it is never
    [downloading] or [error]. *)
Theorem download_completed_status (url : string) (hsh : option string)
    (s : service) (h : list service) :
  let r := download_task E url hsh (s, h) in
  r.1 = Completed →
  last_error s = None →
  get temp_zip (fs r.2.1) = None ∧
  ∃ es, get staging_dir (fs r.2.1) = Some (Dir es) ∧
    derive_status r.2.1 =
      Ok (if bool_decide (es = []) then "idle" else "ready_to_restart").
Proof.
  intros r. subst r. unfold download_task.
  destruct (ends_download_body url hsh s h) as (mid & tail & Hh & Hmid & Hend).
  destruct (download_body E url hsh (s, h)) as [[[] | e] [s1 h1]];
    cbn [fst snd] in Hh, Hend.
  - intros _ Herr. cbn [fst snd].
    destruct Hend as (Hd & He & _ & Hzip & [es Hes] & _).
    split; [done |]. exists es. split; [done |].
    unfold derive_status, staging_populated, exists_, iterdir.
    rewrite He, Herr, Hd, Hes, Hzip. cbn.
    destruct es as [| [n x] es]; done.
  - done.
  - rewrite failure_handler. done.
Qed.

End WithEnv.

(** X20: [start_download] refuses, and changes nothing, while a download
    is in progress.  Otherwise it accepts: it sets the busy flag, resets
    the progress to 0 and clears the error of an earlier attempt, leaving
    the directory alone; a second request made before the task has ended
    is then refused. *)
Theorem start_download_exclusive (s : service) (h : list service) :
  (is_downloading s = true → start_download (s, h) = (Ok false, (s, h))) ∧
  (is_downloading s = false →
     ∃ s' h', start_download (s, h) = (Ok true, (s', h ++ h')) ∧
       is_downloading s' = true ∧ download_progress s' = 0%Z ∧
       last_error s' = None ∧ fs s' = fs s ∧
       logged s' = logged s ∧ requested s' = requested s ∧
       Forall (λ x, is_downloading x = true ∧ fs x = fs s) h' ∧
       ∀ h2, start_download (s', h2) = (Ok false, (s', h2))).
Proof.
  unfold start_download. split; intros Hd; trun; rewrite Hd; [done |].
  trun. eexists _, [_; _; _]. split; [by rewrite <- !app_assoc |].
  split_and!; try done.
  by repeat (apply Forall_cons; split; [done |]).
Qed.

Lemma download_task_flags_witness :
  is_downloading
    (download_task (demo_env []) "https://example.org/update.zip" None
       (set_downloading true (init (Dir [])), [])).2.1 = false.
Proof.
  refine (proj1 (download_task_flags (demo_env []) "https://example.org/update.zip"
                   None (set_downloading true (init (Dir []))) [] _)).
  vm_compute. discriminate.
Defined.

Lemma download_completed_status_witness :
  get temp_zip
    (fs (download_task (demo_env [ZipMember "launcher.py" "A"; ZipMember "version.json" "B"])
           "https://example.org/update.zip" None
           (set_downloading true (init (Dir [])), [])).2.1) = None.
Proof.
  refine (proj1 (download_completed_status
                   (demo_env [ZipMember "launcher.py" "A"; ZipMember "version.json" "B"])
                   "https://example.org/update.zip"
                   None (set_downloading true (init (Dir []))) [] _ _)).
  - vm_compute. reflexivity.
  - reflexivity.
Defined.

End DownloadFacts.

(** ** Bootstrap update: what a run leaves behind *)
Module BootstrapRunFacts.
Import FS Bootstrap.

Local Arguments assoc : simpl never.
Local Arguments assoc_set : simpl never.
Local Arguments assoc_del : simpl never.
Local Arguments String.eqb : simpl never.

(** The root is a directory whose entry [n] is as in [rs]. *)
Definition agrees (n : string) (rs : list (string * node)) (t : node) : Prop :=
  ∃ rs', t = Dir rs' ∧ assoc n rs' = assoc n rs.

Lemma agrees_refl n rs : agrees n rs (Dir rs).
Proof. by exists rs. Qed.

Lemma put_agrees n m p v rs t :
  n ≠ m → put (m :: p) v (Dir rs) = Some t → agrees n rs t.
Proof.
  intros Hne. cbn.
  destruct p as [| x p].
  - intros [= <-]. eexists. split; [done |]. by apply FSFacts.assoc_set_ne.
  - destruct (assoc m rs) as [c |]; [| done].
    destruct (put (x :: p) v c) as [c' |]; [| done].
    intros [= <-]. eexists. split; [done |]. by apply FSFacts.assoc_set_ne.
Qed.

Lemma remove_agrees n m p rs t :
  n ≠ m → remove (m :: p) (Dir rs) = Some t → agrees n rs t.
Proof.
  intros Hne. cbn.
  destruct p as [| x p].
  - destruct (assoc m rs); [| done].
    intros [= <-]. eexists. split; [done |]. by apply FSFacts.assoc_del_ne.
  - destruct (assoc m rs) as [c |]; [| done].
    destruct (remove (x :: p) c) as [c' |]; [| done].
    intros [= <-]. eexists. split; [done |]. by apply FSFacts.assoc_set_ne.
Qed.

Lemma copy2_agrees n src m rs t :
  n ≠ m → copy2 src [m] (Dir rs) = Ok t → agrees n rs t.
Proof.
  intros Hne. unfold copy2, put_or.
  destruct (get src (Dir rs)) as [[d mt | es] |]; [| done | done].
  destruct (is_dir [m] (Dir rs)); cbn [app].
  all: case_decide; [done |].
  all: match goal with
       | |- context [get ?p (Dir ?r)] => destruct (get p (Dir r)) as [[? ? | ?] |]
       end; try done.
  all: match goal with
       | |- context [put ?p ?v (Dir ?r)] =>
           destruct (put p v (Dir r)) as [t' |] eqn:Hput; [| done]
       end.
  all: intros [= <-]; by eapply put_agrees.
Qed.

Lemma rmtree_agrees n m rs t :
  n ≠ m → rmtree [m] (Dir rs) = Ok t → agrees n rs t.
Proof.
  intros Hne. unfold rmtree.
  destruct (get [m] (Dir rs)) as [[? ? | ?] |]; try done.
  destruct (remove [m] (Dir rs)) as [t' |] eqn:Hrm; [| done].
  intros [= <-]. by eapply remove_agrees.
Qed.

Lemma copytree_agrees n src m rs t :
  n ≠ m → copytree src [m] (Dir rs) = Ok t → agrees n rs t.
Proof.
  intros Hne. unfold copytree, put_or, makedirs. cbn [parent removelast makedirs_from].
  destruct (get src (Dir rs)) as [[? ? | es] |]; try done.
  destruct (get [m] (Dir rs)); [done |].
  destruct (put [m] (Dir es) (Dir rs)) as [t' |] eqn:Hput; [| done].
  intros [= <-]. by eapply put_agrees.
Qed.

Lemma agrees_trans n rs rs1 t :
  assoc n rs1 = assoc n rs → agrees n rs1 t → agrees n rs t.
Proof. intros Heq (rs' & -> & Hrs'). exists rs'. split; [done | congruence]. Qed.

Lemma apply_entry_agrees n name rs tr :
  n ≠ name → n ≠ "version.json" →
  agrees n rs (apply_entry name (Dir rs, tr)).2.1.
Proof.
  intros Hne Hv. unfold apply_entry.
  destruct (String.eqb name "version.json").
  { destruct (copy2 _ _ _) eqn:Hc; cbn [fst snd];
      [exact (copy2_agrees _ _ _ _ _ Hv Hc) | apply agrees_refl]. }
  destruct (is_dir _ _).
  - destruct (exists_ _ _).
    + destruct (rmtree [name] (Dir rs)) as [t1 | e] eqn:Hr; cbn [fst snd];
        [| apply agrees_refl].
      destruct (rmtree_agrees n name rs t1 Hne Hr) as (rs1 & -> & Hrs1).
      destruct (copytree _ _ _) eqn:Hc; cbn [fst snd].
      * eapply agrees_trans; [exact Hrs1 |]. exact (copytree_agrees _ _ _ _ _ Hne Hc).
      * by exists rs1.
    + destruct (copytree _ _ _) eqn:Hc; cbn [fst snd];
        [exact (copytree_agrees _ _ _ _ _ Hne Hc) | apply agrees_refl].
  - destruct (copy2 _ _ _) eqn:Hc; cbn [fst snd];
      [exact (copy2_agrees _ _ _ _ _ Hne Hc) | apply agrees_refl].
Qed.

Lemma apply_entries_agrees n names : ∀ rs tr,
  n ∉ names → n ≠ "version.json" →
  agrees n rs (apply_entries names (Dir rs, tr)).2.1.
Proof.
  induction names as [| name names IH]; intros rs tr Hn Hv; [apply agrees_refl |].
  apply not_elem_of_cons in Hn as [Hne Hn]. cbn [apply_entries].
  pose proof (apply_entry_agrees n name rs tr Hne Hv) as Hstep.
  destruct (apply_entry name (Dir rs, tr)) as [[e |] [t1 tr1]]; cbn in Hstep; [done |].
  destruct Hstep as (rs1 & -> & Hrs1).
  eapply agrees_trans; [exact Hrs1 |]. by apply IH.
Qed.

(** X21: up to the final removal of the staging directory, the
    bootstrap leaves that directory as it was.  A run that finds no
    staging directory, or aborts for want of [version.json], changes
    nothing and makes no call.  The copying loop, whether it completes
    or stops at an exception, leaves every staged entry in place, and a
    run whose loop stopped at an exception ends as failed in that state,
    so the next start finds the same update again.  (The staging
    directory holds no entry of its own name; nothing is said of a run in
    which the final removal itself fails.) *)
Theorem bootstrap_keeps_staging_until_removal (rs : list (string * node)) :
  let r := perform_bootstrap_update (Dir rs) in
  (r.1.1 = NoStaging ∨ r.1.1 = Aborted → r.1.2 = Dir rs ∧ r.2 = []) ∧
  (∀ es, assoc ".update_staging" rs = Some (Dir es) →
         ".update_staging" ∉ es.*1 →
     get staging_dir (apply_entries es.*1 (Dir rs, [])).2.1 = Some (Dir es) ∧
     (∀ e st, is_Some (assoc "version.json" es) →
              apply_entries es.*1 (Dir rs, []) = (Some e, st) →
        r = (Failed e, st.1, st.2))).
Proof.
  intros r. subst r. split.
  - unfold perform_bootstrap_update.
    destruct (exists_ staging_dir (Dir rs) && is_dir staging_dir (Dir rs)); [| done].
    destruct (negb _); [done |].
    destruct (iterdir staging_dir (Dir rs)) as [names | e];
      [| by intros [? | ?]].
    destruct (apply_entries names (Dir rs, [])) as [[e |] [t1 tr1]];
      [by intros [? | ?] |].
    destruct (rmtree staging_dir t1); by intros [? | ?].
  - intros es Hk Hown. split.
    + destruct (apply_entries_agrees ".update_staging" es.*1 rs [] Hown
                  ltac:(discriminate)) as (rs1 & Heq & Hrs1).
      rewrite Heq. cbn. by rewrite Hrs1, Hk.
    + intros e st [v Hv] Hrun. unfold perform_bootstrap_update, exists_, is_dir, iterdir.
      cbn [staging_dir app get]. rewrite Hk. cbn [get]. rewrite Hv. cbn.
      rewrite Hrun. by destruct st.
Qed.

Lemma applied_inv t t2 tr :
  perform_bootstrap_update t = (Applied, t2, tr) →
  get staging_dir t2 = None ∧ last tr = Some (Rmtree staging_dir).
Proof.
  unfold perform_bootstrap_update.
  destruct (exists_ staging_dir t && is_dir staging_dir t); [| done].
  destruct (negb _); [done |].
  destruct (iterdir staging_dir t) as [names | e]; [| done].
  destruct (apply_entries names (t, [])) as [[e |] [t1 tr1]]; [done |].
  destruct (rmtree staging_dir t1) as [t2' | e] eqn:Hrm; [| done].
  intros [= <- <-]. split; [| by rewrite last_snoc].
  unfold rmtree, staging_dir in *. cbn in *.
  destruct t1 as [d m | rs1]; [done |].
  destruct (assoc ".update_staging" rs1) as [[d m | es] |]; try done.
  injection Hrm as <-. cbn. by rewrite FSFacts.assoc_del_eq.
Qed.

(** X22: an update is applied once: after a run that applied the staged
    update the staging directory is gone, its removal was the last call
    made, and a second run finds nothing to do and changes nothing. *)
Theorem bootstrap_applies_once (t : node) :
  let r := perform_bootstrap_update t in
  r.1.1 = Applied →
  get staging_dir r.1.2 = None ∧
  last r.2 = Some (Rmtree staging_dir) ∧
  perform_bootstrap_update r.1.2 = (NoStaging, r.1.2, []).
Proof.
  intros r. subst r.
  destruct (perform_bootstrap_update t) as [[out t2] tr] eqn:Hr. cbn [fst snd].
  intros ->. destruct (applied_inv t t2 tr Hr) as [Hgone Hlast].
  split; [done |]. split; [done |].
  unfold perform_bootstrap_update, exists_. by rewrite Hgone.
Qed.

(** A root with a staged update, and one whose staged directory [web]
    meets a file of that name. *)
Definition fresh_root : node :=
  Dir [(".update_staging",
        Dir [("launcher.py", File "new" 5); ("version.json", File "v2" 5)]);
       ("launcher.py", File "old" 1)].

Definition clashing_root : list (string * node) :=
  [(".update_staging",
    Dir [("version.json", File "v2" 5); ("web", Dir [])]);
   ("web", File "not a directory" 1)].

Lemma bootstrap_applies_once_witness :
  perform_bootstrap_update (perform_bootstrap_update fresh_root).1.2 =
    (NoStaging, (perform_bootstrap_update fresh_root).1.2, []).
Proof.
  exact (proj2 (proj2 (bootstrap_applies_once fresh_root eq_refl))).
Defined.

Lemma bootstrap_keeps_staging_until_removal_witness :
  get staging_dir
    (apply_entries ["version.json"; "web"] (Dir clashing_root, [])).2.1 =
  Some (Dir [("version.json", File "v2" 5); ("web", Dir [])]) ∧
  (perform_bootstrap_update (Dir clashing_root)).1.1 =
    Failed (NotADirectoryError ["web"]).
Proof.
  assert (".update_staging" ∉ [("version.json", File "v2" 5); ("web", Dir [])].*1)
    as Hown.
  { intros Hin. apply list_elem_of_In in Hin. cbn in Hin.
    repeat destruct Hin as [Hin | Hin]; try discriminate Hin. exact Hin. }
  destruct (proj2 (bootstrap_keeps_staging_until_removal clashing_root)
              [("version.json", File "v2" 5); ("web", Dir [])] eq_refl Hown)
    as [Hkeep Hfail].
  split; [exact Hkeep |].
  by rewrite (Hfail (NotADirectoryError ["web"])
                (apply_entries ["version.json"; "web"] (Dir clashing_root, [])).2
                ltac:(by eexists) eq_refl).
Defined.

End BootstrapRunFacts.

(** ** Static files *)
Module StaticFacts.
Import FS Static.

(** A path component as a URL has it between two slashes: not empty, not
    [.] or [..], and without a slash. *)
Definition plain (c : string) : Prop :=
  c ≠ "" ∧ c ≠ "." ∧ c ≠ ".." ∧
  Forall (λ a, a ≠ "/"%char) (list_ascii_of_string c).

Lemma split_on_plain c : plain c → split_on "/" c = [c].
Proof.
  intros (_ & _ & _ & Hc). induction c as [| a c IH]; [done |].
  apply Forall_cons in Hc as [Ha Hc]. cbn.
  destruct (Ascii.eqb_spec a "/"); [done |]. by rewrite IH.
Qed.

Lemma split_on_plain_slash c t :
  plain c → split_on "/" (c +:+ String "/" t) = c :: split_on "/" t.
Proof.
  intros (_ & _ & _ & Hc). induction c as [| a c IH]; [done |].
  apply Forall_cons in Hc as [Ha Hc].
  change (String a c +:+ String "/" t) with (String a (c +:+ String "/" t)).
  cbn [split_on]. destruct (Ascii.eqb_spec a "/"); [done |]. by rewrite IH.
Qed.

Lemma split_on_concat p :
  p ≠ [] → Forall plain p → split_on "/" (String.concat "/" p) = p.
Proof.
  intros Hne Hp. induction Hp as [| c p Hc Hp IH]; [done |].
  destruct p as [| c' p].
  - by apply split_on_plain.
  - change (String.concat "/" (c :: c' :: p))
      with (c +:+ String "/" (String.concat "/" (c' :: p))).
    rewrite split_on_plain_slash by done. by rewrite IH.
Qed.

Lemma filter_plain p :
  Forall plain p → filter (λ c, c ≠ "" ∧ c ≠ ".") p = p.
Proof.
  intros Hp. induction Hp as [| c p Hc Hp IH]; [done |].
  rewrite filter_cons_True by (destruct Hc as (? & ? & _); done). by rewrite IH.
Qed.

Lemma get_app a : ∀ b t,
  get (a ++ b) t = get a t ≫= get b.
Proof.
  induction a as [| n a IH]; intros b t; [done |]. cbn.
  destruct t as [d m | es]; [done |].
  destruct (assoc n es); [apply IH | done].
Qed.

Lemma get_cons_dir c p t :
  is_Some (get (c :: p) t) → ∃ es, t = Dir es.
Proof. destruct t as [d m | es]; [by intros [? ?] | eauto]. Qed.

(** Following plain components arrives where the tree has a node. *)
Lemma walk_plain p : ∀ cur t,
  Forall plain p →
  walk cur p t = if exists_ (cur ++ p) t then At (cur ++ p) else Missing.
Proof.
  induction p as [| c p IH]; intros cur t Hp; [by rewrite app_nil_r |].
  apply Forall_cons in Hp as [Hc Hp]. cbn [walk].
  assert (String.eqb c ".." = false) as ->
    by (apply String.eqb_neq; by destruct Hc as (_ & _ & ? & _)).
  rewrite IH by done. rewrite <- app_assoc. cbn [app].
  unfold is_dir, exists_. rewrite (get_app cur (c :: p)).
  destruct (get cur t) as [[d m | es] |] eqn:Hcur; cbn [mbind option_bind];
    reflexivity.
Qed.

Lemma lstrip_slash_plain c rest :
  plain c → lstrip_slash (c +:+ rest) = c +:+ rest.
Proof.
  intros (Hne & _ & _ & Hc). destruct c as [| a c]; [done |].
  apply Forall_cons in Hc as [Ha _].
  change (String a c +:+ rest) with (String a (c +:+ rest)). cbn [lstrip_slash].
  destruct (Ascii.eqb_spec a "/"); [done | reflexivity].
Qed.

Fixpoint slashes (n : nat) : string :=
  match n with
  | O => ""
  | S n' => String "/" (slashes n')
  end.

Lemma lstrip_slash_slashes n s : lstrip_slash (slashes n +:+ s) = lstrip_slash s.
Proof. induction n as [| n IH]; [done |]. cbn. exact IH. Qed.

Lemma file_path_plain n p :
  p ≠ [] → Forall plain p →
  file_path (slashes n +:+ String.concat "/" p) = "web" :: p.
Proof.
  intros Hne Hp. unfold file_path. rewrite lstrip_slash_slashes.
  assert (lstrip_slash (String.concat "/" p) = String.concat "/" p) as ->.
  { destruct p as [| c p]; [done |]. apply Forall_cons in Hp as [Hc _].
    destruct p as [| c' p].
    - pose proof (lstrip_slash_plain c "" Hc) as H.
      by rewrite UpdaterFacts.append_nil_r in H.
    - by apply (lstrip_slash_plain c). }
  destruct (String.eqb_spec (String.concat "/" p) "") as [He | _].
  { apply (f_equal (split_on "/")) in He. rewrite split_on_concat in He by done.
    subst p. apply Forall_cons in Hp as [(? & _) _]. done. }
  destruct (String.eqb_spec (String.concat "/" p) "index.html") as [He | _].
  { apply (f_equal (split_on "/")) in He. rewrite split_on_concat in He by done.
    by subst p. }
  cbn [orb]. by rewrite split_on_concat, filter_plain.
Qed.

(** X23: for a request path made of plain components after any number
    of leading slashes, the handler answers by what [web/] holds there: a
    file is sent with its bytes and the content type guessed from its
    path; a directory gives 404, with no fallback; and when nothing is
    there, [web/index.html] is sent in its place if it is a file, 404
    otherwise. *)
Theorem serve_static_file_plain (guess_type : list string → option string)
    (n : nat) (p : list string) (t : node) :
  p ≠ [] → Forall plain p →
  serve_static_file guess_type (slashes n +:+ String.concat "/" p) t =
    match get ("web" :: p) t with
    | Some (File data _) => Content (content_type_of guess_type ("web" :: p)) data
    | Some (Dir _) => NotFound
    | None =>
        match get ["web"; "index.html"] t with
        | Some (File data _) =>
            Content (content_type_of guess_type ["web"; "index.html"]) data
        | _ => NotFound
        end
    end.
Proof.
  intros Hne Hp. unfold serve_static_file.
  rewrite file_path_plain by done.
  assert (Forall plain ("web" :: p)) as Hwp.
  { apply Forall_cons. split; [| done].
    repeat split; try done. by repeat (apply Forall_cons; split; [done |]). }
  assert (Forall plain ["web"; "index.html"]) as Hidx.
  { repeat (apply Forall_cons; split); [.. | apply Forall_nil_2].
    all: repeat split; try done; by repeat (apply Forall_cons; split; [done |]). }
  rewrite !walk_plain by done. unfold exists_. cbn [app].
  destruct (get ("web" :: p) t) as [[d m | es] |] eqn:Hget; cbn [send_file].
  - by rewrite Hget.
  - by rewrite Hget.
  - destruct (get ["web"; "index.html"] t) as [[d m | es] |] eqn:Hi;
      cbn [send_file]; by rewrite ?Hi.
Qed.

Lemma serve_static_file_plain_witness :
  serve_static_file (λ _, Some "text/html") "/assets/app.js"
    (Dir [("web", Dir [("index.html", File "<html>" 1)])]) =
  Content "text/html" "<html>".
Proof.
  exact (serve_static_file_plain (λ _, Some "text/html") 1 ["assets"; "app.js"]
           (Dir [("web", Dir [("index.html", File "<html>" 1)])])
           ltac:(discriminate)
           ltac:(repeat (apply Forall_cons; split;
                         [repeat split; try discriminate;
                          repeat (apply Forall_cons; split; [discriminate |]);
                          apply Forall_nil_2 |]); apply Forall_nil_2)).
Defined.

(** X24: the handler does not keep requests inside [web/]: when [web/]
    is a directory, a request for [/../] followed by the path of any file
    of the extension directory is answered with that file's bytes. *)
Theorem serve_static_file_leaves_web (guess_type : list string → option string)
    (p : list string) (data : string) (mtime : nat) (t : node) :
  is_dir ["web"] t = true →
  p ≠ [] → Forall plain p →
  get p t = Some (File data mtime) →
  serve_static_file guess_type ("/../" +:+ String.concat "/" p) t =
    Content (content_type_of guess_type ("web" :: ".." :: p)) data.
Proof.
  intros Hweb Hne Hp Hget. unfold serve_static_file.
  assert (file_path ("/../" +:+ String.concat "/" p) = "web" :: ".." :: p) as ->.
  { unfold file_path.
    change (lstrip_slash ("/../" +:+ String.concat "/" p))
      with ("../" +:+ String.concat "/" p).
    change (String.eqb ("../" +:+ String.concat "/" p) "") with false.
    change (String.eqb ("../" +:+ String.concat "/" p) "index.html") with false.
    cbn [orb].
    change (split_on "/" ("../" +:+ String.concat "/" p))
      with (".." :: split_on "/" (String.concat "/" p)).
    rewrite split_on_concat by done.
    rewrite filter_cons_True by done. by rewrite filter_plain. }
  assert (is_dir [] t = true) as Hroot.
  { destruct p as [| c p]; [done |].
    destruct (get_cons_dir c p t) as [es ->]; [by eexists | done]. }
  cbn [walk]. rewrite Hroot. cbn [String.eqb app]. rewrite Hweb.
  change (String.eqb ".." "..") with true. cbn [parent removelast].
  change (String.eqb "web" "..") with false. cbn beta iota.
  rewrite walk_plain by done. unfold exists_. cbn [app]. rewrite Hget.
  cbn. by rewrite Hget.
Qed.

Lemma serve_static_file_leaves_web_witness :
  serve_static_file (λ _, None) "/../comfyui_original_args.json"
    (Dir [("web", Dir []); ("comfyui_original_args.json", File "{}" 3)]) =
  Content "application/octet-stream" "{}".
Proof.
  exact (serve_static_file_leaves_web (λ _, None) ["comfyui_original_args.json"]
           "{}" 3
           (Dir [("web", Dir []); ("comfyui_original_args.json", File "{}" 3)])
           eq_refl ltac:(discriminate)
           ltac:(repeat (apply Forall_cons; split;
                         [repeat split; try discriminate;
                          repeat (apply Forall_cons; split; [discriminate |]);
                          apply Forall_nil_2 |]); apply Forall_nil_2)
           eq_refl).
Defined.

End StaticFacts.

(** ** Update service: an archive with a single file *)
Module ArchiveFacts.
Import FS Updater UpdaterFacts StaticFacts.

Local Arguments assoc : simpl never.
Local Arguments assoc_set : simpl never.
Local Arguments assoc_del : simpl never.
Local Arguments String.append : simpl never.
Local Arguments String.eqb : simpl never.
Local Arguments write_file : simpl never.
Local Arguments rmtree : simpl never.
Local Arguments makedirs : simpl never.
Local Arguments exists_ : simpl never.
Local Arguments extract : simpl never.

Abbreviation k := ".update_staging" (only parsing).
Abbreviation te := "_temp_extract" (only parsing).

Lemma startswith_slash a s :
  a ≠ "/"%char → PyStr.startswith (String a s) "/" = false.
Proof.
  intros Ha.
  change (PyStr.startswith (String a s) "/")
    with (if Ascii.eqb "/" a then PyStr.startswith s "" else false).
  destruct (Ascii.eqb_spec "/" a); [congruence | done].
Qed.

Lemma startswith_rev_app s : ∀ acc,
  Forall (λ a, a ≠ "/"%char) (list_ascii_of_string s) →
  PyStr.startswith acc "/" = false →
  PyStr.startswith (String.rev_app s acc) "/" = false.
Proof.
  induction s as [| c s IH]; intros acc Hs Hacc; [done |].
  apply Forall_cons in Hs as [Hc Hs]. cbn [String.rev_app]. apply IH; [done |].
  by apply startswith_slash.
Qed.

Lemma plain_not_dir name : plain name → member_is_dir name = false.
Proof.
  intros (_ & _ & _ & Hc). unfold member_is_dir, PyStr.endswith, String.rev.
  by apply startswith_rev_app.
Qed.

Lemma plain_member_path name : plain name → member_path name = [name].
Proof.
  intros Hp. unfold member_path. rewrite split_on_plain by done.
  rewrite filter_cons_True by (destruct Hp as (? & ? & ? & _); done). done.
Qed.

Lemma plain_join_rel base name : plain name → join_rel base name = Some (base ++ [name]).
Proof.
  intros Hp. unfold join_rel. rewrite split_on_plain by done.
  destruct Hp as (Hne & Hdot & Hdd & Hc).
  assert (PyStr.startswith name "/" = false) as ->.
  { destruct name as [| a name]; [done |]. apply Forall_cons in Hc as [Ha _].
    by apply startswith_slash. }
  cbn [existsb orb].
  assert (String.eqb ".." name = false) as -> by (apply String.eqb_neq; congruence).
  cbn [orb]. by rewrite filter_cons_True.
Qed.

Lemma plain_commonprefix name :
  plain name →
  PyStr.truthy (PyStr.commonprefix [name]) &&
  negb (existsb (λ f, negb (PyStr.startswith f (PyStr.commonprefix [name]))) [name]) = true.
Proof.
  intros (Hne & _). cbn. rewrite StartupFacts.startswith_refl.
  by destruct name.
Qed.

Lemma assoc_here n v l : assoc n ((n, v) :: l) = Some v.
Proof. unfold assoc. by rewrite String.eqb_refl. Qed.

Section WithEnv.
Variable E : env.

(** The hoisting branch of the extraction, for an archive that holds one
    plain file and a staging directory that holds the archive alone. *)
Lemma extract_single name data dl pr err rs lg rq h z :
  plain name →
  assoc k rs = Some (Dir [("update.zip", z)]) →
  ∃ s' h',
    extract E [ZipMember name data] (Service dl pr err (Dir rs) lg rq, h) =
      (Raise (NotADirectoryError [k; te; name]), (s', h ++ h')) ∧
    is_downloading s' = dl ∧ last_error s' = err ∧ logged s' = lg ∧
    requested s' = rq ∧
    get [k] (fs s') =
      Some (Dir [("update.zip", z); (te, Dir [(name, File data (now E))])]) ∧
    (∀ n, n ≠ k → get [n] (fs s') = get [n] (Dir rs)) ∧
    Forall (λ x, is_downloading x = dl ∧ last_error x = err) h'.
Proof.
  intros Hp Hk. unfold extract.
  cbn [fmap list_fmap zname]. rewrite plain_commonprefix by done.
  change (PyStr.commonprefix [name]) with name.
  rewrite plain_join_rel by done.
  trun. unfold extract_member. cbn [zname zdata].
  rewrite plain_member_path, plain_not_dir by done. cbn [app parent removelast].
  assert (exists_ [k; te] (Dir rs) = false) as ->.
  { unfold exists_. cbn [get]. rewrite Hk. reflexivity. }
  assert (makedirs [k; te] (Dir rs) =
            Ok (Dir (assoc_set k (Dir [("update.zip", z); (te, Dir [])]) rs))) as ->.
  { unfold makedirs. cbn [makedirs_from app get put]. rewrite !Hk.
    cbn [get put]. rewrite ?Hk. reflexivity. }
  assert (write_file [k; te; name] data (now E)
            (Dir (assoc_set k (Dir [("update.zip", z); (te, Dir [])]) rs)) =
          Ok (Dir (assoc_set k
                     (Dir [("update.zip", z); (te, Dir [(name, File data (now E))])])
                     (assoc_set k (Dir [("update.zip", z); (te, Dir [])]) rs)))) as ->.
  { unfold write_file, put_or. cbn [get put]. rewrite !FSFacts.assoc_set_eq.
    reflexivity. }
  trun. unfold iterdir. cbn [get]. rewrite !FSFacts.assoc_set_eq.
  change (assoc te [("update.zip", z); (te, Dir [(name, File data (now E))])])
    with (Some (Dir [(name, File data (now E))])).
  cbn beta iota. rewrite assoc_here.
  eexists _, [_]. split; [reflexivity |]. cbn.
  rewrite !FSFacts.assoc_set_eq.
  split_and!; try done.
  - intros n Hn. by rewrite !FSFacts.assoc_set_ne.
  - by apply Forall_cons.
Qed.

(** The streaming loop writes the archive and nothing else. *)
Lemma receive_frame cs : ∀ total d w dl pr err rs lg rq h,
  assoc k rs = Some (Dir [("update.zip", File w (now E))]) →
  ∃ pr' rs' h',
    receive E total d w cs (Service dl pr err (Dir rs) lg rq, h) =
      (Ok (w +:+ foldr String.append "" cs),
       (Service dl pr' err (Dir rs') lg rq, h ++ h')) ∧
    assoc k rs' = Some (Dir [("update.zip",
                              File (w +:+ foldr String.append "" cs) (now E))]) ∧
    (∀ n, n ≠ k → assoc n rs' = assoc n rs).
Proof.
  induction cs as [| chunk cs IH]; intros total d w dl pr err rs lg rq h Hk.
  - exists pr, rs, []. cbn. rewrite append_nil_r, app_nil_r. by repeat split.
  - cbn [receive foldr].
    destruct (PyStr.truthy chunk) eqn:Hchunk.
    + trun. erewrite write_zip by exact Hk. trun.
      destruct (0 <? total)%Z; trun.
      * edestruct (IH total (d + Z.of_nat (String.length chunk))%Z (w +:+ chunk)
                     dl (percent E (d + Z.of_nat (String.length chunk)) total) err)
          as (pr' & rs' & h' & -> & Hk' & Hfr).
        { apply FSFacts.assoc_set_eq. }
        eexists pr', rs', (_ :: _ :: h'). rewrite append_assoc in *.
        split; [by rewrite <- !app_assoc |]. split; [done |].
        intros n Hn. rewrite Hfr by done. by apply FSFacts.assoc_set_ne.
      * edestruct (IH total (d + Z.of_nat (String.length chunk))%Z (w +:+ chunk)
                     dl pr err)
          as (pr' & rs' & h' & -> & Hk' & Hfr).
        { apply FSFacts.assoc_set_eq. }
        eexists pr', rs', (_ :: h'). rewrite append_assoc in *.
        split; [by rewrite <- !app_assoc |]. split; [done |].
        intros n Hn. rewrite Hfr by done. by apply FSFacts.assoc_set_ne.
    + destruct chunk; [| done]. change ("" +:+ foldr String.append "" cs)
        with (foldr String.append "" cs).
      by apply IH.
Qed.

(** The expected hash, if one was given, is that of the payload. *)
Definition accepts (hsh : option string) (payload : string) : Prop :=
  match hsh with
  | Some h =>
      PyStr.truthy h = true →
      PyStr.lower (sha256_hex E payload) = PyStr.lower h
  | None => True
  end.

(** X26: a release archive that holds a single plain file is never
    prepared for installation: its name is its own common prefix, so the
    task extracts it aside and then lists the extracted file as if it
    were the root folder.  The download ends in the error state with
    [NotADirectoryError]; the staging directory keeps the archive and the
    file extracted aside, and nothing outside it is touched. *)
Theorem single_file_archive_fails (url : string) (hsh : option string)
    (resp : response) (s : service) (rs : list (string * node))
    (name data : string) :
  fs s = Dir rs →
  is_file staging_dir (fs s) = false →
  is_downloading s = false →
  http_get E url = inr resp →
  (∀ text, content_length resp ≠ Malformed text) →
  stream_error resp = None →
  accepts hsh (body resp) →
  unzip E (body resp) = Some [ZipMember name data] →
  plain name →
  ∃ s' hist,
    download_run E url hsh s =
      Some (Failed (NotADirectoryError [k; te; name]), (s', hist)) ∧
    derive_status s' = Ok "error" ∧
    is_downloading s' = false ∧
    get staging_dir (fs s') =
      Some (Dir [("update.zip", File (body resp) (now E));
                 (te, Dir [(name, File data (now E))])]) ∧
    (∀ n, n ≠ k → get [n] (fs s') = get [n] (fs s)).
Proof.
  intros Hfs Hfile Hdl Hget Hlen Hstream Hacc Hzip Hp.
  destruct s as [dl pr err t lg rq]. cbn in Hfs, Hfile, Hdl. subst t dl.
  unfold download_run, start_download. trun.
  unfold download_task, download_body.
  assert (∃ rs0, assoc k rs0 = None ∧ (∀ n, n ≠ k → assoc n rs0 = assoc n rs) ∧
            ((exists_ [k] (Dir rs) = true ∧ rmtree [k] (Dir rs) = Ok (Dir rs0)) ∨
             (exists_ [k] (Dir rs) = false ∧ rs0 = rs))) as (rs0 & Hk0 & Hsame & Hclean).
  { destruct (exists_ [k] (Dir rs)) eqn:Hex.
    - exists (assoc_del k rs). split; [apply FSFacts.assoc_del_eq |].
      split; [intros n Hn; by apply FSFacts.assoc_del_ne |].
      left. split; [done |]. by apply rmtree_staging.
    - exists rs. split; [by apply exists_staging_false |]. split; [done |]. by right. }
  assert (content_length resp = NoHeader ∨ ∃ n, content_length resp = Length n) as Hcl.
  { destruct (content_length resp) as [| n | text]; [by left | right; eauto |].
    by destruct (Hlen text). }
  destruct hsh as [hh |]; [destruct (PyStr.truthy hh) eqn:Hh |].
  all: trun.
  all: destruct Hclean as [[-> Hrm] | [-> ->]].
  all: trun; try rewrite Hrm; trun.
  all: rewrite (makedirs_absent _ Hk0); trun.
  all: rewrite Hget; trun.
  all: destruct Hcl as [-> | [n ->]]; trun.
  all: rewrite write_zip_fresh by apply FSFacts.assoc_set_eq; trun.
  all: match goal with
       | |- context [receive E ?total ?d0 ?w0 ?cs (Service ?dl ?pr ?err (Dir ?rs1) ?lg ?rq, ?h)] =>
           destruct (receive_frame cs total d0 w0 dl pr err rs1 lg rq h)
             as (pr' & rs' & h' & -> & Hk' & Hfr); [apply FSFacts.assoc_set_eq |]
       end.
  all: change ("" +:+ foldr String.append "" (chunks resp)) with (body resp) in *.
  all: rewrite Hstream; trun.
  all: try (rewrite (Hacc Hh), String.eqb_refl); trun.
  all: rewrite Hk'.
  all: change (assoc "update.zip" [("update.zip", File (body resp) (now E))])
         with (Some (File (body resp) (now E))).
  all: cbn beta iota; rewrite Hzip; trun.
  all: match goal with
       | |- context [extract E ?ms (Service ?dl ?pr ?err (Dir ?r) ?lg ?rq, ?h)] =>
           destruct (extract_single name data dl pr err r lg rq h _ Hp Hk')
             as (s1 & h1 & -> & Hdl1 & Herr1 & _ & _ & Hst & Hout & _)
       end.
  all: trun.
  all: eexists _, _; split; [reflexivity |]; cbn [fs is_downloading last_error].
  all: split; [reflexivity |]; split; [reflexivity |]; split; [exact Hst |].
  all: intros m Hm; specialize (Hout m Hm); etransitivity; [exact Hout |].
  all: cbn [get]; rewrite Hfr by done.
  all: rewrite !FSFacts.assoc_set_ne by done.
  all: by rewrite ?Hsame.
Qed.

End WithEnv.

Lemma single_file_archive_fails_witness :
  ∃ s' hist,
    download_run (demo_env [ZipMember "launcher.py" "A"])
      "https://example.org/update.zip" None (init (Dir [])) =
      Some (Failed (NotADirectoryError [k; te; "launcher.py"]), (s', hist)) ∧
    derive_status s' = Ok "error".
Proof.
  assert (plain "launcher.py") as Hp.
  { repeat split; try discriminate.
    repeat (apply Forall_cons; split; [discriminate |]). apply Forall_nil_2. }
  destruct (single_file_archive_fails (demo_env [ZipMember "launcher.py" "A"])
              "https://example.org/update.zip" None demo_response (init (Dir [])) []
              "launcher.py" "A" eq_refl eq_refl eq_refl eq_refl
              ltac:(discriminate) eq_refl I eq_refl Hp)
    as (s' & hist & Hrun & Hst & _).
  exists s', hist. split; [exact Hrun | exact Hst].
Defined.

End ArchiveFacts.

(** ** The monitoring loop *)
Module MonitorFacts.
Import Launcher RestartFacts Monitor.

Local Arguments String.append : simpl never.
Local Arguments Logger.log : simpl never.

Section WithEnv.
Variable E : env.
Variable patch : nat → patch_result * N.
Variable protocol : string.
Variable check_interval : N.

(** What a turn of the loop leaves alone: the worker handle, the
    operating-system actions and the configuration. *)
Definition untouched (s s' : launcher) : Prop :=
  comfyui_process s' = comfyui_process s ∧
  effects s' = effects s ∧
  same_config s s'.

Lemma untouched_refl s : untouched s s.
Proof. by repeat split. Qed.

Lemma untouched_trans s1 s2 s3 : untouched s1 s2 → untouched s2 s3 → untouched s1 s3.
Proof.
  intros (Hp & He & Hc1 & Hc2 & Hc3 & Hc4 & Hc5) (Hp' & He' & Hd1 & Hd2 & Hd3 & Hd4 & Hd5).
  repeat split; congruence.
Qed.

Lemma subscribe_to_logs_untouched s :
  untouched s (subscribe_to_logs E patch protocol s).2 ∧
  probes (subscribe_to_logs E patch protocol s).2 = probes s.
Proof.
  unfold subscribe_to_logs. mrun.
  destruct (patch (probes s)) as [[msg | code] d]; mrun;
    [| destruct (code =? 200)%Z]; by repeat split.
Qed.

Lemma monitor_step_untouched f s :
  untouched s (monitor_step E patch protocol check_interval f s).2 ∧
  probes (monitor_step E patch protocol check_interval f s).2 = S (probes s).
Proof.
  unfold monitor_step, is_comfyui_responsive. mrun.
  destruct (probe E (probes s)) as [[] d]; mrun.
  - destruct (last_down_logged f); mrun.
    all: destruct (logs_subscribed f); mrun.
    all: try match goal with
         | |- context [subscribe_to_logs E patch protocol ?s1] =>
             destruct (subscribe_to_logs_untouched s1) as [(Hp & He & Hc) Hn];
             destruct (subscribe_to_logs E patch protocol s1) as [[] s2]
         end; cbn in *.
    all: destruct (server_detected f); mrun.
    all: repeat split; try done; try congruence.
    all: destruct Hc as (? & ? & ? & ? & ?).
    all: unfold llog, set_logger, set_clock, set_probes in *; cbn in *; congruence.
  - destruct (last_down_logged f); mrun; by repeat split.
Qed.

(** X27: the loop only monitors: over any number of turns, whatever the
    probes and the log subscription answer, it starts, stops and kills no
    process, it leaves the worker handle and the launch configuration as
    they were, and it makes exactly one health probe per turn. *)
Theorem monitor_turns_only_monitor (n : nat) (f : flags) (s : launcher) :
  let r := monitor_turns E patch protocol check_interval n f s in
  comfyui_process r.2 = comfyui_process s ∧
  effects r.2 = effects s ∧
  same_config s r.2 ∧
  probes r.2 = probes s + n.
Proof.
  intros r. subst r.
  cut (untouched s (monitor_turns E patch protocol check_interval n f s).2 ∧
       probes (monitor_turns E patch protocol check_interval n f s).2 = probes s + n).
  { intros [(Hp & He & Hc) Hn]. exact (conj Hp (conj He (conj Hc Hn))). }
  revert f s. induction n as [| n IH]; intros f s.
  - cbn. split; [apply untouched_refl | lia].
  - cbn [monitor_turns]. unfold mbind, M_bind.
    destruct (monitor_step_untouched f s) as [Hu Hn].
    destruct (monitor_step E patch protocol check_interval f s) as [f1 s1].
    cbn in Hu, Hn. destruct (IH f1 s1) as [Hu' Hn'].
    split; [by eapply untouched_trans | lia].
Qed.

(** X28: an outage is logged once: in a turn whose probe fails after the
    outage has been logged, the only log call is the debug line about the
    fast interval, made at the time the probe returned; the flags stay as
    they are and the loop sleeps the five seconds of the fast interval.
    In a turn whose probe fails before that, the outage is logged first,
    at level [info]. *)
Theorem monitor_step_outage (f : flags) (s : launcher) :
  (probe E (probes s)).1 = false →
  let r := monitor_step E patch protocol check_interval f s in
  let t := (clock s + (probe E (probes s)).2)%N in
  let fast := ("[MONITOR] Using fast check interval: 5s (waiting for server)", "debug") in
  let down := ("[MONITOR] ComfyUI is not responsive - waiting for manual restart request",
               "info") in
  r.1 = {| last_down_logged := true; logs_subscribed := false;
           server_detected := false |} ∧
  clock r.2 = (t + 5000)%N ∧
  logger r.2 =
    foldl (λ l (c : string * string),
             Logger.log (strftime E t) (isoformat E t) c.1 c.2 l)
          (logger s)
          (if last_down_logged f then [fast] else [down; fast]).
Proof.
  intros Hprobe r t fast down. subst r t fast down.
  unfold monitor_step, is_comfyui_responsive. mrun.
  destruct (probe E (probes s)) as [b d]. cbn in Hprobe. subst b. mrun.
  destruct (last_down_logged f); mrun; by repeat split.
Qed.

End WithEnv.

Lemma monitor_step_outage_witness :
  (monitor_step (demo_env (worker (λ _, None)) silent LogMissing)
     (λ _, (PatchStatus 200, 10%N)) "http" 30 initial_flags
     (demo_state main_args)).1 =
  {| last_down_logged := true; logs_subscribed := false; server_detected := false |}.
Proof.
  exact (proj1 (monitor_step_outage
                  (demo_env (worker (λ _, None)) silent LogMissing)
                  (λ _, (PatchStatus 200, 10%N)) "http" 30 initial_flags
                  (demo_state main_args) eq_refl)).
Defined.

End MonitorFacts.
